(** * Real-time speech translation system: a shallow embedding

    The Python sources modelled here are
    - [config/settings.py]        (module [Settings]),
    - [modules/translator.py]     (module [Translator]),
    - [models/model_manager.py]   (module [ModelManager]),
    - [modules/text_to_speech.py] (module [TTS]),
    - [modules/audio_capture.py]  (module [AudioCapture]),
    - [modules/pipeline.py]       (module [Pipeline]),
    - the language selection of [main.py] (module [MainUI]).

    Python [str] values are sequences of Unicode code points; they are
    modelled as lists of integers.  Python [int] is unbounded and is
    modelled by [Z].  Methods are computations over the object they
    belong to: they return or raise, change the object and emit events
    (callbacks made, calls into pygame, edge-tts, FunASR, the thread
    library).  What the outside answers is given by an [Env] record per
    module.  Only exceptions of class [Exception] are modelled, and
    sequential behaviour only: a worker thread is represented by the
    [running] flag of its service, by the events of its start and join
    and by a flag that tells whether it is still alive; whether a
    [join] with a timeout finds the thread ended is an answer of the
    environment.  One turn of the translation worker is module
    [TranslatorWork], the catalogue of voices of the speech module is
    module [Voices].  Float-valued statistics are left out.

    The modules are followed by the notions the statements use
    ([Notions], [MoreNotions]), by sample objects ([Samples],
    [MoreSamples]) and by the properties. *)

From Stdlib Require Import ZArith Lia String Ascii List Bool.
From stdpp Require Import gmap strings list sorting lexico orders.

(* ===================================================================== *)
(** * Python values *)
(* ===================================================================== *)

(** A Python string: the list of its code points. *)
Definition pystr : Type := list Z.

(** An ASCII literal as a Python string. *)
Definition lit (s : string) : pystr :=
  map (fun a => Z.of_N (N_of_ascii a)) (list_ascii_of_string s).

(** Exceptions of class [Exception] that the modelled code can meet. *)
Inductive exn : Type :=
| AttributeError
| ValueError
| KeyError
| NoAudioReceived
| RuntimeError (code : nat).

(** The result of running a piece of Python: a value or a raised
    exception. *)
Inductive outcome (A : Type) : Type :=
| Ok (a : A)
| Raised (e : exn).
Arguments Ok {A} a.
Arguments Raised {A} e.

Definition is_ok {A} (o : outcome A) : bool :=
  match o with Ok _ => true | Raised _ => false end.

Module Py.
Local Open Scope Z_scope.

(** [len(s)] *)
Definition len (s : pystr) : Z := Z.of_nat (length s).

(** The characters [str.strip()] removes: those for which
    [str.isspace()] holds. *)
Definition is_space (c : Z) : bool :=
  ((9 <=? c) && (c <=? 13)) || ((28 <=? c) && (c <=? 32))
  || (c =? 133) || (c =? 160) || (c =? 5760)
  || ((8192 <=? c) && (c <=? 8202))
  || (c =? 8232) || (c =? 8233) || (c =? 8239) || (c =? 8287)
  || (c =? 12288).

Fixpoint lstrip (s : pystr) : pystr :=
  match s with
  | c :: s' => if is_space c then lstrip s' else s
  | [] => []
  end.

Definition rstrip (s : pystr) : pystr := rev (lstrip (rev s)).

(** [s.strip()] *)
Definition strip (s : pystr) : pystr := rstrip (lstrip s).

(** Truth value of a string: non-empty. *)
Definition truthy (s : pystr) : bool :=
  match s with [] => false | _ :: _ => true end.

(** [not s.strip()] is the blank test used throughout the code. *)
Definition blank (s : pystr) : bool := negb (truthy (strip s)).

(** Normalisation of a slice bound against a length, as CPython does
    for [s[i:]] and for the [start]/[end] arguments of [rfind]. *)
Definition norm_index (i n : Z) : Z :=
  if i <? 0 then Z.max 0 (i + n) else Z.min i n.

(** [s[i:]] *)
Definition slice_from (s : pystr) (i : Z) : pystr :=
  drop (Z.to_nat (norm_index i (len s))) s.

(** [s[:i]] *)
Definition slice_to (s : pystr) (i : Z) : pystr :=
  take (Z.to_nat (norm_index i (len s))) s.

(** Scan of [rfind]: [i] is the index of the head of [s], [acc] the
    last match seen so far. *)
Fixpoint rfind_scan (c : Z) (s : pystr) (i lo hi acc : Z) : Z :=
  match s with
  | [] => acc
  | x :: s' =>
      rfind_scan c s' (i + 1) lo hi
        (if (x =? c) && (lo <=? i) && (i <? hi) then i else acc)
  end.

(** [s.rfind(c, start, stop)] for a one-character needle: the highest
    index in the normalised window holding [c], or [-1]. *)
Definition rfind (c : Z) (s : pystr) (start stop : Z) : Z :=
  rfind_scan c s 0 (norm_index start (len s)) (norm_index stop (len s)) (-1).

(** [s.split(sep)] for a one-character separator; [cur] is the piece
    being read, in reverse. *)
Fixpoint split_scan (sep : Z) (s : pystr) (cur : pystr) : list pystr :=
  match s with
  | [] => [rev cur]
  | x :: s' =>
      if x =? sep then rev cur :: split_scan sep s' []
      else split_scan sep s' (x :: cur)
  end.

Definition split (sep : Z) (s : pystr) : list pystr := split_scan sep s [].

(** The character class [[.!?。！？]] of the two regular expressions in
    the translator. *)
Definition sentence_mark (c : Z) : bool :=
  (c =? 46) || (c =? 33) || (c =? 63)
  || (c =? 12290) || (c =? 65281) || (c =? 65311).

(** [re.search(r'[.!?。！？]', s)] as a truth value. *)
Definition search_mark (s : pystr) : bool := existsb sentence_mark s.

(** [re.search(r'[.!?。！？]$', s)] as a truth value: [$] matches at the
    end of the string and just before a final newline. *)
Definition search_mark_at_end (s : pystr) : bool :=
  match rev s with
  | [] => false
  | c :: r =>
      sentence_mark c
      || ((c =? 10) && match r with c' :: _ => sentence_mark c' | [] => false end)
  end.

(** Order of [sorted] on strings: lexicographic on code points. *)
Definition str_le (x y : pystr) : Prop := lexico x y ∨ x = y.

#[global] Instance str_le_dec x y : Decision (str_le x y).
Proof. unfold str_le. apply _. Defined.

(** [sorted(list(s))] for a set of strings. *)
Definition sorted_set (s : gset pystr) : list pystr :=
  merge_sort str_le (elements s).
End Py.

(* ===================================================================== *)
(** * Effects: state, emitted events and exceptions *)
(* ===================================================================== *)

(** A computation over a mutable object of type [S]: it returns a value or
    raises, leaves the object in a new state (mutations made before a
    raise persist, as in Python) and emits events of type [E]. *)
Definition M (E S A : Type) : Type := S → outcome A * S * list E.

Definition ret {E S A} (a : A) : M E S A := λ s, (Ok a, s, []).

Definition bind {E S A B} (m : M E S A) (k : A → M E S B) : M E S B :=
  λ s, match m s with
       | (Ok a, s1, t1) => let '(r, s2, t2) := k a s1 in (r, s2, t1 ++ t2)
       | (Raised e, s1, t1) => (Raised e, s1, t1)
       end.

Definition raise {E S A} (e : exn) : M E S A := λ s, (Raised e, s, []).

(** [try: m  except Exception as e: h e] *)
Definition try_except {E S A} (m : M E S A) (h : exn → M E S A) : M E S A :=
  λ s, match m s with
       | (Ok a, s1, t1) => (Ok a, s1, t1)
       | (Raised e, s1, t1) => let '(r, s2, t2) := h e s1 in (r, s2, t1 ++ t2)
       end.

Definition gets {E S A} (f : S → A) : M E S A := λ s, (Ok (f s), s, []).
Definition modify {E S} (f : S → S) : M E S unit := λ s, (Ok tt, f s, []).
Definition emit {E S} (e : E) : M E S unit := λ s, (Ok tt, s, [e]).

(** The result of an external call: an event is emitted and the call's
    outcome is passed on. *)
Definition extern {E S A} (e : E) (o : outcome A) : M E S A :=
  λ s, (o, s, [e]).

Definition when {E S} (b : bool) (m : M E S unit) : M E S unit :=
  if b then m else ret tt.

Declare Scope eff_scope.
Delimit Scope eff_scope with eff.
Notation "x <- m ;; k" := (bind m (λ x, k))
  (at level 100, m at next level, k at level 200, right associativity)
  : eff_scope.
Notation "m ;; k" := (bind m (λ _, k))
  (at level 100, k at level 200, right associativity) : eff_scope.
Open Scope eff_scope.

Definition result {E S A} (r : outcome A * S * list E) : outcome A := r.1.1.
Definition final {E S A} (r : outcome A * S * list E) : S := r.1.2.
Definition events {E S A} (r : outcome A * S * list E) : list E := r.2.

(** A triple: from a state in [P] the computation ends — with a value or
    with an exception — in a state that [Q] relates to the outcome. *)
Definition hoare {E S A} (P : S → Prop) (m : M E S A)
    (Q : outcome A → S → Prop) : Prop :=
  ∀ s, P s → Q (result (m s)) (final (m s)).

(** The computation keeps [P], whatever it returns or raises. *)
Definition preserves {E S A} (P : S → Prop) (m : M E S A) : Prop :=
  hoare P m (λ _, P).

(** The computation keeps [P] and ends without an exception. *)
Definition succeeds {E S A} (P : S → Prop) (m : M E S A) : Prop :=
  hoare P m (λ r s, is_ok r = true ∧ P s).

(** A triple that also follows an observer of the events: [b] is what the
    observer has made of the events so far, [step] how one more event
    changes that. *)
Definition observed {E S A B} (step : B → E → B) (P : S → B → Prop)
    (m : M E S A) (Q : outcome A → S → B → Prop) : Prop :=
  ∀ s b, P s b →
         Q (result (m s)) (final (m s)) (fold_left step (events (m s)) b).

(* ===================================================================== *)
(** * config/settings.py *)
(* ===================================================================== *)

Module Settings.
Local Open Scope Z_scope.

(** [AudioConfig]; the float [max_segment_duration_seconds] is kept in
    milliseconds. *)
Record AudioConfig : Type := {
  sample_rate : Z;
  channels : Z;
  chunk_duration_ms : Z;
  vad_chunk_duration_ms : Z;
  max_segment_duration_ms : Z;
  use_vad : bool;
  use_punctuation : bool
}.

Record TranslationConfig : Type := {
  source_language : pystr;
  target_language : pystr;
  model_name : pystr;
  max_length : Z;
  num_beams : Z;
  early_stopping : bool;
  chunk_size : Z
}.

Record TTSConfig : Type := {
  voice : pystr;
  rate : pystr;
  pitch : pystr;
  volume : pystr
}.

Record ModelConfig : Type := {
  models_dir : pystr;
  asr_model : pystr;
  vad_model : pystr;
  punc_model : pystr;
  translation_models : gmap pystr pystr
}.

Record SystemConfig : Type := {
  audio : AudioConfig;
  translation : TranslationConfig;
  tts : TTSConfig;
  model : ModelConfig;
  tts_voices : gmap pystr pystr
}.

Definition default_audio : AudioConfig :=
  {| sample_rate := 16000; channels := 1; chunk_duration_ms := 600;
     vad_chunk_duration_ms := 200; max_segment_duration_ms := 7000;
     use_vad := true; use_punctuation := true |}.

Definition default_translation : TranslationConfig :=
  {| source_language := lit "zh"; target_language := lit "en";
     model_name := lit "Helsinki-NLP/opus-mt-zh-en";
     max_length := 512; num_beams := 4; early_stopping := true;
     chunk_size := 128 |}.

Definition default_tts : TTSConfig :=
  {| voice := lit "en-US-AriaNeural"; rate := lit "+0%";
     pitch := lit "+0Hz"; volume := lit "+0%" |}.

(** The table [ModelConfig.__post_init__] installs. *)
Definition default_translation_models : gmap pystr pystr :=
  list_to_map
    [ (lit "zh-en", lit "Helsinki-NLP/opus-mt-zh-en");
      (lit "en-zh", lit "Helsinki-NLP/opus-mt-en-zh");
      (lit "zh-ja", lit "Helsinki-NLP/opus-mt-zh-ja");
      (lit "ja-zh", lit "Helsinki-NLP/opus-mt-ja-zh");
      (lit "en-ja", lit "Helsinki-NLP/opus-mt-en-ja");
      (lit "ja-en", lit "Helsinki-NLP/opus-mt-ja-en");
      (lit "zh-ko", lit "Helsinki-NLP/opus-mt-zh-ko");
      (lit "ko-zh", lit "Helsinki-NLP/opus-mt-ko-zh") ].

Definition default_model : ModelConfig :=
  {| models_dir := lit "./models/cached_models";
     asr_model := lit "paraformer-zh-streaming";
     vad_model := lit "fsmn-vad";
     punc_model := lit "ct-punc";
     translation_models := default_translation_models |}.

Definition default_tts_voices : gmap pystr pystr :=
  list_to_map
    [ (lit "en", lit "en-US-AriaNeural");
      (lit "zh", lit "zh-CN-XiaoxiaoNeural");
      (lit "ja", lit "ja-JP-NanamiNeural");
      (lit "ko", lit "ko-KR-SunHiNeural");
      (lit "fr", lit "fr-FR-DeniseNeural");
      (lit "de", lit "de-DE-KatjaNeural");
      (lit "es", lit "es-ES-ElviraNeural");
      (lit "ru", lit "ru-RU-SvetlanaNeural") ].

(** [SystemConfig.__init__] *)
Definition init : SystemConfig :=
  {| audio := default_audio; translation := default_translation;
     tts := default_tts; model := default_model;
     tts_voices := default_tts_voices |}.

(** The f-string [f"{source_lang}-{target_lang}"]. *)
Definition lang_pair (source_lang target_lang : pystr) : pystr :=
  source_lang ++ lit "-" ++ target_lang.

(** The f-string [f"Helsinki-NLP/opus-mt-{source_lang}-{target_lang}"]. *)
Definition templated_model (source_lang target_lang : pystr) : pystr :=
  lit "Helsinki-NLP/opus-mt-" ++ source_lang ++ lit "-" ++ target_lang.

Definition get_translation_model (cfg : SystemConfig)
    (source_lang target_lang : pystr) : pystr :=
  default (templated_model source_lang target_lang)
          (translation_models (model cfg) !! lang_pair source_lang target_lang).

Definition get_tts_voice (cfg : SystemConfig) (language : pystr) : pystr :=
  default (lit "en-US-AriaNeural") (tts_voices cfg !! language).

Definition set_translation (cfg : SystemConfig) (t : TranslationConfig)
  : SystemConfig :=
  {| audio := audio cfg; translation := t; tts := tts cfg; model := model cfg;
     tts_voices := tts_voices cfg |}.

Definition set_tts (cfg : SystemConfig) (t : TTSConfig) : SystemConfig :=
  {| audio := audio cfg; translation := translation cfg; tts := t;
     model := model cfg; tts_voices := tts_voices cfg |}.

Definition update_language_pair (cfg : SystemConfig)
    (source_lang target_lang : pystr) : SystemConfig :=
  let t := translation cfg in
  let cfg1 :=
    set_translation cfg
      {| source_language := source_lang;
         target_language := target_lang;
         model_name := get_translation_model cfg source_lang target_lang;
         max_length := max_length t; num_beams := num_beams t;
         early_stopping := early_stopping t; chunk_size := chunk_size t |} in
  let v := tts cfg1 in
  set_tts cfg1
    {| voice := get_tts_voice cfg1 target_lang;
       rate := rate v; pitch := pitch v; volume := volume v |}.

(** One turn of the loop of [get_supported_languages]:
    [source, target = lang_pair.split("-")] raises [ValueError] unless
    the key has exactly two pieces. *)
Definition add_pair (key : pystr) (languages : gset pystr)
  : outcome (gset pystr) :=
  match Py.split 45 key with
  | [source; target] => Ok (languages ∪ {[source]} ∪ {[target]})
  | _ => Raised ValueError
  end.

Fixpoint add_pairs (keys : list pystr) (languages : gset pystr)
  : outcome (gset pystr) :=
  match keys with
  | [] => Ok languages
  | key :: keys' =>
      match add_pair key languages with
      | Ok languages' => add_pairs keys' languages'
      | Raised e => Raised e
      end
  end.

(** The keys are visited in the dictionary's order; the result is a
    sorted set, and every failure is the same [ValueError], so the order
    does not show. *)
Definition get_supported_languages (cfg : SystemConfig)
  : outcome (list pystr) :=
  match add_pairs (map fst (map_to_list (translation_models (model cfg)))) ∅ with
  | Ok languages => Ok (Py.sorted_set languages)
  | Raised e => Raised e
  end.
End Settings.

(* ===================================================================== *)
(** * modules/translator.py *)
(* ===================================================================== *)

Module Translator.
Local Open Scope Z_scope.

(** ** [SimulTransStrategy] *)

Record SimulTransStrategy : Type := {
  chunk_size : Z;
  overlap : Z;
  previous_context : pystr;
  translated_cache : gmap pystr pystr
}.

(** [SimulTransStrategy.__init__] *)
Definition new_strategy (chunk_size overlap : Z) : SimulTransStrategy :=
  {| chunk_size := chunk_size; overlap := overlap;
     previous_context := []; translated_cache := ∅ |}.

Definition set_context (st : SimulTransStrategy) (ctx : pystr)
  : SimulTransStrategy :=
  {| chunk_size := chunk_size st; overlap := overlap st;
     previous_context := ctx; translated_cache := translated_cache st |}.

Definition should_translate (st : SimulTransStrategy) (text : pystr)
    (is_final : bool) : bool :=
  if is_final then true
  else if chunk_size st <=? Py.len text then true
  else if Py.search_mark text then true
  else false.

(** The cut of an over-long text: [cutoff_point] starts at [chunk_size]
    and is replaced by the position [rfind] returns when that position
    is above [cutoff_point - 20]. *)
Definition cutoff_point (st : SimulTransStrategy) (text : pystr) : Z :=
  let cutoff := chunk_size st in
  let space_pos := Py.rfind 32 text 0 cutoff in
  if cutoff - 20 <? space_pos then space_pos else cutoff.

(** The returned value is [None] or the text to translate; the second
    component is the strategy after the call. *)
Definition prepare_text_for_translation (st : SimulTransStrategy)
    (new_text : pystr) (is_final : bool)
  : option pystr * SimulTransStrategy :=
  if negb (should_translate st new_text is_final) then (None, st)
  else if is_final || Py.search_mark_at_end (Py.strip new_text) then
    (Some new_text, set_context st [])
  else
    let text_to_translate := previous_context st ++ new_text in
    let text_to_translate :=
      if chunk_size st + overlap st <? Py.len text_to_translate
      then Py.slice_from text_to_translate (cutoff_point st text_to_translate)
      else text_to_translate in
    let ctx :=
      if overlap st <? Py.len text_to_translate
      then Py.slice_from text_to_translate (- overlap st)
      else text_to_translate in
    (Some text_to_translate, set_context st ctx).

Definition reset (st : SimulTransStrategy) : SimulTransStrategy :=
  {| chunk_size := chunk_size st; overlap := overlap st;
     previous_context := []; translated_cache := ∅ |}.

(** ** [TranslationModule]: the service's life cycle *)

(** The error texts the module reports. *)
Inductive msg : Type :=
| ModelNotInitialised
| InitFailed (e : exn)
| StartFailed (e : exn)
| QueueFull.

(** What the module does to the outside. *)
Inductive event : Type :=
| ErrorCallback (m : msg)
| TranslationCallback (text : pystr) (is_final : bool)
| ThreadStart
| ThreadJoin.

Record TranslationModule : Type := {
  translation_callback : option (pystr → bool → outcome unit);
  error_callback : option (msg → outcome unit);
  model_loaded : bool;            (* [self.model is not None] *)
  running : bool;
  simul_strategy : SimulTransStrategy;
  translation_queue : list (option (pystr * bool));  (* [None]: stop signal *)
  thread_alive : bool;
  last_translated_text : pystr;
  translation_cache : gmap pystr pystr
}.

(** [TranslationModule.__init__], with the strategy built from the
    configured chunk size and an overlap of 32. *)
Definition new (cfg : Settings.SystemConfig)
    (translation_callback : option (pystr → bool → outcome unit))
    (error_callback : option (msg → outcome unit)) : TranslationModule :=
  {| translation_callback := translation_callback;
     error_callback := error_callback;
     model_loaded := false; running := false;
     simul_strategy :=
       new_strategy (Settings.chunk_size (Settings.translation cfg)) 32;
     translation_queue := []; thread_alive := false;
     last_translated_text := []; translation_cache := ∅ |}.

Definition with_running (b : bool) (t : TranslationModule) : TranslationModule :=
  {| translation_callback := translation_callback t;
     error_callback := error_callback t; model_loaded := model_loaded t;
     running := b; simul_strategy := simul_strategy t;
     translation_queue := translation_queue t; thread_alive := thread_alive t;
     last_translated_text := last_translated_text t;
     translation_cache := translation_cache t |}.

Definition with_queue (q : list (option (pystr * bool))) (t : TranslationModule)
  : TranslationModule :=
  {| translation_callback := translation_callback t;
     error_callback := error_callback t; model_loaded := model_loaded t;
     running := running t; simul_strategy := simul_strategy t;
     translation_queue := q; thread_alive := thread_alive t;
     last_translated_text := last_translated_text t;
     translation_cache := translation_cache t |}.

Definition with_thread (b : bool) (t : TranslationModule) : TranslationModule :=
  {| translation_callback := translation_callback t;
     error_callback := error_callback t; model_loaded := model_loaded t;
     running := running t; simul_strategy := simul_strategy t;
     translation_queue := translation_queue t; thread_alive := b;
     last_translated_text := last_translated_text t;
     translation_cache := translation_cache t |}.

Definition with_model_loaded (b : bool) (t : TranslationModule) : TranslationModule :=
  {| translation_callback := translation_callback t;
     error_callback := error_callback t; model_loaded := b;
     running := running t; simul_strategy := simul_strategy t;
     translation_queue := translation_queue t; thread_alive := thread_alive t;
     last_translated_text := last_translated_text t;
     translation_cache := translation_cache t |}.

(** The strategy is reset and the last translated text cleared. *)
Definition reset_state (t : TranslationModule) : TranslationModule :=
  {| translation_callback := translation_callback t;
     error_callback := error_callback t;
     model_loaded := model_loaded t; running := running t;
     simul_strategy := reset (simul_strategy t);
     translation_queue := translation_queue t;
     thread_alive := thread_alive t;
     last_translated_text := [];
     translation_cache := translation_cache t |}.

Definition report_error (m : msg) : M event TranslationModule unit :=
  cb <- gets error_callback ;;
  match cb with
  | Some f => extern (ErrorCallback m) (f m)
  | None => ret tt
  end.

(** [initialize_model]; [loads] tells whether the model manager
    delivers the model and its tokenizer. *)
Definition initialize_model (loads : bool) : M event TranslationModule bool :=
  try_except
    (have <- gets model_loaded ;;
     if have then ret true
     else if loads then modify (with_model_loaded true) ;; ret true
     else raise (RuntimeError 0))
    (λ e, report_error (InitFailed e) ;; ret false).

Section Service.
(** Whether [threading.Thread.start] succeeds is decided outside. *)
Variable thread_start : outcome unit.

Definition start_translation_service : M event TranslationModule bool :=
  r <- gets running ;;
  if r then ret true
  else
    loaded <- gets model_loaded ;;
    if negb loaded then report_error ModelNotInitialised;; ret false
    else
      try_except
        (modify (with_queue []);;
         modify reset_state;;
         modify (with_running true);;
         extern ThreadStart thread_start;;
         modify (with_thread true);;
         ret true)
        (λ e, report_error (StartFailed e);; ret false).
End Service.

(** [thread_joins] tells whether the worker ends within the timeout of
    [join(timeout=2)]; when it does not, the thread is still alive when
    [stop_translation_service] returns. *)
Definition stop_translation_service (thread_joins : bool)
  : M event TranslationModule unit :=
  modify (with_running false);;
  q <- gets translation_queue ;;
  modify (with_queue (q ++ [None]));;
  alive <- gets thread_alive ;;
  when alive (emit ThreadJoin;; modify (with_thread (negb thread_joins)));;
  modify reset_state.

(** The queue is unbounded, so [put] never raises [queue.Full]. *)
Definition add_translation_task (text : pystr) (is_final : bool)
  : M event TranslationModule unit :=
  r <- gets running ;;
  when (r && negb (Py.blank text))
    (q <- gets translation_queue ;;
     modify (with_queue (q ++ [Some (text, is_final)]))).
End Translator.

(* ===================================================================== *)
(** * main.py: the language choice of [initialize_system] *)
(* ===================================================================== *)

Module MainUI.
(** [if source_lang == target_lang: source_lang, target_lang = "zh", "en"] *)
Definition choose_pair (source_lang target_lang : pystr) : pystr * pystr :=
  if decide (source_lang = target_lang) then (lit "zh", lit "en")
  else (source_lang, target_lang).

(** The configuration [initialize_system] leaves: the chosen pair is
    handed to [pipeline.initialize], which starts by calling
    [config.update_language_pair] with it. *)
Definition initialize_system_config (cfg : Settings.SystemConfig)
    (source_lang target_lang : pystr) : Settings.SystemConfig :=
  let '(s, t) := choose_pair source_lang target_lang in
  Settings.update_language_pair cfg s t.
End MainUI.

(* ===================================================================== *)
(** * models/model_manager.py *)
(* ===================================================================== *)

Module ModelManager.
Local Open Scope Z_scope.

(** Loaded objects are opaque handles.  [_model_cache] holds FunASR
    models and translation models side by side. *)
Inductive model_obj : Type :=
| FunasrModel (h : nat)
| Seq2SeqModel (h : nat).

Definition tokenizer : Type := nat.

(** An entry of [model_status]; the [downloaded] key may be missing. *)
Record status_entry : Type := {
  downloaded : option bool;
  model_type : pystr
}.

(** Calls that leave the program. *)
Inductive call : Type :=
| AutoModel (name : pystr)
| TokenizerFromPretrained (source : pystr) (local_files_only : bool)
| ModelFromPretrained (source : pystr) (local_files_only : bool)
| SaveModelStatus
| ProgressCallback (name : pystr) (percent : Z)
| PreloadProgress (loaded total : Z).

Definition event : Type := call.

(** The outside world.  Every answer may depend on [clock], the number
    of external calls made so far, so that the same call can succeed
    once and fail later. *)
Record Env : Type := {
  auto_model : nat → pystr → outcome nat;
  tokenizer_from_pretrained : nat → pystr → bool → outcome tokenizer;
  model_from_pretrained : nat → pystr → bool → outcome nat;
  save_model_status : nat → outcome unit
}.

Definition callback : Type := nat → pystr → Z → outcome unit.

Record ModelManager : Type := {
  models_dir : pystr;
  model_cache : gmap pystr model_obj;
  tokenizer_cache : gmap pystr tokenizer;
  progress_callback : option callback;
  model_status : gmap pystr status_entry;
  clock : nat
}.

(** [ModelManager.__init__]; [dir] is [Path(models_dir)] as [str] prints
    it ("models/cached_models" for the default "./models/cached_models"),
    [status] is what [_load_model_status] read from the status file. *)
Definition new (dir : pystr) (status : gmap pystr status_entry) : ModelManager :=
  {| models_dir := dir; model_cache := ∅; tokenizer_cache := ∅;
     progress_callback := None; model_status := status; clock := 0 |}.

Definition with_model_cache (f : gmap pystr model_obj → gmap pystr model_obj)
    (m : ModelManager) : ModelManager :=
  {| models_dir := models_dir m; model_cache := f (model_cache m);
     tokenizer_cache := tokenizer_cache m;
     progress_callback := progress_callback m; model_status := model_status m;
     clock := clock m |}.

Definition with_tokenizer_cache (f : gmap pystr tokenizer → gmap pystr tokenizer)
    (m : ModelManager) : ModelManager :=
  {| models_dir := models_dir m; model_cache := model_cache m;
     tokenizer_cache := f (tokenizer_cache m);
     progress_callback := progress_callback m; model_status := model_status m;
     clock := clock m |}.

Definition with_status (f : gmap pystr status_entry → gmap pystr status_entry)
    (m : ModelManager) : ModelManager :=
  {| models_dir := models_dir m; model_cache := model_cache m;
     tokenizer_cache := tokenizer_cache m;
     progress_callback := progress_callback m;
     model_status := f (model_status m); clock := clock m |}.

Definition set_progress_callback (cb : callback) (m : ModelManager)
  : ModelManager :=
  {| models_dir := models_dir m; model_cache := model_cache m;
     tokenizer_cache := tokenizer_cache m; progress_callback := Some cb;
     model_status := model_status m; clock := clock m |}.

Definition tick (m : ModelManager) : ModelManager :=
  {| models_dir := models_dir m; model_cache := model_cache m;
     tokenizer_cache := tokenizer_cache m;
     progress_callback := progress_callback m;
     model_status := model_status m; clock := S (clock m) |}.

(** An external call: the clock advances and the world answers. *)
Definition external {A} (c : call) (answer : nat → outcome A)
  : M event ModelManager A :=
  n <- gets clock ;;
  modify tick ;;
  extern c (answer n).

Definition report_progress (name : pystr) (percent : Z)
  : M event ModelManager unit :=
  cb <- gets progress_callback ;;
  match cb with
  | Some f => external (ProgressCallback name percent) (λ n, f n name percent)
  | None => ret tt
  end.

(** The f-string [f"{model_type}:{model_name}"]. *)
Definition key (model_type model_name : pystr) : pystr :=
  model_type ++ lit ":" ++ model_name.

Definition is_model_downloaded (m : ModelManager) (model_name model_type : pystr)
  : bool :=
  match model_status m !! key model_type model_name with
  | Some e => default false (downloaded e)
  | None => false
  end.

(** [model_name.replace("/", "--")] *)
Definition replace_slash (name : pystr) : pystr :=
  flat_map (λ c, if c =? 47 then [45; 45] else [c]) name.

(** [str(Path(path) / segment)] for a segment without a slash, on POSIX
    paths: an empty segment and "." add nothing, and no slash is put
    before the segment when the path is "." or ends in one (a root). *)
Definition path_join (path segment : pystr) : pystr :=
  if bool_decide (segment = [] ∨ segment = lit ".") then path
  else if bool_decide (path = lit ".") then segment
  else if bool_decide (list.last path = Some 47) then path ++ segment
  else path ++ lit "/" ++ segment.

(** [self.models_dir / "transformers" / model_name.replace("/", "--")] *)
Definition local_model_dir (m : ModelManager) (model_name : pystr) : pystr :=
  path_join (path_join (models_dir m) (lit "transformers"))
    (replace_slash model_name).

Section WithEnv.
Variable env : Env.

Definition download_funasr_model (model_name : pystr)
  : M event ModelManager bool :=
  try_except
    (report_progress model_name 0 ;;
     _ <- external (AutoModel model_name) (λ n, auto_model env n model_name) ;;
     modify (with_status
               (<[key (lit "funasr") model_name :=
                    {| downloaded := Some true; model_type := lit "funasr" |}]>)) ;;
     external SaveModelStatus (save_model_status env) ;;
     report_progress model_name 100 ;;
     ret true)
    (λ _, ret false).

Definition download_translation_model (model_name : pystr)
  : M event ModelManager bool :=
  try_except
    (report_progress model_name 0 ;;
     report_progress model_name 30 ;;
     _ <- external (TokenizerFromPretrained model_name false)
            (λ n, tokenizer_from_pretrained env n model_name false) ;;
     report_progress model_name 70 ;;
     _ <- external (ModelFromPretrained model_name false)
            (λ n, model_from_pretrained env n model_name false) ;;
     modify (with_status
               (<[key (lit "transformers") model_name :=
                    {| downloaded := Some true;
                       model_type := lit "transformers" |}]>)) ;;
     external SaveModelStatus (save_model_status env) ;;
     report_progress model_name 100 ;;
     ret true)
    (λ _, ret false).

Definition load_funasr_model (model_name : pystr) (force_reload : bool)
  : M event ModelManager (option model_obj) :=
  let cache_key := key (lit "funasr") model_name in
  cache <- gets model_cache ;;
  match (if force_reload then None else cache !! cache_key) with
  | Some cached => ret (Some cached)
  | None =>
      try_except
        (have <- gets (λ m, is_model_downloaded m model_name (lit "funasr")) ;;
         (if have then ret tt
          else
            ok <- download_funasr_model model_name ;;
            if ok then ret tt else raise (RuntimeError 0)) ;;
         h <- external (AutoModel model_name) (λ n, auto_model env n model_name) ;;
         modify (with_model_cache (<[cache_key := FunasrModel h]>)) ;;
         ret (Some (FunasrModel h)))
        (λ _, ret None)
  end.

(** The pair [tokenizer, model] of the inner [try]: first from the
    local directory, then, if anything there raised, by name. *)
Definition load_pair (model_name : pystr) : M event ModelManager (tokenizer * nat) :=
  dir <- gets (λ m, local_model_dir m model_name) ;;
  try_except
    (t <- external (TokenizerFromPretrained dir true)
           (λ n, tokenizer_from_pretrained env n dir true) ;;
     h <- external (ModelFromPretrained dir true)
           (λ n, model_from_pretrained env n dir true) ;;
     ret (t, h))
    (λ _,
     t <- external (TokenizerFromPretrained model_name false)
           (λ n, tokenizer_from_pretrained env n model_name false) ;;
     h <- external (ModelFromPretrained model_name false)
           (λ n, model_from_pretrained env n model_name false) ;;
     ret (t, h)).

(** On a cache hit the tokenizer is read with
    [self._tokenizer_cache[tokenizer_key]], outside any [try]: a
    missing entry is a [KeyError] for the caller. *)
Definition load_translation_model (model_name : pystr) (force_reload : bool)
  : M event ModelManager (option model_obj * option tokenizer) :=
  let cache_key := key (lit "transformers") model_name in
  let tokenizer_key := key (lit "tokenizer") model_name in
  cache <- gets model_cache ;;
  match (if force_reload then None else cache !! cache_key) with
  | Some cached =>
      tcache <- gets tokenizer_cache ;;
      match tcache !! tokenizer_key with
      | Some t => ret (Some cached, Some t)
      | None => raise KeyError
      end
  | None =>
      try_except
        (have <- gets (λ m, is_model_downloaded m model_name (lit "transformers")) ;;
         (if have then ret tt
          else
            ok <- download_translation_model model_name ;;
            if ok then ret tt else raise (RuntimeError 0)) ;;
         p <- load_pair model_name ;;
         modify (with_model_cache (<[cache_key := Seq2SeqModel p.2]>)) ;;
         modify (with_tokenizer_cache (<[tokenizer_key := p.1]>)) ;;
         ret (Some (Seq2SeqModel p.2), Some p.1))
        (λ _, ret (None, None))
  end.

Definition is_funasr_type (model_type : pystr) : bool :=
  bool_decide (model_type ∈ [lit "asr"; lit "vad"; lit "punc"]).

(** The body of the loop of [preload_models]; [loaded_count] is
    threaded through.  The one [try] of the code covers the load and the
    progress callback; the count is raised between the two, so it keeps
    its old value when the load raises and its new value when the
    callback raises.  Here the callback has a handler of its own inside
    the handler of the load, to the same effect. *)
Definition preload_one (cb : option callback) (total : Z)
    (item : pystr * pystr) (loaded_count : Z) : M event ModelManager Z :=
  let '(model_type, model_name) := item in
  try_except
    ((if is_funasr_type model_type then
        _ <- load_funasr_model model_name false ;; ret tt
      else if bool_decide (model_type = lit "translation") then
        _ <- load_translation_model model_name false ;; ret tt
      else ret tt) ;;
     let loaded_count := loaded_count + 1 in
     match cb with
     | Some f =>
         try_except
           (external (PreloadProgress loaded_count total)
              (λ n, f n (lit "progress") (loaded_count * 100 / total)) ;;
            ret loaded_count)
           (λ _, ret loaded_count)
     | None => ret loaded_count
     end)
    (λ _, ret loaded_count).

Fixpoint preload_loop (cb : option callback) (total : Z)
    (items : list (pystr * pystr)) (loaded_count : Z)
  : M event ModelManager Z :=
  match items with
  | [] => ret loaded_count
  | item :: items' =>
      n <- preload_one cb total item loaded_count ;;
      preload_loop cb total items' n
  end.

Definition preload_models (models_config : list (pystr * pystr))
    (cb : option callback) : M event ModelManager unit :=
  match cb with
  | Some f => modify (set_progress_callback f)
  | None => ret tt
  end ;;
  _ <- preload_loop cb (Z.of_nat (length models_config)) models_config 0 ;;
  ret tt.

Definition clear_cache : M event ModelManager unit :=
  modify (with_model_cache (λ _, ∅)) ;;
  modify (with_tokenizer_cache (λ _, ∅)).

(** The operations a client can apply to the manager. *)
Inductive op : Type :=
| LoadTranslationModel (name : pystr) (force_reload : bool)
| LoadFunasrModel (name : pystr) (force_reload : bool)
| ClearCache
| PreloadModels (models_config : list (pystr * pystr)) (cb : option callback)
| SetProgressCallback (cb : callback).

Definition apply_op (o : op) (m : ModelManager) : ModelManager :=
  match o with
  | LoadTranslationModel name force => final (load_translation_model name force m)
  | LoadFunasrModel name force => final (load_funasr_model name force m)
  | ClearCache => final (clear_cache m)
  | PreloadModels cfg cb => final (preload_models cfg cb m)
  | SetProgressCallback cb => set_progress_callback cb m
  end.

(** The manager after a sequence of operations, whatever each of them
    returned or raised. *)
Definition apply_ops (ops : list op) (m : ModelManager) : ModelManager :=
  fold_left (λ m o, apply_op o m) ops m.
End WithEnv.
End ModelManager.

(* ===================================================================== *)
(** * modules/text_to_speech.py *)
(* ===================================================================== *)

Module TTS.
Local Open Scope Z_scope.

Definition bytes : Type := list Z.

Inductive priority : Type := Normal | High.

(** A queued task [(text, voice, priority)]. *)
Definition task : Type := pystr * option pystr * priority.

(** The error texts the module reports. *)
Inductive msg : Type :=
| MixerInitFailed (e : exn)
| NoAudioData (text : pystr)
| NoAudioReceivedFor (text : pystr)
| SynthesisError (e : exn)
| PlaybackError (e : exn)
| WorkerError (e : exn)
| StartFailed (e : exn)
| NotStarted
| ImmediateFailed (e : exn)
| LoadVoicesFailed (e : exn).

(** What the module does to the outside, in order. *)
Inductive event : Type :=
| PlaybackCallback (text : pystr) (is_playing : bool)
| ErrorCallback (m : msg)
| MixerInit
| MusicLoad (audio : bytes)
| MusicPlay
| MusicGetBusy
| Sleep
| MusicUnload
| MusicStop
| Synthesize (text voice : pystr)
| NewEventLoop
| LoopClose
| ThreadStart
| ThreadJoin.

(** The outside world during one operation: the pygame mixer, the
    edge-tts service and the thread library.  A playback that ends is
    one in which [get_busy] answers [True] finitely often
    ([busy_polls] times) and then answers [False] or raises
    ([busy_end]). *)
Record Env : Type := {
  mixer_init : outcome unit;
  music_load : bytes → outcome unit;
  music_play : outcome unit;
  busy_polls : nat;
  busy_end : outcome unit;
  music_unload : outcome unit;
  music_stop : outcome unit;
  synthesize : pystr → pystr → outcome bytes;
  thread_start : outcome unit;
  thread_joins : bool        (* does the worker end within [join(timeout=3)] *)
}.

Record TextToSpeechModule : Type := {
  playback_callback : option (pystr → bool → outcome unit);
  error_callback : option (msg → outcome unit);
  is_mixer_initialized : bool;
  current_voice : pystr;
  tts_queue : list (option task);     (* [None]: stop signal *)
  thread_alive : bool;
  running : bool;
  is_playing : bool;
  current_text : pystr;
  total_synthesis : Z
}.

(** [TextToSpeechModule.__init__] *)
Definition new (cfg : Settings.SystemConfig)
    (playback_callback : option (pystr → bool → outcome unit))
    (error_callback : option (msg → outcome unit)) : TextToSpeechModule :=
  {| playback_callback := playback_callback;
     error_callback := error_callback;
     is_mixer_initialized := false;
     current_voice := Settings.voice (Settings.tts cfg);
     tts_queue := []; thread_alive := false; running := false;
     is_playing := false; current_text := []; total_synthesis := 0 |}.

Definition set_mixer_initialized (x : bool) (t : TextToSpeechModule) : TextToSpeechModule :=
  {| playback_callback := playback_callback t;
     error_callback := error_callback t; is_mixer_initialized := x;
     current_voice := current_voice t; tts_queue := tts_queue t;
     thread_alive := thread_alive t; running := running t;
     is_playing := is_playing t; current_text := current_text t;
     total_synthesis := total_synthesis t |}.

Definition set_current_voice (x : pystr) (t : TextToSpeechModule) : TextToSpeechModule :=
  {| playback_callback := playback_callback t;
     error_callback := error_callback t;
     is_mixer_initialized := is_mixer_initialized t; current_voice := x;
     tts_queue := tts_queue t; thread_alive := thread_alive t;
     running := running t; is_playing := is_playing t;
     current_text := current_text t; total_synthesis := total_synthesis t |}.

Definition set_queue (x : list (option task)) (t : TextToSpeechModule) : TextToSpeechModule :=
  {| playback_callback := playback_callback t;
     error_callback := error_callback t;
     is_mixer_initialized := is_mixer_initialized t;
     current_voice := current_voice t; tts_queue := x;
     thread_alive := thread_alive t; running := running t;
     is_playing := is_playing t; current_text := current_text t;
     total_synthesis := total_synthesis t |}.

Definition set_thread_alive (x : bool) (t : TextToSpeechModule) : TextToSpeechModule :=
  {| playback_callback := playback_callback t;
     error_callback := error_callback t;
     is_mixer_initialized := is_mixer_initialized t;
     current_voice := current_voice t; tts_queue := tts_queue t;
     thread_alive := x; running := running t; is_playing := is_playing t;
     current_text := current_text t; total_synthesis := total_synthesis t |}.

Definition set_running (x : bool) (t : TextToSpeechModule) : TextToSpeechModule :=
  {| playback_callback := playback_callback t;
     error_callback := error_callback t;
     is_mixer_initialized := is_mixer_initialized t;
     current_voice := current_voice t; tts_queue := tts_queue t;
     thread_alive := thread_alive t; running := x; is_playing := is_playing t;
     current_text := current_text t; total_synthesis := total_synthesis t |}.

Definition set_playing (x : bool) (t : TextToSpeechModule) : TextToSpeechModule :=
  {| playback_callback := playback_callback t;
     error_callback := error_callback t;
     is_mixer_initialized := is_mixer_initialized t;
     current_voice := current_voice t; tts_queue := tts_queue t;
     thread_alive := thread_alive t; running := running t; is_playing := x;
     current_text := current_text t; total_synthesis := total_synthesis t |}.

Definition set_current_text (x : pystr) (t : TextToSpeechModule) : TextToSpeechModule :=
  {| playback_callback := playback_callback t;
     error_callback := error_callback t;
     is_mixer_initialized := is_mixer_initialized t;
     current_voice := current_voice t; tts_queue := tts_queue t;
     thread_alive := thread_alive t; running := running t;
     is_playing := is_playing t; current_text := x;
     total_synthesis := total_synthesis t |}.

Definition set_total_synthesis (x : Z) (t : TextToSpeechModule) : TextToSpeechModule :=
  {| playback_callback := playback_callback t;
     error_callback := error_callback t;
     is_mixer_initialized := is_mixer_initialized t;
     current_voice := current_voice t; tts_queue := tts_queue t;
     thread_alive := thread_alive t; running := running t;
     is_playing := is_playing t; current_text := current_text t;
     total_synthesis := x |}.

Definition report_error (m : msg) : M event TextToSpeechModule unit :=
  cb <- gets error_callback ;;
  match cb with
  | Some f => extern (ErrorCallback m) (f m)
  | None => ret tt
  end.

Definition report_playback_status (text : pystr) (playing : bool)
  : M event TextToSpeechModule unit :=
  cb <- gets playback_callback ;;
  match cb with
  | Some f => extern (PlaybackCallback text playing) (f text playing)
  | None => ret tt
  end.

Section WithEnv.
Variable env : Env.

Definition initialize_mixer : M event TextToSpeechModule bool :=
  init <- gets is_mixer_initialized ;;
  if init then ret true
  else
    try_except
      (extern MixerInit (mixer_init env) ;;
       modify (set_mixer_initialized true) ;;
       ret true)
      (λ e, report_error (MixerInitFailed e) ;; ret false).

(** [while mixer.music.get_busy(): await asyncio.sleep(0.1)] *)
Fixpoint wait_while_busy (polls : nat) : M event TextToSpeechModule unit :=
  match polls with
  | O => extern MusicGetBusy (busy_end env)
  | S n => emit MusicGetBusy ;; emit Sleep ;; wait_while_busy n
  end.

Definition play_audio_from_memory (audio_data : bytes) (text : pystr)
  : M event TextToSpeechModule unit :=
  ok <- initialize_mixer ;;
  if negb ok then ret tt
  else
    try_except
      (modify (set_playing true) ;;
       modify (set_current_text text) ;;
       report_playback_status text true ;;
       extern (MusicLoad audio_data) (music_load env audio_data) ;;
       extern MusicPlay (music_play env) ;;
       wait_while_busy (busy_polls env) ;;
       extern MusicUnload (music_unload env) ;;
       modify (set_playing false) ;;
       modify (set_current_text []) ;;
       report_playback_status text false)
      (λ e,
       report_error (PlaybackError e) ;;
       modify (set_playing false) ;;
       modify (set_current_text []) ;;
       report_playback_status text false).

(** [voice or self.current_voice]: an empty voice counts as absent. *)
Definition voice_to_use (voice : option pystr) (t : TextToSpeechModule) : pystr :=
  match voice with
  | Some v => if Py.truthy v then v else current_voice t
  | None => current_voice t
  end.

Definition synthesize_speech (text : pystr) (voice : option pystr)
  : M event TextToSpeechModule (option bytes) :=
  if Py.blank text then ret None
  else
    try_except
      (v <- gets (voice_to_use voice) ;;
       audio_data <- extern (Synthesize text v) (synthesize env text v) ;;
       match audio_data with
       | [] => report_error (NoAudioData text) ;; ret None
       | _ :: _ =>
           n <- gets total_synthesis ;;
           modify (set_total_synthesis (n + 1)) ;;
           ret (Some audio_data)
       end)
      (λ e,
       match e with
       | NoAudioReceived => report_error (NoAudioReceivedFor text) ;; ret None
       | _ => report_error (SynthesisError e) ;; ret None
       end).

(** The bare [except: pass] swallows whatever the body raises. *)
Definition stop_current_playback : M event TextToSpeechModule unit :=
  playing <- gets is_playing ;;
  when playing
    (try_except
       (extern MusicStop (music_stop env) ;;
        modify (set_playing false) ;;
        text <- gets current_text ;;
        when (Py.truthy text) (report_playback_status text false) ;;
        modify (set_current_text []))
       (λ _, ret tt)).

(** [text] is [None] when the caller passes no string. *)
Definition speak_immediate (text : option pystr) (voice : option pystr)
  : M event TextToSpeechModule bool :=
  match text with
  | None => raise AttributeError          (* [None.strip()] *)
  | Some text =>
      if Py.blank text then ret false
      else
        try_except
          (stop_current_playback ;;
           emit NewEventLoop ;;
           r <- try_except
                  (audio_data <- synthesize_speech text voice ;;
                   match audio_data with
                   | Some ((_ :: _) as audio) =>
                       play_audio_from_memory audio text ;; ret true
                   | _ => ret false
                   end)
                  (λ e, emit LoopClose ;; raise e) ;;
           emit LoopClose ;;
           ret r)
          (λ e, report_error (ImmediateFailed e) ;; ret false)
  end.

Definition start_tts_service : M event TextToSpeechModule bool :=
  r <- gets running ;;
  if r then ret true
  else
    try_except
      (ok <- initialize_mixer ;;
       if negb ok then ret false
       else
         modify (set_queue []) ;;
         modify (set_playing false) ;;
         modify (set_current_text []) ;;
         modify (set_running true) ;;
         extern ThreadStart (thread_start env) ;;
         modify (set_thread_alive true) ;;
         ret true)
      (λ e, report_error (StartFailed e) ;; ret false).

Definition stop_tts_service : M event TextToSpeechModule unit :=
  modify (set_running false) ;;
  stop_current_playback ;;
  q <- gets tts_queue ;;
  modify (set_queue (q ++ [None])) ;;
  alive <- gets thread_alive ;;
  when alive
    (emit ThreadJoin ;; modify (set_thread_alive (negb (thread_joins env)))) ;;
  modify (set_playing false) ;;
  modify (set_current_text []).

(** The queue is unbounded, so [put] never raises [queue.Full]. *)
Definition speak (text : pystr) (voice : option pystr) (p : priority)
  : M event TextToSpeechModule unit :=
  r <- gets running ;;
  if negb r then report_error NotStarted
  else if Py.blank text then ret tt
  else
    q <- gets tts_queue ;;
    modify (set_queue (q ++ [Some (text, voice, p)])).

(** One turn of [tts_worker] on a task taken from the queue. *)
Definition worker_task (tk : task) : M event TextToSpeechModule unit :=
  let '(text, voice, p) := tk in
  try_except
    (playing <- gets is_playing ;;
     when (match p with High => playing | Normal => false end)
       stop_current_playback ;;
     audio_data <- synthesize_speech text voice ;;
     match audio_data with
     | Some ((_ :: _) as audio) => play_audio_from_memory audio text
     | _ => ret tt
     end)
    (λ e, report_error (WorkerError e)).
End WithEnv.
End TTS.

(* ===================================================================== *)
(** * modules/audio_capture.py *)
(* ===================================================================== *)

Module AudioCapture.
Local Open Scope Z_scope.

(** A streaming cache of a FunASR model: a dictionary the model fills. *)
Definition cache : Type := gmap pystr Z.

Inductive msg : Type :=
| InitFailed (e : exn)
| AsrError (e : exn)
| StartFailed (e : exn).

Inductive event : Type :=
| TextCallback (text : pystr) (is_final : bool)
| ErrorCallback (m : msg)
| AsrGenerate (chunk : list Z) (is_final : bool)
| PuncGenerate (input : pystr)
| ThreadStart
| ThreadJoin
| StreamOpen
| StreamStart
| StreamStop
| StreamClose.

(** The models and the sound device.  [asr_generate] receives the
    cache object and may write to it, also when it raises; a result is
    the list of the [text] entries of the returned items. *)
Record Env : Type := {
  asr_loads : bool;          (* does the model manager deliver the model *)
  vad_loads : bool;
  punc_loads : bool;
  asr_generate : list Z → cache → bool → outcome (list pystr) * cache;
  punc_generate : pystr → outcome (list pystr);
  thread_start : outcome unit;
  thread_joins : bool;       (* does the worker end within [join(timeout=2)] *)
  stream_create : outcome unit;
  stream_start : outcome unit;
  stream_stopped : bool;     (* [self.stream.stopped] *)
  stream_stop : outcome unit;
  stream_close : outcome unit
}.

(** The fields of the module the modelled methods read or write; the
    two configuration flags live in the shared [AudioConfig]. *)
Record AudioCaptureModule : Type := {
  text_callback : option (pystr → bool → outcome unit);
  error_callback : option (msg → outcome unit);
  use_vad : bool;
  use_punctuation : bool;
  asr_chunk_samples : Z;
  running : bool;
  is_speaking : bool;
  speech_buffer : list Z;
  current_sentence : pystr;
  complete_transcript : pystr;
  asr_model_loaded : bool;
  vad_model_loaded : bool;
  punc_model_loaded : bool;
  vad_cache : cache;
  asr_cache : cache;
  stream_open : bool;
  thread_alive : bool
}.

(** [AudioCaptureModule.__init__].  [int(a * b / 1000)] divides as
    floats and cuts the fraction off, which is the quotient rounded
    towards zero (for products below 2^53). *)
Definition new (cfg : Settings.SystemConfig)
    (text_callback : option (pystr → bool → outcome unit))
    (error_callback : option (msg → outcome unit)) : AudioCaptureModule :=
  {| text_callback := text_callback; error_callback := error_callback;
     use_vad := Settings.use_vad (Settings.audio cfg);
     use_punctuation := Settings.use_punctuation (Settings.audio cfg);
     asr_chunk_samples :=
       Z.quot (Settings.sample_rate (Settings.audio cfg)
               * Settings.chunk_duration_ms (Settings.audio cfg)) 1000;
     running := false; is_speaking := false; speech_buffer := [];
     current_sentence := []; complete_transcript := [];
     asr_model_loaded := false; vad_model_loaded := false;
     punc_model_loaded := false; vad_cache := ∅; asr_cache := ∅;
     stream_open := false; thread_alive := false |}.

Definition set_running (x : bool) (a : AudioCaptureModule) : AudioCaptureModule :=
  {| text_callback := text_callback a; error_callback := error_callback a;
     use_vad := use_vad a; use_punctuation := use_punctuation a;
     asr_chunk_samples := asr_chunk_samples a; running := x;
     is_speaking := is_speaking a; speech_buffer := speech_buffer a;
     current_sentence := current_sentence a;
     complete_transcript := complete_transcript a;
     asr_model_loaded := asr_model_loaded a;
     vad_model_loaded := vad_model_loaded a;
     punc_model_loaded := punc_model_loaded a; vad_cache := vad_cache a;
     asr_cache := asr_cache a; stream_open := stream_open a;
     thread_alive := thread_alive a |}.

Definition set_is_speaking (x : bool) (a : AudioCaptureModule) : AudioCaptureModule :=
  {| text_callback := text_callback a; error_callback := error_callback a;
     use_vad := use_vad a; use_punctuation := use_punctuation a;
     asr_chunk_samples := asr_chunk_samples a; running := running a;
     is_speaking := x; speech_buffer := speech_buffer a;
     current_sentence := current_sentence a;
     complete_transcript := complete_transcript a;
     asr_model_loaded := asr_model_loaded a;
     vad_model_loaded := vad_model_loaded a;
     punc_model_loaded := punc_model_loaded a; vad_cache := vad_cache a;
     asr_cache := asr_cache a; stream_open := stream_open a;
     thread_alive := thread_alive a |}.

Definition set_speech_buffer (x : list Z) (a : AudioCaptureModule) : AudioCaptureModule :=
  {| text_callback := text_callback a; error_callback := error_callback a;
     use_vad := use_vad a; use_punctuation := use_punctuation a;
     asr_chunk_samples := asr_chunk_samples a; running := running a;
     is_speaking := is_speaking a; speech_buffer := x;
     current_sentence := current_sentence a;
     complete_transcript := complete_transcript a;
     asr_model_loaded := asr_model_loaded a;
     vad_model_loaded := vad_model_loaded a;
     punc_model_loaded := punc_model_loaded a; vad_cache := vad_cache a;
     asr_cache := asr_cache a; stream_open := stream_open a;
     thread_alive := thread_alive a |}.

Definition set_current_sentence (x : pystr) (a : AudioCaptureModule) : AudioCaptureModule :=
  {| text_callback := text_callback a; error_callback := error_callback a;
     use_vad := use_vad a; use_punctuation := use_punctuation a;
     asr_chunk_samples := asr_chunk_samples a; running := running a;
     is_speaking := is_speaking a; speech_buffer := speech_buffer a;
     current_sentence := x; complete_transcript := complete_transcript a;
     asr_model_loaded := asr_model_loaded a;
     vad_model_loaded := vad_model_loaded a;
     punc_model_loaded := punc_model_loaded a; vad_cache := vad_cache a;
     asr_cache := asr_cache a; stream_open := stream_open a;
     thread_alive := thread_alive a |}.

Definition set_complete_transcript (x : pystr) (a : AudioCaptureModule) : AudioCaptureModule :=
  {| text_callback := text_callback a; error_callback := error_callback a;
     use_vad := use_vad a; use_punctuation := use_punctuation a;
     asr_chunk_samples := asr_chunk_samples a; running := running a;
     is_speaking := is_speaking a; speech_buffer := speech_buffer a;
     current_sentence := current_sentence a; complete_transcript := x;
     asr_model_loaded := asr_model_loaded a;
     vad_model_loaded := vad_model_loaded a;
     punc_model_loaded := punc_model_loaded a; vad_cache := vad_cache a;
     asr_cache := asr_cache a; stream_open := stream_open a;
     thread_alive := thread_alive a |}.

Definition set_vad_cache (x : cache) (a : AudioCaptureModule) : AudioCaptureModule :=
  {| text_callback := text_callback a; error_callback := error_callback a;
     use_vad := use_vad a; use_punctuation := use_punctuation a;
     asr_chunk_samples := asr_chunk_samples a; running := running a;
     is_speaking := is_speaking a; speech_buffer := speech_buffer a;
     current_sentence := current_sentence a;
     complete_transcript := complete_transcript a;
     asr_model_loaded := asr_model_loaded a;
     vad_model_loaded := vad_model_loaded a;
     punc_model_loaded := punc_model_loaded a; vad_cache := x;
     asr_cache := asr_cache a; stream_open := stream_open a;
     thread_alive := thread_alive a |}.

Definition set_asr_cache (x : cache) (a : AudioCaptureModule) : AudioCaptureModule :=
  {| text_callback := text_callback a; error_callback := error_callback a;
     use_vad := use_vad a; use_punctuation := use_punctuation a;
     asr_chunk_samples := asr_chunk_samples a; running := running a;
     is_speaking := is_speaking a; speech_buffer := speech_buffer a;
     current_sentence := current_sentence a;
     complete_transcript := complete_transcript a;
     asr_model_loaded := asr_model_loaded a;
     vad_model_loaded := vad_model_loaded a;
     punc_model_loaded := punc_model_loaded a; vad_cache := vad_cache a;
     asr_cache := x; stream_open := stream_open a;
     thread_alive := thread_alive a |}.

Definition set_stream_open (x : bool) (a : AudioCaptureModule) : AudioCaptureModule :=
  {| text_callback := text_callback a; error_callback := error_callback a;
     use_vad := use_vad a; use_punctuation := use_punctuation a;
     asr_chunk_samples := asr_chunk_samples a; running := running a;
     is_speaking := is_speaking a; speech_buffer := speech_buffer a;
     current_sentence := current_sentence a;
     complete_transcript := complete_transcript a;
     asr_model_loaded := asr_model_loaded a;
     vad_model_loaded := vad_model_loaded a;
     punc_model_loaded := punc_model_loaded a; vad_cache := vad_cache a;
     asr_cache := asr_cache a; stream_open := x; thread_alive := thread_alive a |}.

Definition set_thread_alive (x : bool) (a : AudioCaptureModule) : AudioCaptureModule :=
  {| text_callback := text_callback a; error_callback := error_callback a;
     use_vad := use_vad a; use_punctuation := use_punctuation a;
     asr_chunk_samples := asr_chunk_samples a; running := running a;
     is_speaking := is_speaking a; speech_buffer := speech_buffer a;
     current_sentence := current_sentence a;
     complete_transcript := complete_transcript a;
     asr_model_loaded := asr_model_loaded a;
     vad_model_loaded := vad_model_loaded a;
     punc_model_loaded := punc_model_loaded a; vad_cache := vad_cache a;
     asr_cache := asr_cache a; stream_open := stream_open a; thread_alive := x |}.

Definition set_use_vad (x : bool) (a : AudioCaptureModule) : AudioCaptureModule :=
  {| text_callback := text_callback a; error_callback := error_callback a;
     use_vad := x; use_punctuation := use_punctuation a;
     asr_chunk_samples := asr_chunk_samples a; running := running a;
     is_speaking := is_speaking a; speech_buffer := speech_buffer a;
     current_sentence := current_sentence a;
     complete_transcript := complete_transcript a;
     asr_model_loaded := asr_model_loaded a;
     vad_model_loaded := vad_model_loaded a;
     punc_model_loaded := punc_model_loaded a; vad_cache := vad_cache a;
     asr_cache := asr_cache a; stream_open := stream_open a;
     thread_alive := thread_alive a |}.

Definition set_use_punctuation (x : bool) (a : AudioCaptureModule) : AudioCaptureModule :=
  {| text_callback := text_callback a; error_callback := error_callback a;
     use_vad := use_vad a; use_punctuation := x;
     asr_chunk_samples := asr_chunk_samples a; running := running a;
     is_speaking := is_speaking a; speech_buffer := speech_buffer a;
     current_sentence := current_sentence a;
     complete_transcript := complete_transcript a;
     asr_model_loaded := asr_model_loaded a;
     vad_model_loaded := vad_model_loaded a;
     punc_model_loaded := punc_model_loaded a; vad_cache := vad_cache a;
     asr_cache := asr_cache a; stream_open := stream_open a;
     thread_alive := thread_alive a |}.

Definition set_asr_model_loaded (x : bool) (a : AudioCaptureModule) : AudioCaptureModule :=
  {| text_callback := text_callback a; error_callback := error_callback a;
     use_vad := use_vad a; use_punctuation := use_punctuation a;
     asr_chunk_samples := asr_chunk_samples a; running := running a;
     is_speaking := is_speaking a; speech_buffer := speech_buffer a;
     current_sentence := current_sentence a;
     complete_transcript := complete_transcript a; asr_model_loaded := x;
     vad_model_loaded := vad_model_loaded a;
     punc_model_loaded := punc_model_loaded a; vad_cache := vad_cache a;
     asr_cache := asr_cache a; stream_open := stream_open a;
     thread_alive := thread_alive a |}.

Definition set_vad_model_loaded (x : bool) (a : AudioCaptureModule) : AudioCaptureModule :=
  {| text_callback := text_callback a; error_callback := error_callback a;
     use_vad := use_vad a; use_punctuation := use_punctuation a;
     asr_chunk_samples := asr_chunk_samples a; running := running a;
     is_speaking := is_speaking a; speech_buffer := speech_buffer a;
     current_sentence := current_sentence a;
     complete_transcript := complete_transcript a;
     asr_model_loaded := asr_model_loaded a; vad_model_loaded := x;
     punc_model_loaded := punc_model_loaded a; vad_cache := vad_cache a;
     asr_cache := asr_cache a; stream_open := stream_open a;
     thread_alive := thread_alive a |}.

Definition set_punc_model_loaded (x : bool) (a : AudioCaptureModule) : AudioCaptureModule :=
  {| text_callback := text_callback a; error_callback := error_callback a;
     use_vad := use_vad a; use_punctuation := use_punctuation a;
     asr_chunk_samples := asr_chunk_samples a; running := running a;
     is_speaking := is_speaking a; speech_buffer := speech_buffer a;
     current_sentence := current_sentence a;
     complete_transcript := complete_transcript a;
     asr_model_loaded := asr_model_loaded a;
     vad_model_loaded := vad_model_loaded a; punc_model_loaded := x;
     vad_cache := vad_cache a; asr_cache := asr_cache a;
     stream_open := stream_open a; thread_alive := thread_alive a |}.

Definition report_error (m : msg) : M event AudioCaptureModule unit :=
  cb <- gets error_callback ;;
  match cb with
  | Some f => extern (ErrorCallback m) (f m)
  | None => ret tt
  end.

Definition report_text (text : pystr) (is_final : bool)
  : M event AudioCaptureModule unit :=
  cb <- gets text_callback ;;
  match cb with
  | Some f => extern (TextCallback text is_final) (f text is_final)
  | None => ret tt
  end.

(** [res and res[0]["text"]]: the first item's text when the result is
    non-empty and that text is non-empty. *)
Definition first_text (res : list pystr) : option pystr :=
  match res with
  | (_ :: _) as t :: _ => Some t
  | _ => None
  end.

Section WithEnv.
Variable env : Env.

Definition initialize_models : M event AudioCaptureModule bool :=
  try_except
    (modify (set_asr_model_loaded (asr_loads env)) ;;
     (if asr_loads env then ret tt else raise (RuntimeError 0)) ;;
     vad <- gets use_vad ;;
     when vad
       (modify (set_vad_model_loaded (vad_loads env)) ;;
        when (negb (vad_loads env)) (modify (set_use_vad false))) ;;
     punc <- gets use_punctuation ;;
     when punc
       (modify (set_punc_model_loaded (punc_loads env)) ;;
        when (negb (punc_loads env)) (modify (set_use_punctuation false))) ;;
     ret true)
    (λ e, report_error (InitFailed e) ;; ret false).

(** [self.asr_model.generate(input=chunk, cache=self.asr_cache, ...)] *)
Definition call_asr (chunk : list Z) (is_final : bool)
  : M event AudioCaptureModule (list pystr) :=
  c <- gets asr_cache ;;
  let '(r, c') := asr_generate env chunk c is_final in
  modify (set_asr_cache c') ;;
  extern (AsrGenerate chunk is_final) r.

Definition call_punc (input : pystr) : M event AudioCaptureModule (list pystr) :=
  extern (PuncGenerate input) (punc_generate env input).

(** Emit a final text: callback, transcript, pending sentence. *)
Definition emit_final (final_text : pystr) : M event AudioCaptureModule unit :=
  report_text final_text true ;;
  tr <- gets complete_transcript ;;
  modify (set_complete_transcript (tr ++ final_text ++ lit " ")) ;;
  modify (set_current_sentence []).

(** The pending sentence with punctuation applied when that is
    enabled and the punctuation model answers with a text. *)
Definition punctuated_sentence : M event AudioCaptureModule pystr :=
  sentence <- gets current_sentence ;;
  punc <- gets (λ a, use_punctuation a && punc_model_loaded a) ;;
  if punc then
    punc_res <- call_punc sentence ;;
    ret (default sentence (first_text punc_res))
  else ret sentence.

(** The part of [process_asr_buffer] after the chunk is chosen. *)
Definition recognise (asr_chunk : list Z) (is_final : bool)
  : M event AudioCaptureModule unit :=
  sentence <- gets current_sentence ;;
  (if 0 <? Py.len asr_chunk then
     asr_res <- call_asr asr_chunk is_final ;;
     match first_text asr_res with
     | Some segment_text =>
         punc <- gets (λ a, use_punctuation a && punc_model_loaded a) ;;
         sentence <- gets current_sentence ;;
         if punc && is_final then
           let full_input := sentence ++ segment_text in
           punc_res <- call_punc full_input ;;
           emit_final (default full_input (first_text punc_res))
         else if negb is_final then
           modify (set_current_sentence (sentence ++ segment_text)) ;;
           report_text (sentence ++ segment_text) false
         else
           emit_final (sentence ++ segment_text)
     | None => ret tt
     end
   else if is_final && Py.truthy sentence then
     final_text <- punctuated_sentence ;;
     emit_final final_text
   else ret tt) ;;
  when is_final (modify (set_asr_cache ∅)).

Definition process_asr_buffer (is_final : bool)
  : M event AudioCaptureModule unit :=
  loaded <- gets asr_model_loaded ;;
  if negb loaded then ret tt
  else
    try_except
      (buffer <- gets speech_buffer ;;
       if (Py.len buffer =? 0) && is_final then
         sentence <- gets current_sentence ;;
         when (Py.truthy sentence)
           (final_text <- punctuated_sentence ;;
            emit_final final_text ;;
            modify (set_asr_cache ∅))
       else if negb is_final then
         n <- gets asr_chunk_samples ;;
         if Py.len buffer <? n then ret tt
         else
           modify (set_speech_buffer (Py.slice_from buffer n)) ;;
           recognise (Py.slice_to buffer n) is_final
       else
         modify (set_speech_buffer []) ;;
         recognise buffer is_final)
      (λ e, report_error (AsrError e)).

Definition start_capture : M event AudioCaptureModule bool :=
  r <- gets running ;;
  if r then ret true
  else
    try_except
      (modify (set_speech_buffer []) ;;
       modify (set_vad_cache ∅) ;;
       modify (set_asr_cache ∅) ;;
       modify (set_current_sentence []) ;;
       modify (set_complete_transcript []) ;;
       vad <- gets use_vad ;;
       modify (set_is_speaking (negb vad)) ;;
       modify (set_running true) ;;
       extern ThreadStart (thread_start env) ;;
       modify (set_thread_alive true) ;;
       extern StreamOpen (stream_create env) ;;
       modify (set_stream_open true) ;;
       extern StreamStart (stream_start env) ;;
       ret true)
      (λ e,
       report_error (StartFailed e) ;;
       modify (set_running false) ;;
       ret false).

Definition stop_capture : M event AudioCaptureModule unit :=
  modify (set_running false) ;;
  open <- gets stream_open ;;
  when open
    (try_except
       (when (negb (stream_stopped env))
          (extern StreamStop (stream_stop env)) ;;
        extern StreamClose (stream_close env))
       (λ _, ret tt) ;;
     modify (set_stream_open false)) ;;
  alive <- gets thread_alive ;;
  when alive
    (emit ThreadJoin ;; modify (set_thread_alive (negb (thread_joins env)))) ;;
  pending <- gets (λ a, (0 <? Py.len (speech_buffer a))
                        || Py.truthy (current_sentence a)) ;;
  when pending (process_asr_buffer true) ;;
  modify (set_vad_cache ∅) ;;
  modify (set_asr_cache ∅).
End WithEnv.
End AudioCapture.

(* ===================================================================== *)
(** * src/modules/text_to_speech.py: the catalogue of voices *)
(* ===================================================================== *)

Module Voices.
Local Open Scope Z_scope.

(** A voice as [edge_tts.VoicesManager] lists it: a dict, of which any
    key can be missing. *)
Record service_voice : Type := {
  Locale : option pystr;
  ShortName : option pystr;
  Gender : option pystr;
  FriendlyName : option pystr
}.

(** An entry of [available_voices]. *)
Record voice : Type := {
  name : pystr;
  gender : pystr;
  friendly_name : pystr;
  locale : pystr
}.

(** The two attributes of the module that the catalogue lives in. *)
Record VoiceStore : Type := {
  available_voices : gmap pystr (list voice);
  voices_loaded : bool
}.

Definition with_voices (f : gmap pystr (list voice) → gmap pystr (list voice))
    (s : VoiceStore) : VoiceStore :=
  {| available_voices := f (available_voices s);
     voices_loaded := voices_loaded s |}.

Definition set_loaded (b : bool) (s : VoiceStore) : VoiceStore :=
  {| available_voices := available_voices s; voices_loaded := b |}.

Inductive event : Type :=
| VoicesManagerCreate
| ErrorCallback (e : exn).

(** The voice service, and the module's error callback if one is set. *)
Record Env : Type := {
  voices_manager_create : outcome (list service_voice);
  error_callback : option (exn → outcome unit)
}.

(** [voice["key"]] *)
Definition item (x : option pystr) : M event VoiceStore pystr :=
  match x with
  | Some v => ret v
  | None => raise KeyError
  end.

(** The body of the loop of [load_available_voices].  The empty list for
    a new locale is stored before the keys of the entry are read. *)
Definition add_voice (v : service_voice) : M event VoiceStore unit :=
  lang_code <- item (Locale v) ;;
  known <- gets (λ s, bool_decide (is_Some (available_voices s !! lang_code))) ;;
  when (negb known) (modify (with_voices (<[lang_code := []]>))) ;;
  short_name <- item (ShortName v) ;;
  g <- item (Gender v) ;;
  modify (with_voices
            (alter (λ l, l ++ [ {| name := short_name; gender := g;
                                   friendly_name := default [] (FriendlyName v);
                                   locale := lang_code |} ])
               lang_code)).

Fixpoint add_voices (vs : list service_voice) : M event VoiceStore unit :=
  match vs with
  | [] => ret tt
  | v :: rest => add_voice v ;; add_voices rest
  end.

Section WithEnv.
Variable env : Env.

Definition report_error (e : exn) : M event VoiceStore unit :=
  match error_callback env with
  | Some f => extern (ErrorCallback e) (f e)
  | None => ret tt
  end.

Definition load_available_voices : M event VoiceStore unit :=
  loaded <- gets voices_loaded ;;
  if loaded then ret tt
  else
    try_except
      (vs <- extern VoicesManagerCreate (voices_manager_create env) ;;
       add_voices vs ;;
       modify (set_loaded true))
      (λ e, report_error e).
End WithEnv.

Definition get_voices_for_language (s : VoiceStore) (language_code : pystr)
  : list voice :=
  default [] (available_voices s !! language_code).

(** [config] is the global configuration the fallback is read from. *)
Definition get_best_voice_for_language (config : Settings.SystemConfig)
    (s : VoiceStore) (language_code gender_wanted : pystr) : pystr :=
  let voices := get_voices_for_language s language_code in
  match voices with
  | [] => Settings.get_tts_voice config language_code
  | first :: _ =>
      match filter (λ v, gender v = gender_wanted) voices with
      | preferred :: _ => name preferred
      | [] => name first
      end
  end.
End Voices.

(* ===================================================================== *)
(** * modules/pipeline.py *)
(* ===================================================================== *)

Module Pipeline.
Local Open Scope Z_scope.

Record TranslationSession : Type := {
  session_id : Z;                 (* the [n] of [f"session_{n}"] *)
  source_language : pystr;
  target_language : pystr;
  start_time : Z;
  total_text_length : Z;
  total_translations : Z
}.

Inductive status : Type :=
| Initializing
| InitializingAudio
| InitializingTranslation
| InitializingTts
| Initialized
| AlreadyRunning
| Starting
| Started (session : Z)
| Stopping
| Stopped
| TtsPlayback (text : pystr) (is_playing : bool).

Inductive msg : Type :=
| NotInitialized
| InitFailed (e : exn)
| StartFailed (e : exn)
| StopFailed (e : exn)
| AudioModuleError (m : AudioCapture.msg)
| TranslationModuleError (m : Translator.msg)
| TtsModuleError (m : TTS.msg)
| TextHandlerError (e : exn)
| TranslationHandlerError (e : exn).

(** What the coordinator does to the outside: the status and error
    lines it prints, each call of a registered observer, and what its
    three modules do. *)
Inductive event : Type :=
| Status (s : status)
| Error (m : msg)
| StatusObserver (s : status)
| ErrorObserver (m : msg)
| TextObserver (text : pystr) (is_final : bool)
| TranslationObserver (text : pystr) (is_final : bool)
| Speak (text : pystr) (p : TTS.priority)     (* a call of [tts_module.speak] *)
| OfAudio (e : AudioCapture.event)
| OfTranslator (e : Translator.event)
| OfTts (e : TTS.event)
| OfVoices (e : Voices.event).

Record Env : Type := {
  audio_env : AudioCapture.Env;
  tts_env : TTS.Env;
  translator_thread_start : outcome unit;
  translator_thread_joins : bool;
  now : Z;                                    (* [time.time()] *)
  translation_model_loads : bool;             (* [initialize_model] *)
  voices_listing : outcome (list Voices.service_voice)
                                              (* [VoicesManager.create()] *)
}.

Record Pipeline : Type := {
  config : Settings.SystemConfig;
  is_initialized : bool;
  is_running : bool;
  current_session : option TranslationSession;
  audio_module : option AudioCapture.AudioCaptureModule;
  translation_module : option Translator.TranslationModule;
  tts_module : option TTS.TextToSpeechModule;
  status_callbacks : list (status → outcome unit);
  text_callbacks : list (pystr → bool → outcome unit);
  translation_callbacks : list (pystr → bool → outcome unit);
  error_callbacks : list (msg → outcome unit);
  sessions_count : Z;
  total_runtime : Z;
  error_count : Z;
  recent_source_texts : list pystr;
  recent_translations : list pystr;
  max_context_items : Z
}.

(** [RealTimeTranslationPipeline.__init__]; [config] is the global
    configuration object. *)
Definition new (cfg : Settings.SystemConfig) : Pipeline :=
  {| config := cfg; is_initialized := false; is_running := false;
     current_session := None; audio_module := None;
     translation_module := None; tts_module := None;
     status_callbacks := []; text_callbacks := [];
     translation_callbacks := []; error_callbacks := [];
     sessions_count := 0; total_runtime := 0; error_count := 0;
     recent_source_texts := []; recent_translations := [];
     max_context_items := 5 |}.

Definition set_config (x : Settings.SystemConfig) (p : Pipeline) : Pipeline :=
  {| config := x; is_initialized := is_initialized p;
     is_running := is_running p; current_session := current_session p;
     audio_module := audio_module p;
     translation_module := translation_module p;
     tts_module := tts_module p; status_callbacks := status_callbacks p;
     text_callbacks := text_callbacks p;
     translation_callbacks := translation_callbacks p;
     error_callbacks := error_callbacks p;
     sessions_count := sessions_count p; total_runtime := total_runtime p;
     error_count := error_count p;
     recent_source_texts := recent_source_texts p;
     recent_translations := recent_translations p;
     max_context_items := max_context_items p |}.

Definition set_is_initialized (x : bool) (p : Pipeline) : Pipeline :=
  {| config := config p; is_initialized := x; is_running := is_running p;
     current_session := current_session p; audio_module := audio_module p;
     translation_module := translation_module p;
     tts_module := tts_module p; status_callbacks := status_callbacks p;
     text_callbacks := text_callbacks p;
     translation_callbacks := translation_callbacks p;
     error_callbacks := error_callbacks p;
     sessions_count := sessions_count p; total_runtime := total_runtime p;
     error_count := error_count p;
     recent_source_texts := recent_source_texts p;
     recent_translations := recent_translations p;
     max_context_items := max_context_items p |}.

Definition set_is_running (x : bool) (p : Pipeline) : Pipeline :=
  {| config := config p; is_initialized := is_initialized p; is_running := x;
     current_session := current_session p; audio_module := audio_module p;
     translation_module := translation_module p;
     tts_module := tts_module p; status_callbacks := status_callbacks p;
     text_callbacks := text_callbacks p;
     translation_callbacks := translation_callbacks p;
     error_callbacks := error_callbacks p;
     sessions_count := sessions_count p; total_runtime := total_runtime p;
     error_count := error_count p;
     recent_source_texts := recent_source_texts p;
     recent_translations := recent_translations p;
     max_context_items := max_context_items p |}.

Definition set_current_session (x : option TranslationSession) (p : Pipeline) : Pipeline :=
  {| config := config p; is_initialized := is_initialized p;
     is_running := is_running p; current_session := x;
     audio_module := audio_module p;
     translation_module := translation_module p;
     tts_module := tts_module p; status_callbacks := status_callbacks p;
     text_callbacks := text_callbacks p;
     translation_callbacks := translation_callbacks p;
     error_callbacks := error_callbacks p;
     sessions_count := sessions_count p; total_runtime := total_runtime p;
     error_count := error_count p;
     recent_source_texts := recent_source_texts p;
     recent_translations := recent_translations p;
     max_context_items := max_context_items p |}.

Definition set_audio_module (x : option AudioCapture.AudioCaptureModule) (p : Pipeline) : Pipeline :=
  {| config := config p; is_initialized := is_initialized p;
     is_running := is_running p; current_session := current_session p;
     audio_module := x; translation_module := translation_module p;
     tts_module := tts_module p; status_callbacks := status_callbacks p;
     text_callbacks := text_callbacks p;
     translation_callbacks := translation_callbacks p;
     error_callbacks := error_callbacks p;
     sessions_count := sessions_count p; total_runtime := total_runtime p;
     error_count := error_count p;
     recent_source_texts := recent_source_texts p;
     recent_translations := recent_translations p;
     max_context_items := max_context_items p |}.

Definition set_translation_module (x : option Translator.TranslationModule) (p : Pipeline) : Pipeline :=
  {| config := config p; is_initialized := is_initialized p;
     is_running := is_running p; current_session := current_session p;
     audio_module := audio_module p; translation_module := x;
     tts_module := tts_module p; status_callbacks := status_callbacks p;
     text_callbacks := text_callbacks p;
     translation_callbacks := translation_callbacks p;
     error_callbacks := error_callbacks p;
     sessions_count := sessions_count p; total_runtime := total_runtime p;
     error_count := error_count p;
     recent_source_texts := recent_source_texts p;
     recent_translations := recent_translations p;
     max_context_items := max_context_items p |}.

Definition set_tts_module (x : option TTS.TextToSpeechModule) (p : Pipeline) : Pipeline :=
  {| config := config p; is_initialized := is_initialized p;
     is_running := is_running p; current_session := current_session p;
     audio_module := audio_module p;
     translation_module := translation_module p; tts_module := x;
     status_callbacks := status_callbacks p;
     text_callbacks := text_callbacks p;
     translation_callbacks := translation_callbacks p;
     error_callbacks := error_callbacks p;
     sessions_count := sessions_count p; total_runtime := total_runtime p;
     error_count := error_count p;
     recent_source_texts := recent_source_texts p;
     recent_translations := recent_translations p;
     max_context_items := max_context_items p |}.

Definition set_status_callbacks (x : list (status → outcome unit)) (p : Pipeline) : Pipeline :=
  {| config := config p; is_initialized := is_initialized p;
     is_running := is_running p; current_session := current_session p;
     audio_module := audio_module p;
     translation_module := translation_module p;
     tts_module := tts_module p; status_callbacks := x;
     text_callbacks := text_callbacks p;
     translation_callbacks := translation_callbacks p;
     error_callbacks := error_callbacks p;
     sessions_count := sessions_count p; total_runtime := total_runtime p;
     error_count := error_count p;
     recent_source_texts := recent_source_texts p;
     recent_translations := recent_translations p;
     max_context_items := max_context_items p |}.

Definition set_text_callbacks (x : list (pystr → bool → outcome unit)) (p : Pipeline) : Pipeline :=
  {| config := config p; is_initialized := is_initialized p;
     is_running := is_running p; current_session := current_session p;
     audio_module := audio_module p;
     translation_module := translation_module p;
     tts_module := tts_module p; status_callbacks := status_callbacks p;
     text_callbacks := x;
     translation_callbacks := translation_callbacks p;
     error_callbacks := error_callbacks p;
     sessions_count := sessions_count p; total_runtime := total_runtime p;
     error_count := error_count p;
     recent_source_texts := recent_source_texts p;
     recent_translations := recent_translations p;
     max_context_items := max_context_items p |}.

Definition set_translation_callbacks (x : list (pystr → bool → outcome unit)) (p : Pipeline) : Pipeline :=
  {| config := config p; is_initialized := is_initialized p;
     is_running := is_running p; current_session := current_session p;
     audio_module := audio_module p;
     translation_module := translation_module p;
     tts_module := tts_module p; status_callbacks := status_callbacks p;
     text_callbacks := text_callbacks p; translation_callbacks := x;
     error_callbacks := error_callbacks p;
     sessions_count := sessions_count p; total_runtime := total_runtime p;
     error_count := error_count p;
     recent_source_texts := recent_source_texts p;
     recent_translations := recent_translations p;
     max_context_items := max_context_items p |}.

Definition set_error_callbacks (x : list (msg → outcome unit)) (p : Pipeline) : Pipeline :=
  {| config := config p; is_initialized := is_initialized p;
     is_running := is_running p; current_session := current_session p;
     audio_module := audio_module p;
     translation_module := translation_module p;
     tts_module := tts_module p; status_callbacks := status_callbacks p;
     text_callbacks := text_callbacks p;
     translation_callbacks := translation_callbacks p;
     error_callbacks := x; sessions_count := sessions_count p;
     total_runtime := total_runtime p; error_count := error_count p;
     recent_source_texts := recent_source_texts p;
     recent_translations := recent_translations p;
     max_context_items := max_context_items p |}.

Definition set_sessions_count (x : Z) (p : Pipeline) : Pipeline :=
  {| config := config p; is_initialized := is_initialized p;
     is_running := is_running p; current_session := current_session p;
     audio_module := audio_module p;
     translation_module := translation_module p;
     tts_module := tts_module p; status_callbacks := status_callbacks p;
     text_callbacks := text_callbacks p;
     translation_callbacks := translation_callbacks p;
     error_callbacks := error_callbacks p; sessions_count := x;
     total_runtime := total_runtime p; error_count := error_count p;
     recent_source_texts := recent_source_texts p;
     recent_translations := recent_translations p;
     max_context_items := max_context_items p |}.

Definition set_total_runtime (x : Z) (p : Pipeline) : Pipeline :=
  {| config := config p; is_initialized := is_initialized p;
     is_running := is_running p; current_session := current_session p;
     audio_module := audio_module p;
     translation_module := translation_module p;
     tts_module := tts_module p; status_callbacks := status_callbacks p;
     text_callbacks := text_callbacks p;
     translation_callbacks := translation_callbacks p;
     error_callbacks := error_callbacks p;
     sessions_count := sessions_count p; total_runtime := x;
     error_count := error_count p;
     recent_source_texts := recent_source_texts p;
     recent_translations := recent_translations p;
     max_context_items := max_context_items p |}.

Definition set_error_count (x : Z) (p : Pipeline) : Pipeline :=
  {| config := config p; is_initialized := is_initialized p;
     is_running := is_running p; current_session := current_session p;
     audio_module := audio_module p;
     translation_module := translation_module p;
     tts_module := tts_module p; status_callbacks := status_callbacks p;
     text_callbacks := text_callbacks p;
     translation_callbacks := translation_callbacks p;
     error_callbacks := error_callbacks p;
     sessions_count := sessions_count p; total_runtime := total_runtime p;
     error_count := x; recent_source_texts := recent_source_texts p;
     recent_translations := recent_translations p;
     max_context_items := max_context_items p |}.

Definition set_recent_source_texts (x : list pystr) (p : Pipeline) : Pipeline :=
  {| config := config p; is_initialized := is_initialized p;
     is_running := is_running p; current_session := current_session p;
     audio_module := audio_module p;
     translation_module := translation_module p;
     tts_module := tts_module p; status_callbacks := status_callbacks p;
     text_callbacks := text_callbacks p;
     translation_callbacks := translation_callbacks p;
     error_callbacks := error_callbacks p;
     sessions_count := sessions_count p; total_runtime := total_runtime p;
     error_count := error_count p; recent_source_texts := x;
     recent_translations := recent_translations p;
     max_context_items := max_context_items p |}.

Definition set_recent_translations (x : list pystr) (p : Pipeline) : Pipeline :=
  {| config := config p; is_initialized := is_initialized p;
     is_running := is_running p; current_session := current_session p;
     audio_module := audio_module p;
     translation_module := translation_module p;
     tts_module := tts_module p; status_callbacks := status_callbacks p;
     text_callbacks := text_callbacks p;
     translation_callbacks := translation_callbacks p;
     error_callbacks := error_callbacks p;
     sessions_count := sessions_count p; total_runtime := total_runtime p;
     error_count := error_count p;
     recent_source_texts := recent_source_texts p;
     recent_translations := x; max_context_items := max_context_items p |}.

(** [add_status_callback], [add_text_callback],
    [add_translation_callback] and [add_error_callback] *)
Definition add_status_callback (callback : status → outcome unit)
  : M event Pipeline unit :=
  cbs <- gets status_callbacks ;;
  modify (set_status_callbacks (cbs ++ [callback])).

Definition add_text_callback (callback : pystr → bool → outcome unit)
  : M event Pipeline unit :=
  cbs <- gets text_callbacks ;;
  modify (set_text_callbacks (cbs ++ [callback])).

Definition add_translation_callback (callback : pystr → bool → outcome unit)
  : M event Pipeline unit :=
  cbs <- gets translation_callbacks ;;
  modify (set_translation_callbacks (cbs ++ [callback])).

Definition add_error_callback (callback : msg → outcome unit)
  : M event Pipeline unit :=
  cbs <- gets error_callbacks ;;
  modify (set_error_callbacks (cbs ++ [callback])).

(** The loop [for callback in callbacks: try: callback(...) except
    Exception: print(...)]: every callback is called, in the order of
    registration, and what one raises is caught and printed.  [ev] is
    the event of one call, [call] the call itself. *)
Fixpoint notify {A} (ev : event) (call : A → outcome unit) (callbacks : list A)
  : M event Pipeline unit :=
  match callbacks with
  | [] => ret tt
  | callback :: rest =>
      try_except (extern ev (call callback)) (λ _, ret tt) ;;
      notify ev call rest
  end.

(** [_report_status]: the line that is printed, then the observers. *)
Definition report_status (s : status) : M event Pipeline unit :=
  emit (Status s) ;;
  cbs <- gets status_callbacks ;;
  notify (StatusObserver s) (λ callback, callback s) cbs.

(** [_report_error]: the line that is printed, the error counter, then
    the observers. *)
Definition report_error (m : msg) : M event Pipeline unit :=
  emit (Error m) ;;
  n <- gets error_count ;;
  modify (set_error_count (n + 1)) ;;
  cbs <- gets error_callbacks ;;
  notify (ErrorObserver m) (λ callback, callback m) cbs.

(** Run the handlers of the callbacks a module made, in order. *)
Fixpoint dispatch {E} (inj : E → event) (handler : E → M event Pipeline unit)
    (evs : list E) (p : Pipeline) : Pipeline * list event :=
  match evs with
  | [] => (p, [])
  | e :: evs' =>
      let '(_, p1, t1) := handler e p in
      let '(p2, t2) := dispatch inj handler evs' p1 in
      (p2, inj e :: t1 ++ t2)
  end.

(** Call a method of one of the modules.  The module's callbacks are
    methods of the coordinator; they touch the coordinator and the other
    modules only, and they never raise, so their effect is applied to
    the coordinator after the module's own.  A module that is [None]
    gives an [AttributeError]. *)
Definition call_module {E S A} (inj : E → event)
    (proj : Pipeline → option S) (upd : option S → Pipeline → Pipeline)
    (handler : E → M event Pipeline unit) (m : M E S A) : M event Pipeline A :=
  λ p, match proj p with
       | None => (Raised AttributeError, p, [])
       | Some s =>
           let '(r, s', evs) := m s in
           let '(p', tr) := dispatch inj handler evs (upd (Some s') p) in
           (r, p', tr)
       end.

(** The callbacks every module is constructed with: methods of the
    coordinator, which return normally. *)
Definition quiet2 {A B} : option (A → B → outcome unit) := Some (λ _ _, Ok tt).
Definition quiet1 {A} : option (A → outcome unit) := Some (λ _, Ok tt).

Definition is_some {A} (o : option A) : bool :=
  match o with Some _ => true | None => false end.

(** [list.append] followed by [pop(0)] when the list got too long. *)
Definition remember (limit : Z) (item : pystr) (l : list pystr) : list pystr :=
  let l' := l ++ [item] in
  if limit <? Z.of_nat (length l') then drop 1 l' else l'.

Section WithEnv.
Variable env : Env.

(** [_on_tts_error] and [_on_tts_playback] *)
Definition on_tts_event (e : TTS.event) : M event Pipeline unit :=
  match e with
  | TTS.ErrorCallback m => report_error (TtsModuleError m)
  | TTS.PlaybackCallback text playing => report_status (TtsPlayback text playing)
  | _ => ret tt
  end.

Definition call_tts {A} (m : M TTS.event TTS.TextToSpeechModule A)
  : M event Pipeline A :=
  call_module OfTts tts_module set_tts_module on_tts_event m.

Definition bump_translations (s : TranslationSession) : TranslationSession :=
  {| session_id := session_id s; source_language := source_language s;
     target_language := target_language s; start_time := start_time s;
     total_text_length := total_text_length s;
     total_translations := total_translations s + 1 |}.

Definition add_text_length (n : Z) (s : TranslationSession) : TranslationSession :=
  {| session_id := session_id s; source_language := source_language s;
     target_language := target_language s; start_time := start_time s;
     total_text_length := total_text_length s + n;
     total_translations := total_translations s |}.

Definition on_translation_result (translated_text : pystr) (is_final : bool)
  : M event Pipeline unit :=
  try_except
    (session <- gets current_session ;;
     when (is_some session && is_final)
       (modify (set_current_session (bump_translations <$> session))) ;;
     when (is_final && negb (Py.blank translated_text))
       (recent <- gets recent_translations ;;
        limit <- gets max_context_items ;;
        modify (set_recent_translations
                  (remember limit (Py.strip translated_text) recent))) ;;
     cbs <- gets translation_callbacks ;;
     notify (TranslationObserver translated_text is_final)
       (λ callback, callback translated_text is_final) cbs ;;
     tts <- gets tts_module ;;
     when (is_some tts && is_final && negb (Py.blank translated_text))
       (emit (Speak translated_text TTS.Normal) ;;
        call_tts (TTS.speak translated_text None TTS.Normal)))
    (λ e, report_error (TranslationHandlerError e)).

(** [_on_translation_error] and [_on_translation_result] *)
Definition on_translator_event (e : Translator.event) : M event Pipeline unit :=
  match e with
  | Translator.ErrorCallback m => report_error (TranslationModuleError m)
  | Translator.TranslationCallback text is_final =>
      on_translation_result text is_final
  | _ => ret tt
  end.

Definition call_translator {A}
    (m : M Translator.event Translator.TranslationModule A) : M event Pipeline A :=
  call_module OfTranslator translation_module set_translation_module
    on_translator_event m.

Definition on_text_recognized (text : pystr) (is_final : bool)
  : M event Pipeline unit :=
  try_except
    (session <- gets current_session ;;
     when (is_some session)
       (modify (set_current_session (add_text_length (Py.len text) <$> session))) ;;
     when (is_final && negb (Py.blank text))
       (recent <- gets recent_source_texts ;;
        limit <- gets max_context_items ;;
        modify (set_recent_source_texts (remember limit (Py.strip text) recent))) ;;
     cbs <- gets text_callbacks ;;
     notify (TextObserver text is_final)
       (λ callback, callback text is_final) cbs ;;
     tr <- gets translation_module ;;
     when (is_some tr && negb (Py.blank text))
       (call_translator (Translator.add_translation_task text is_final)))
    (λ e, report_error (TextHandlerError e)).

(** [_on_audio_error] and [_on_text_recognized] *)
Definition on_audio_event (e : AudioCapture.event) : M event Pipeline unit :=
  match e with
  | AudioCapture.ErrorCallback m => report_error (AudioModuleError m)
  | AudioCapture.TextCallback text is_final => on_text_recognized text is_final
  | _ => ret tt
  end.

Definition call_audio {A}
    (m : M AudioCapture.event AudioCapture.AudioCaptureModule A)
  : M event Pipeline A :=
  call_module OfAudio audio_module set_audio_module on_audio_event m.

(** [_on_tts_error], for the error [load_available_voices] reports. *)
Definition on_voices_event (e : Voices.event) : M event Pipeline unit :=
  match e with
  | Voices.ErrorCallback e =>
      report_error (TtsModuleError (TTS.LoadVoicesFailed e))
  | _ => ret tt
  end.

(** [load_available_voices] on the text-to-speech module just built:
    its catalogue is empty and its error callback is the coordinator's.
    The answer is the catalogue after the call. *)
Definition load_voices : M event Pipeline Voices.VoiceStore :=
  λ p,
    let '(r, store, evs) :=
      Voices.load_available_voices
        {| Voices.voices_manager_create := voices_listing env;
           Voices.error_callback := quiet1 |}
        {| Voices.available_voices := ∅; Voices.voices_loaded := false |} in
    let '(p', tr) := dispatch OfVoices on_voices_event evs p in
    (match r with Ok _ => Ok store | Raised e => Raised e end, p', tr).

(** [initialize]; whether the models load and the voices are listed is
    decided by [env].  Without a loaded catalogue [set_voice_for_language]
    calls [asyncio.run] inside the running event loop, which raises
    [RuntimeError]; [set_voice] writes the voice to the module and to the
    shared [config.tts]. *)
Definition initialize (source_lang target_lang : pystr) : M event Pipeline bool :=
  try_except
    (report_status Initializing ;;
     cfg <- gets config ;;
     let cfg := Settings.update_language_pair cfg source_lang target_lang in
     modify (set_config cfg) ;;
     report_status InitializingAudio ;;
     modify (set_audio_module (Some (AudioCapture.new cfg quiet2 quiet1))) ;;
     ok <- call_audio (AudioCapture.initialize_models (audio_env env)) ;;
     (if ok then ret tt else raise (RuntimeError 1)) ;;
     report_status InitializingTranslation ;;
     modify (set_translation_module (Some (Translator.new cfg quiet2 quiet1))) ;;
     ok <- call_translator
             (Translator.initialize_model (translation_model_loads env)) ;;
     (if ok then ret tt else raise (RuntimeError 2)) ;;
     report_status InitializingTts ;;
     modify (set_tts_module (Some (TTS.new cfg quiet2 quiet1))) ;;
     store <- load_voices ;;
     (if Voices.voices_loaded store then ret tt else raise (RuntimeError 3)) ;;
     let best :=
       Voices.get_best_voice_for_language cfg store target_lang (lit "Female") in
     call_tts (modify (TTS.set_current_voice best)) ;;
     modify (set_config
               (Settings.set_tts cfg
                  {| Settings.voice := best;
                     Settings.rate := Settings.rate (Settings.tts cfg);
                     Settings.pitch := Settings.pitch (Settings.tts cfg);
                     Settings.volume := Settings.volume (Settings.tts cfg) |})) ;;
     modify (set_is_initialized true) ;;
     report_status Initialized ;;
     ret true)
    (λ e, report_error (InitFailed e) ;; ret false).

Definition stop_translation : M event Pipeline unit :=
  r <- gets is_running ;;
  if negb r then ret tt
  else
    try_except
      (report_status Stopping ;;
       a <- gets audio_module ;;
       when (is_some a)
         (call_audio (AudioCapture.stop_capture (audio_env env))) ;;
       t <- gets translation_module ;;
       when (is_some t)
         (call_translator
            (Translator.stop_translation_service
               (translator_thread_joins env))) ;;
       s <- gets tts_module ;;
       when (is_some s)
         (call_tts (TTS.stop_tts_service (tts_env env))) ;;
       session <- gets current_session ;;
       match session with
       | Some ses =>
           rt <- gets total_runtime ;;
           modify (set_total_runtime (rt + (now env - start_time ses))) ;;
           modify (set_current_session None)
       | None => ret tt
       end ;;
       modify (set_is_running false) ;;
       report_status Stopped)
      (λ e, report_error (StopFailed e)).

Definition start_translation : M event Pipeline bool :=
  init <- gets is_initialized ;;
  if negb init then report_error NotInitialized ;; ret false
  else
    r <- gets is_running ;;
    if r then report_status AlreadyRunning ;; ret true
    else
      try_except
        (report_status Starting ;;
         cfg <- gets config ;;
         modify (set_current_session
                   (Some {| session_id := now env;
                            source_language :=
                              Settings.source_language (Settings.translation cfg);
                            target_language :=
                              Settings.target_language (Settings.translation cfg);
                            start_time := now env;
                            total_text_length := 0;
                            total_translations := 0 |})) ;;
         ok <- call_translator
                 (Translator.start_translation_service
                    (translator_thread_start env)) ;;
         (if ok then ret tt else raise (RuntimeError 1)) ;;
         ok <- call_tts (TTS.start_tts_service (tts_env env)) ;;
         (if ok then ret tt else raise (RuntimeError 2)) ;;
         ok <- call_audio (AudioCapture.start_capture (audio_env env)) ;;
         (if ok then ret tt else raise (RuntimeError 3)) ;;
         modify (set_is_running true) ;;
         n <- gets sessions_count ;;
         modify (set_sessions_count (n + 1)) ;;
         report_status (Started (now env)) ;;
         ret true)
        (λ e,
         report_error (StartFailed e) ;;
         stop_translation ;;
         ret false).

(** Which of the three services are running. *)
Definition translator_running (p : Pipeline) : bool :=
  match translation_module p with
  | Some t => Translator.running t | None => false end.
Definition tts_running (p : Pipeline) : bool :=
  match tts_module p with Some t => TTS.running t | None => false end.
Definition audio_running (p : Pipeline) : bool :=
  match audio_module p with
  | Some a => AudioCapture.running a | None => false end.
End WithEnv.
End Pipeline.

(* ===================================================================== *)
(** * Notions used in the statements *)
(* ===================================================================== *)

Module Notions.
Import Settings Translator.
Local Open Scope Z_scope.

(** The eight language pairs of the default table. *)
Definition declared_pairs : list (pystr * pystr) :=
  [ (lit "zh", lit "en"); (lit "en", lit "zh");
    (lit "zh", lit "ja"); (lit "ja", lit "zh");
    (lit "en", lit "ja"); (lit "ja", lit "en");
    (lit "zh", lit "ko"); (lit "ko", lit "zh") ].

(** A language code is in the table when it is the source or the target
    of one of its keys. *)
Definition in_table (tbl : gmap pystr pystr) (x : pystr) : Prop :=
  ∃ key source target,
    is_Some (tbl !! key) ∧ Py.split 45 key = [source; target]
    ∧ (x = source ∨ x = target).

Definition two_part (key : pystr) : Prop :=
  ∃ source target, Py.split 45 key = [source; target].

(** ** The caches of the model manager *)

(** A translation model is cached exactly when its tokenizer is. *)
Definition caches_agree (m : ModelManager.ModelManager) : Prop :=
  ∀ name : pystr,
    is_Some (ModelManager.model_cache m
               !! ModelManager.key (lit "transformers") name)
    ↔ is_Some (ModelManager.tokenizer_cache m
                 !! ModelManager.key (lit "tokenizer") name).

(** ** Playback status of the text-to-speech module *)

(** Playback is only ever marked as going on after the mixer has been
    initialised. *)
Definition mixer_ready (t : TTS.TextToSpeechModule) : Prop :=
  TTS.is_playing t = true → TTS.is_mixer_initialized t = true.

(** The error callback returns normally. *)
Definition quiet_errors (t : TTS.TextToSpeechModule) : Prop :=
  ∀ f m, TTS.error_callback t = Some f → f m = Ok tt.

(** What an observer of the playback callback believes about [text]:
    the flag of the last status reported for it. *)
Definition playback_belief (text : pystr) (b : bool) (e : TTS.event) : bool :=
  match e with
  | TTS.PlaybackCallback text' playing =>
      if decide (text' = text) then playing else b
  | _ => b
  end.

(** Every "playing" status for [text] is followed by a "finished" one. *)
Definition answered (text : pystr) (tr : list TTS.event) : Prop :=
  ∀ pre post,
    tr = pre ++ TTS.PlaybackCallback text true :: post →
    TTS.PlaybackCallback text false ∈ post.

(** ** Collaborators of the audio capture module that do not fail *)

(** The recogniser and the punctuation model answer, and the text
    callback returns normally. *)
Definition models_answer (env : AudioCapture.Env) : Prop :=
  (∀ chunk c fin, is_ok (AudioCapture.asr_generate env chunk c fin).1 = true)
  ∧ (∀ input, is_ok (AudioCapture.punc_generate env input) = true).

Definition quiet_text_callback (a : AudioCapture.AudioCaptureModule) : Prop :=
  ∀ f text fin, AudioCapture.text_callback a = Some f → f text fin = Ok tt.

(** ** What the coordinator asks of the text-to-speech module *)



(** The callbacks of the module are the given ones; without a playback
    callback the observer has heard nothing. *)
Definition wired (ecb : option (TTS.msg → outcome unit))
    (pcb : option (pystr → bool → outcome unit))
    (s : TTS.TextToSpeechModule) (b : bool) : Prop :=
  TTS.error_callback s = ecb ∧ TTS.playback_callback s = pcb
  ∧ (pcb = None → b = false).

(** The flag is down and the observer has been told so. *)
Definition settled (s : TTS.TextToSpeechModule) (b : bool) : Prop :=
  TTS.is_playing s = false ∧ b = false.

Definition initialized (s : TTS.TextToSpeechModule) : Prop :=
  TTS.is_mixer_initialized s = true.

(** ** The preparation step in the words of the specification *)

(** A position [j] holding [x] counts for [rfind c] in the window
    [lo .. hi). *)
Definition hit (c lo hi x j : Z) : bool :=
  (x =? c) && (lo <=? j) && (j <? hi).


Definition is_space_at (text : pystr) (q : Z) : bool :=
  (0 <=? q) && bool_decide (text !! Z.to_nat q = Some 32).

(** Looking backward from the cut: positions [cut - k], [cut - k - 1],
    ..., [n] of them. *)
Fixpoint scan_back (text : pystr) (cut : Z) (k n : nat) : option Z :=
  match n with
  | O => None
  | S n' =>
      if is_space_at text (cut - Z.of_nat k) then Some (cut - Z.of_nat k)
      else scan_back text cut (S k) n'
  end.

(** The nearest space before the cut, less than 20 characters away. *)
Definition nearest_space_before (text : pystr) (cut : Z) : option Z :=
  scan_back text cut 1 19.

(** "Cut at [chunk_size] characters, adjusted backward to the nearest
    preceding space if one exists within 20 characters." *)
Definition spec_cut_point (chunk_size : Z) (text : pystr) : Z :=
  default chunk_size (nearest_space_before text chunk_size).

(** "The last [n] characters, or the whole string if shorter." *)
Definition last_chars (n : Z) (text : pystr) : pystr :=
  if Py.len text <? n then text
  else drop (Z.to_nat (Py.len text - n)) text.

Definition spec_prepare (st : SimulTransStrategy) (new_text : pystr)
    (is_final : bool) : option pystr * SimulTransStrategy :=
  if negb (should_translate st new_text is_final) then (None, st)
  else if is_final || Py.search_mark_at_end (Py.strip new_text) then
    (Some new_text, set_context st [])
  else
    let combined := previous_context st ++ new_text in
    let text :=
      if chunk_size st + overlap st <? Py.len combined
      then drop (Z.to_nat (spec_cut_point (chunk_size st) combined)) combined
      else combined in
    (Some text, set_context st (last_chars (overlap st) text)).
End Notions.

(* ===================================================================== *)
(** * Sample objects and outside worlds *)
(* ===================================================================== *)

Module Samples.
Local Open Scope Z_scope.

(** A sound device on which loading audio fails. *)
Definition broken_player : TTS.Env :=
  {| TTS.mixer_init := Ok tt;
     TTS.music_load := λ _, Raised (RuntimeError 7);
     TTS.music_play := Ok tt;
     TTS.busy_polls := 2;
     TTS.busy_end := Ok tt;
     TTS.music_unload := Ok tt;
     TTS.music_stop := Ok tt;
     TTS.synthesize := λ _ _, Ok [82; 73; 70; 70];
     TTS.thread_start := Ok tt;
     TTS.thread_joins := true |}.

(** A sound device that works; playback takes two polls. *)
Definition working_player : TTS.Env :=
  {| TTS.mixer_init := Ok tt;
     TTS.music_load := λ _, Ok tt;
     TTS.music_play := Ok tt;
     TTS.busy_polls := 2;
     TTS.busy_end := Ok tt;
     TTS.music_unload := Ok tt;
     TTS.music_stop := Ok tt;
     TTS.synthesize := λ _ _, Ok [82; 73; 70; 70];
     TTS.thread_start := Ok tt;
     TTS.thread_joins := true |}.

(** A machine without a usable sound device: the mixer cannot be
    initialised. *)
Definition no_mixer : TTS.Env :=
  {| TTS.mixer_init := Raised (RuntimeError 8);
     TTS.music_load := λ _, Ok tt;
     TTS.music_play := Ok tt;
     TTS.busy_polls := 0;
     TTS.busy_end := Ok tt;
     TTS.music_unload := Ok tt;
     TTS.music_stop := Ok tt;
     TTS.synthesize := λ _ _, Ok [82; 73; 70; 70];
     TTS.thread_start := Ok tt;
     TTS.thread_joins := true |}.

(** A module as the coordinator builds it: both callbacks return
    normally. *)
Definition tts_module : TTS.TextToSpeechModule :=
  TTS.new Settings.init (Some (λ _ _, Ok tt)) (Some (λ _, Ok tt)).

(** A module used on its own, with an error callback that raises. *)
Definition tts_module_raising : TTS.TextToSpeechModule :=
  TTS.new Settings.init (Some (λ _ _, Ok tt))
    (Some (λ _, Raised (RuntimeError 9))).

(** Models that recognise "ni hao" in every chunk, leave a mark in the
    cache, and punctuate by appending a full stop. *)
Definition working_models : AudioCapture.Env :=
  {| AudioCapture.asr_loads := true;
     AudioCapture.vad_loads := true;
     AudioCapture.punc_loads := true;
     AudioCapture.asr_generate :=
       λ _ c _, (Ok [lit "ni hao"], <[lit "frames" := 1]> c);
     AudioCapture.punc_generate := λ input, Ok [input ++ lit "."];
     AudioCapture.thread_start := Ok tt;
     AudioCapture.thread_joins := true;
     AudioCapture.stream_create := Ok tt;
     AudioCapture.stream_start := Ok tt;
     AudioCapture.stream_stopped := false;
     AudioCapture.stream_stop := Ok tt;
     AudioCapture.stream_close := Ok tt |}.

Definition audio_module : AudioCapture.AudioCaptureModule :=
  AudioCapture.set_asr_model_loaded true
    (AudioCapture.set_punc_model_loaded true
       (AudioCapture.new Settings.init (Some (λ _ _, Ok tt)) (Some (λ _, Ok tt)))).

(** The module between two utterances: nothing buffered, nothing
    pending, and a cache the recogniser has written to. *)
Definition idle_with_cache : AudioCapture.AudioCaptureModule :=
  AudioCapture.set_asr_cache {[ lit "frames" := 1 ]} audio_module.

(** The module with half a second of sound buffered. *)
Definition with_sound : AudioCapture.AudioCaptureModule :=
  AudioCapture.set_speech_buffer [3; 1; 4; 1; 5] idle_with_cache.

(** A voice as the service lists it. *)
Definition aria_voice : Voices.service_voice :=
  {| Voices.Locale := Some (lit "en-US");
     Voices.ShortName := Some (lit "en-US-AriaNeural");
     Voices.Gender := Some (lit "Female");
     Voices.FriendlyName := None |}.

(** A machine on which the models load and the microphone works, but
    the sound output cannot be opened. *)
Definition no_sound_output : Pipeline.Env :=
  {| Pipeline.audio_env := working_models;
     Pipeline.tts_env := no_mixer;
     Pipeline.translator_thread_start := Ok tt;
     Pipeline.translator_thread_joins := true;
     Pipeline.now := 1700000000;
     Pipeline.translation_model_loads := true;
     Pipeline.voices_listing := Ok [aria_voice] |}.

(** A machine on which everything works. *)
Definition working_machine : Pipeline.Env :=
  {| Pipeline.audio_env := working_models;
     Pipeline.tts_env := working_player;
     Pipeline.translator_thread_start := Ok tt;
     Pipeline.translator_thread_joins := true;
     Pipeline.now := 1700000000;
     Pipeline.translation_model_loads := true;
     Pipeline.voices_listing := Ok [aria_voice] |}.

(** The coordinator after a successful [initialize("zh", "en")]. *)
Definition initialized_pipeline : Pipeline.Pipeline :=
  final (Pipeline.initialize no_sound_output (lit "zh") (lit "en")
           (Pipeline.new Settings.init)).

(** The same coordinator in the middle of a session, with a started
    text-to-speech service. *)
Definition pipeline_in_session : Pipeline.Pipeline :=
  Pipeline.set_current_session
    (Some {| Pipeline.session_id := 1700000000;
             Pipeline.source_language := lit "zh";
             Pipeline.target_language := lit "en";
             Pipeline.start_time := 1700000000;
             Pipeline.total_text_length := 0;
             Pipeline.total_translations := 0 |})
    (Pipeline.set_tts_module (Some (TTS.set_running true tts_module))
       initialized_pipeline).
End Samples.

(* ===================================================================== *)
(** * modules/translator.py: translating a text *)
(* ===================================================================== *)

Module TranslatorWork.
Import Translator.
Local Open Scope Z_scope.

(** The character class [[.!?]] of [re.sub(r'([.!?]){2,}', r'\1', s)]. *)
Definition ascii_mark (c : Z) : bool := (c =? 46) || (c =? 33) || (c =? 63).

(** [re.sub(r'([.!?]){2,}', r'\1', s)]: the pattern matches every maximal
    run of two or more marks, the group holds the last mark of the run,
    and the run is replaced by it.  So a mark goes exactly when another
    mark follows it. *)
Fixpoint squeeze_marks (s : pystr) : pystr :=
  match s with
  | [] => []
  | x :: rest =>
      if ascii_mark x
         && match rest with y :: _ => ascii_mark y | [] => false end
      then squeeze_marks rest
      else x :: squeeze_marks rest
  end.

(** [_post_process_translation] *)
Definition post_process_translation (translated_text : pystr) : pystr :=
  let t := squeeze_marks (Py.strip translated_text) in
  if Py.truthy t && negb (Py.search_mark_at_end t) then t ++ lit "." else t.

(** The error texts of [_translate_text] and of the worker. *)
Inductive work_msg : Type :=
| TranslateError (e : exn)
| WorkerError (e : exn)
| NotInitialised.

Inductive work_event : Type :=
| Generate (text : pystr)            (* tokenizer, [model.generate], decode *)
| WorkErrorCallback (m : work_msg)
| Report (text : pystr) (is_final : bool).

(** The model: what tokenizing, generating and decoding make of a text;
    what the module's error callback does with the messages of these
    methods, and what its translation callback does with a result. *)
Record Env : Type := {
  generate : pystr → outcome pystr;
  on_error : work_msg → outcome unit;
  on_translation : pystr → bool → outcome unit
}.

Definition with_cache (c : gmap pystr pystr) (t : TranslationModule)
  : TranslationModule :=
  {| translation_callback := translation_callback t;
     error_callback := error_callback t; model_loaded := model_loaded t;
     running := running t; simul_strategy := simul_strategy t;
     translation_queue := translation_queue t; thread_alive := thread_alive t;
     last_translated_text := last_translated_text t;
     translation_cache := c |}.

Definition with_strategy (st : SimulTransStrategy) (t : TranslationModule)
  : TranslationModule :=
  {| translation_callback := translation_callback t;
     error_callback := error_callback t; model_loaded := model_loaded t;
     running := running t; simul_strategy := st;
     translation_queue := translation_queue t; thread_alive := thread_alive t;
     last_translated_text := last_translated_text t;
     translation_cache := translation_cache t |}.

Definition with_last (x : pystr) (t : TranslationModule) : TranslationModule :=
  {| translation_callback := translation_callback t;
     error_callback := error_callback t; model_loaded := model_loaded t;
     running := running t; simul_strategy := simul_strategy t;
     translation_queue := translation_queue t; thread_alive := thread_alive t;
     last_translated_text := x;
     translation_cache := translation_cache t |}.

(** [s.startswith(prefix)] *)
Definition startswith (s prefix : pystr) : bool :=
  bool_decide (take (length prefix) s = prefix).

Section WithEnv.
Variable env : Env.

Definition report_translation (translated_text : pystr) (is_final : bool)
  : M work_event TranslationModule unit :=
  cb <- gets translation_callback ;;
  match cb with
  | Some _ =>
      extern (Report translated_text is_final)
        (on_translation env translated_text is_final)
  | None => ret tt
  end.

Definition report_work_error (m : work_msg) : M work_event TranslationModule unit :=
  cb <- gets error_callback ;;
  match cb with
  | Some _ => extern (WorkErrorCallback m) (on_error env m)
  | None => ret tt
  end.

(** [_translate_text]: the answer is [None] after an error.  The cache is
    asked with the text as given and filled under the stripped text.
    Without a tokenizer the call of [self.tokenizer] raises. *)
Definition translate_text (text : pystr)
  : M work_event TranslationModule (option pystr) :=
  if Py.blank text then ret (Some [])
  else
    cache <- gets translation_cache ;;
    match cache !! text with
    | Some cached => ret (Some cached)
    | None =>
        try_except
          (let text := Py.strip text in
           loaded <- gets model_loaded ;;
           (if loaded then ret tt else raise (RuntimeError 0)) ;;
           decoded <- extern (Generate text) (generate env text) ;;
           let translated := post_process_translation decoded in
           cache <- gets translation_cache ;;
           modify (with_cache (<[text := translated]> cache)) ;;
           ret (Some translated))
          (λ e, report_work_error (TranslateError e) ;; ret None)
    end.

(** One turn of [translation_worker] on a task taken from the queue.
    The strategy keeps its new context also when what follows raises. *)
Definition worker_turn (task : pystr * bool)
  : M work_event TranslationModule unit :=
  let '(text, is_final) := task in
  try_except
    (st <- gets simul_strategy ;;
     let prepared := prepare_text_for_translation st text is_final in
     modify (with_strategy prepared.2) ;;
     match prepared.1 with
     | None => ret tt
     | Some text_to_translate =>
         translated <- translate_text text_to_translate ;;
         match translated with
         | None => ret tt
         | Some translated =>
             last <- gets last_translated_text ;;
             if negb is_final && Py.truthy last then
               (if startswith translated last then
                  let new_part :=
                    Py.strip (Py.slice_from translated (Py.len last)) in
                  when (Py.truthy new_part)
                    (report_translation new_part is_final)
                else report_translation translated is_final) ;;
               modify (with_last (if is_final then [] else translated))
             else
               report_translation translated is_final ;;
               modify (with_last (if is_final then [] else translated))
         end
     end)
    (λ e, report_work_error (WorkerError e)).

(** [translate_immediate] *)
Definition translate_immediate (text : pystr)
  : M work_event TranslationModule (option pystr) :=
  loaded <- gets model_loaded ;;
  if negb loaded then report_work_error NotInitialised ;; ret None
  else translate_text text.

(** [clear_cache] *)
Definition clear_cache : M work_event TranslationModule unit :=
  modify (with_cache ∅) ;;
  modify (λ t, with_strategy (reset (simul_strategy t)) t).
End WithEnv.
End TranslatorWork.

(* ===================================================================== *)
(** * Further notions used in the statements *)
(* ===================================================================== *)

Module MoreNotions.
Local Open Scope Z_scope.

(** No white space at either end. *)
Definition trimmed (s : pystr) : Prop :=
  (∀ c, head s = Some c → Py.is_space c = false)
  ∧ (∀ c, list.last s = Some c → Py.is_space c = false).

(** No mark of [[.!?]] is followed by another one. *)
Fixpoint squeezed (s : pystr) : Prop :=
  match s with
  | [] => True
  | x :: rest =>
      (TranslatorWork.ascii_mark x
       && match rest with y :: _ => TranslatorWork.ascii_mark y | [] => false end)
      = false
      ∧ squeezed rest
  end.

(** Empty, or ending in one of the sentence marks. *)
Definition ends_sentence (s : pystr) : Prop :=
  s = [] ∨ ∃ c, list.last s = Some c ∧ Py.sentence_mark c = true.

(** A listed voice that has the three keys the catalogue reads with
    [voice[...]]. *)
Definition complete (v : Voices.service_voice) : Prop :=
  is_Some (Voices.Locale v) ∧ is_Some (Voices.ShortName v)
  ∧ is_Some (Voices.Gender v).

(** The catalogue entry made of a listed voice. *)
Definition entry_of (v : Voices.service_voice) : Voices.voice :=
  {| Voices.name := default [] (Voices.ShortName v);
     Voices.gender := default [] (Voices.Gender v);
     Voices.friendly_name := default [] (Voices.FriendlyName v);
     Voices.locale := default [] (Voices.Locale v) |}.

(** The entries of the listed voices of one locale, in the order of the
    list. *)
Definition listed (language_code : pystr) (vs : list Voices.service_voice)
  : list Voices.voice :=
  entry_of <$> filter (λ v, Voices.Locale v = Some language_code) vs.

(** What a listener to the text callback has heard as final, each text
    followed by a space. *)
Definition heard_final (e : AudioCapture.event) : pystr :=
  match e with
  | AudioCapture.TextCallback text true => text ++ lit " "
  | _ => []
  end.

Definition finals (tr : list AudioCapture.event) : pystr :=
  flat_map heard_final tr.

(** The text callbacks among the events all carry the flag [fin]. *)
Definition flagged (fin : bool) (tr : list AudioCapture.event) : Prop :=
  ∀ text b, AudioCapture.TextCallback text b ∈ tr → b = fin.

(** The observer that collects the final texts. *)
Definition hear (b : pystr) (e : AudioCapture.event) : pystr :=
  b ++ heard_final e.

(** The transcript is what the listener [f] has heard as final. *)
Definition in_step (f : pystr → bool → outcome unit)
    (s : AudioCapture.AudioCaptureModule) (b : pystr) : Prop :=
  AudioCapture.text_callback s = Some f
  ∧ AudioCapture.complete_transcript s = b.

(** The observer that checks the flag of every text callback. *)
Definition flag_ok (fin : bool) (e : AudioCapture.event) : bool :=
  match e with
  | AudioCapture.TextCallback _ b => bool_decide (b = fin)
  | _ => true
  end.

Definition check (fin : bool) (b : bool) (e : AudioCapture.event) : bool :=
  b && flag_ok fin e.

Definition fine (s : AudioCapture.AudioCaptureModule) (b : bool) : Prop :=
  b = true.

(** The audio capture at rest: not running and without a stream. *)
Definition stopped (a : AudioCapture.AudioCaptureModule) : Prop :=
  AudioCapture.running a = false ∧ AudioCapture.stream_open a = false.

(** An error callback of the audio capture that returns. *)
Definition quiet_error_callback (a : AudioCapture.AudioCaptureModule) : Prop :=
  ∀ f m, AudioCapture.error_callback a = Some f → f m = Ok tt.

(** Both caches of the model manager are those of [m0]. *)
Definition same_caches (m0 m : ModelManager.ModelManager) : Prop :=
  ModelManager.model_cache m = ModelManager.model_cache m0
  ∧ ModelManager.tokenizer_cache m = ModelManager.tokenizer_cache m0.

(** [is_model_downloaded] answers [True]. *)
Definition marked (model_type name : pystr) (m : ModelManager.ModelManager)
  : Prop :=
  ModelManager.is_model_downloaded m name model_type = true.

(** The translation module is [t0] up to its cache. *)
Definition same_but_cache (t0 t : Translator.TranslationModule) : Prop :=
  Translator.translation_callback t = Translator.translation_callback t0
  ∧ Translator.error_callback t = Translator.error_callback t0
  ∧ Translator.simul_strategy t = Translator.simul_strategy t0
  ∧ Translator.last_translated_text t = Translator.last_translated_text t0.

(** Whether the coordinator and each of its services is running. *)
Definition flags (p : Pipeline.Pipeline) : bool * bool * bool * bool :=
  (Pipeline.is_running p, Pipeline.translator_running p,
   Pipeline.tts_running p, Pipeline.audio_running p).

Definition same_flags (x : bool * bool * bool * bool) (p : Pipeline.Pipeline)
  : Prop :=
  flags p = x.

(** A computation that does not answer [True]. *)
Definition not_true {S} (m : M Pipeline.event S bool) : Prop :=
  ∀ s, result (m s) ≠ Ok true.

(** The audio module's error callback, if the module is there, returns. *)
Definition audio_errors_quiet (p : Pipeline.Pipeline) : Prop :=
  ∀ a, Pipeline.audio_module p = Some a → quiet_error_callback a.

(** The keys of the translation cache are stripped, non-blank texts. *)
Definition keys_trimmed (t : Translator.TranslationModule) : Prop :=
  ∀ k v, Translator.translation_cache t !! k = Some v →
         Py.strip k = k ∧ Py.blank k = false.
End MoreNotions.

(* ===================================================================== *)
(** * Further sample objects *)
(* ===================================================================== *)

Module MoreSamples.
Local Open Scope Z_scope.

(** A translation model that answers every text with "ok". *)
Definition ok_model : TranslatorWork.Env :=
  {| TranslatorWork.generate := λ _, Ok (lit "ok");
     TranslatorWork.on_error := λ _, Ok tt;
     TranslatorWork.on_translation := λ _ _, Ok tt |}.

(** A translation model that raises on every text, with a translation
    callback that raises as well. *)
Definition broken_model : TranslatorWork.Env :=
  {| TranslatorWork.generate := λ _, Raised (RuntimeError 6);
     TranslatorWork.on_error := λ _, Ok tt;
     TranslatorWork.on_translation := λ _ _, Raised (RuntimeError 9) |}.

(** A translation module with its model loaded. *)
Definition translator : Translator.TranslationModule :=
  Translator.with_model_loaded true
    (Translator.new Settings.init (Some (λ _ _, Ok tt)) (Some (λ _, Ok tt))).

(** Loaders that deliver: every model and tokenizer is found, and the
    status file can be written. *)
Definition loaders : ModelManager.Env :=
  {| ModelManager.auto_model := λ n _, Ok n;
     ModelManager.tokenizer_from_pretrained := λ n _ _, Ok n;
     ModelManager.model_from_pretrained := λ n _ _, Ok n;
     ModelManager.save_model_status := λ _, Ok tt |}.

(** No network and nothing on disk: every loader raises. *)
Definition no_loaders : ModelManager.Env :=
  {| ModelManager.auto_model := λ _ _, Raised (RuntimeError 4);
     ModelManager.tokenizer_from_pretrained := λ _ _ _, Raised (RuntimeError 4);
     ModelManager.model_from_pretrained := λ _ _ _, Raised (RuntimeError 4);
     ModelManager.save_model_status := λ _, Ok tt |}.

Definition manager : ModelManager.ModelManager :=
  ModelManager.new (lit "models/cached_models") ∅.

(** A machine on which no thread can be started. *)
Definition no_threads : TTS.Env :=
  {| TTS.mixer_init := Ok tt;
     TTS.music_load := λ _, Ok tt;
     TTS.music_play := Ok tt;
     TTS.busy_polls := 0;
     TTS.busy_end := Ok tt;
     TTS.music_unload := Ok tt;
     TTS.music_stop := Ok tt;
     TTS.synthesize := λ _ _, Ok [82; 73; 70; 70];
     TTS.thread_start := Raised (RuntimeError 5);
     TTS.thread_joins := true |}.

Definition aria : Voices.service_voice :=
  {| Voices.Locale := Some (lit "en-US");
     Voices.ShortName := Some (lit "en-US-AriaNeural");
     Voices.Gender := Some (lit "Female");
     Voices.FriendlyName := None |}.

Definition guy : Voices.service_voice :=
  {| Voices.Locale := Some (lit "en-US");
     Voices.ShortName := Some (lit "en-US-GuyNeural");
     Voices.Gender := Some (lit "Male");
     Voices.FriendlyName := Some (lit "Guy") |}.

Definition xiaoxiao : Voices.service_voice :=
  {| Voices.Locale := Some (lit "zh-CN");
     Voices.ShortName := Some (lit "zh-CN-XiaoxiaoNeural");
     Voices.Gender := Some (lit "Female");
     Voices.FriendlyName := None |}.

(** A voice service that lists three voices. *)
Definition voice_service : Voices.Env :=
  {| Voices.voices_manager_create := Ok [guy; xiaoxiao; aria];
     Voices.error_callback := Some (λ _, Ok tt) |}.

Definition no_voices : Voices.VoiceStore :=
  {| Voices.available_voices := ∅; Voices.voices_loaded := false |}.
End MoreSamples.

(* ===================================================================== *)
(** * Rules for triples *)
(* ===================================================================== *)

Section Rules.
Context {E S : Type}.
Implicit Types (P : S → Prop).

Lemma hoare_conseq {A} P P' (m : M E S A) (Q Q' : outcome A → S → Prop) :
  (∀ s, P' s → P s) → (∀ r s, Q r s → Q' r s) →
  hoare P m Q → hoare P' m Q'.
Proof. unfold hoare. eauto. Qed.

Lemma hoare_any {A} P (m : M E S A) (Q : outcome A → S → Prop) :
  (∀ r s, Q r s) → hoare P m Q.
Proof. unfold hoare. eauto. Qed.

Lemma hoare_ret {A} P (a : A) (Q : outcome A → S → Prop) :
  (∀ s, P s → Q (Ok a) s) → hoare P (ret a : M E S A) Q.
Proof. unfold hoare, ret. eauto. Qed.

Lemma hoare_raise {A} P (e : exn) (Q : outcome A → S → Prop) :
  (∀ s, P s → Q (Raised e) s) → hoare P (raise e : M E S A) Q.
Proof. unfold hoare, raise. eauto. Qed.

Lemma hoare_gets {A} P (f : S → A) (Q : outcome A → S → Prop) :
  (∀ s, P s → Q (Ok (f s)) s) → hoare P (gets f : M E S A) Q.
Proof. unfold hoare, gets. eauto. Qed.

Lemma hoare_modify P (f : S → S) (Q : outcome unit → S → Prop) :
  (∀ s, P s → Q (Ok tt) (f s)) → hoare P (modify f : M E S unit) Q.
Proof. unfold hoare, modify. eauto. Qed.

Lemma hoare_emit P (e : E) (Q : outcome unit → S → Prop) :
  (∀ s, P s → Q (Ok tt) s) → hoare P (emit e : M E S unit) Q.
Proof. unfold hoare, emit. eauto. Qed.

Lemma hoare_extern {A} P (e : E) (o : outcome A) (Q : outcome A → S → Prop) :
  (∀ s, P s → Q o s) → hoare P (extern e o : M E S A) Q.
Proof. unfold hoare, extern. eauto. Qed.

Lemma hoare_bind {A B} P (R : A → S → Prop) (m : M E S A) (k : A → M E S B)
    (Q : outcome B → S → Prop) :
  hoare P m (λ r s, match r with Ok a => R a s | Raised e => Q (Raised e) s end) →
  (∀ a, hoare (R a) (k a) Q) →
  hoare P (bind m k) Q.
Proof.
  unfold hoare, bind, result, final. intros Hm Hk s Hs.
  specialize (Hm s Hs). destruct (m s) as [[[a|e] s1] t1]; simpl in *.
  - specialize (Hk a s1 Hm). by destruct (k a s1) as [[r s2] t2].
  - done.
Qed.

Lemma hoare_try {A} P (R : exn → S → Prop) (m : M E S A) (h : exn → M E S A)
    (Q : outcome A → S → Prop) :
  hoare P m (λ r s, match r with Ok a => Q (Ok a) s | Raised e => R e s end) →
  (∀ e, hoare (R e) (h e) Q) →
  hoare P (try_except m h) Q.
Proof.
  unfold hoare, try_except, result, final. intros Hm Hh s Hs.
  specialize (Hm s Hs). destruct (m s) as [[[a|e] s1] t1]; simpl in *.
  - done.
  - specialize (Hh e s1 Hm). by destruct (h e s1) as [[r s2] t2].
Qed.

(** The same rules for a property that is kept throughout. *)
Lemma preserves_ret {A} P (a : A) : preserves P (ret a : M E S A).
Proof. by apply hoare_ret. Qed.

Lemma preserves_raise {A} P e : preserves P (raise e : M E S A).
Proof. by apply hoare_raise. Qed.

Lemma preserves_gets {A} P (f : S → A) : preserves P (gets f : M E S A).
Proof. by apply hoare_gets. Qed.

Lemma preserves_emit P (e : E) : preserves P (emit e : M E S unit).
Proof. by apply hoare_emit. Qed.

Lemma preserves_extern {A} P (e : E) (o : outcome A) :
  preserves P (extern e o : M E S A).
Proof. by apply hoare_extern. Qed.

Lemma preserves_modify P (f : S → S) :
  (∀ s, P s → P (f s)) → preserves P (modify f : M E S unit).
Proof. intros. by apply hoare_modify. Qed.

Lemma preserves_bind {A B} P (m : M E S A) (k : A → M E S B) :
  preserves P m → (∀ a, preserves P (k a)) → preserves P (bind m k).
Proof.
  intros Hm Hk. apply (hoare_bind P (λ _, P)); [ | done ].
  eapply hoare_conseq; [ | | exact Hm ]; [ done | ]. by intros [a|e].
Qed.

Lemma preserves_try {A} P (m : M E S A) (h : exn → M E S A) :
  preserves P m → (∀ e, preserves P (h e)) → preserves P (try_except m h).
Proof.
  intros Hm Hh. apply (hoare_try P (λ _, P)); [ | done ].
  eapply hoare_conseq; [ | | exact Hm ]; [ done | ]. by intros [a|e].
Qed.

Lemma preserves_when P (b : bool) (m : M E S unit) :
  preserves P m → preserves P (when b m).
Proof. intros. destruct b; [ done | apply preserves_ret ]. Qed.
End Rules.

Create HintDb keeps discriminated.

(** Split a computation along its structure; steps already known to keep
    the property are closed from the hint database. *)
Ltac keep :=
  repeat first
    [ solve [ auto with keeps nocore ]
    | apply preserves_ret | apply preserves_raise | apply preserves_gets
    | apply preserves_emit | apply preserves_extern | apply preserves_when
    | apply preserves_bind; [ | intros ? ]
    | apply preserves_try; [ | intros ? ]
    | match goal with
      | |- preserves _ (if ?b then _ else _) => destruct b
      | |- preserves _ (match ?x with _ => _ end) => destruct x
      end
    | apply preserves_modify; intros ? ? ].

Section SuccessRules.
Context {E S : Type}.
Implicit Types (P : S → Prop).

Lemma succeeds_ret {A} P (a : A) : succeeds P (ret a : M E S A).
Proof. by apply hoare_ret. Qed.

Lemma succeeds_gets {A} P (f : S → A) : succeeds P (gets f : M E S A).
Proof. by apply hoare_gets. Qed.

Lemma succeeds_emit P (e : E) : succeeds P (emit e : M E S unit).
Proof. by apply hoare_emit. Qed.

Lemma succeeds_modify P (f : S → S) :
  (∀ s, P s → P (f s)) → succeeds P (modify f : M E S unit).
Proof. intros H. apply hoare_modify. intros s Hs. split; [ done | auto ]. Qed.

Lemma succeeds_extern {A} P (e : E) (o : outcome A) :
  is_ok o = true → succeeds P (extern e o : M E S A).
Proof. intros H. by apply hoare_extern. Qed.

Lemma succeeds_bind {A B} P (m : M E S A) (k : A → M E S B) :
  succeeds P m → (∀ a, succeeds P (k a)) → succeeds P (bind m k).
Proof.
  intros Hm Hk. apply (hoare_bind P (λ _, P)); [ | done ].
  eapply hoare_conseq; [ | | exact Hm ]; [ done | ].
  intros [a|e] s [? ?]; done.
Qed.

Lemma succeeds_try {A} P (m : M E S A) (h : exn → M E S A) :
  succeeds P m → succeeds P (try_except m h).
Proof.
  intros Hm. apply (hoare_try P (λ _ _, False)); [ | by intros e s [] ].
  eapply hoare_conseq; [ | | exact Hm ]; [ done | ].
  intros [a|e] s [? ?]; done.
Qed.

Lemma succeeds_when P (b : bool) (m : M E S unit) :
  succeeds P m → succeeds P (when b m).
Proof. intros. destruct b; [ done | apply succeeds_ret ]. Qed.

(** After a computation that succeeds the next one starts from [P]. *)
Lemma hoare_after {A B} P (m : M E S A) (k : A → M E S B)
    (Q : outcome B → S → Prop) :
  succeeds P m → (∀ a, hoare P (k a) Q) → hoare P (bind m k) Q.
Proof.
  intros Hm Hk. apply (hoare_bind P (λ _, P)); [ | done ].
  eapply hoare_conseq; [ | | exact Hm ]; [ done | ].
  intros [a|e] s [? ?]; done.
Qed.
End SuccessRules.

Create HintDb calms discriminated.

Ltac calm :=
  repeat first
    [ solve [ auto with calms nocore ]
    | apply succeeds_ret | apply succeeds_gets | apply succeeds_emit
    | apply succeeds_when | apply succeeds_try
    | apply succeeds_bind; [ | intros ? ]
    | match goal with
      | |- succeeds _ (if ?b then _ else _) => destruct b
      | |- succeeds _ (match ?x with _ => _ end) => destruct x
      end
    | apply succeeds_modify; intros ? ?
    | apply succeeds_extern ].

Section ObserverRules.
Context {E S B : Type} (step : B → E → B).
Implicit Types (P : S → B → Prop).

Lemma observed_conseq {A} P P' (m : M E S A) (Q Q' : outcome A → S → B → Prop) :
  (∀ s b, P' s b → P s b) → (∀ r s b, Q r s b → Q' r s b) →
  observed step P m Q → observed step P' m Q'.
Proof. unfold observed. eauto. Qed.

Lemma observed_ret {A} P (a : A) (Q : outcome A → S → B → Prop) :
  (∀ s b, P s b → Q (Ok a) s b) → observed step P (ret a) Q.
Proof. unfold observed, ret. simpl. eauto. Qed.

Lemma observed_raise {A} P (e : exn) (Q : outcome A → S → B → Prop) :
  (∀ s b, P s b → Q (Raised e) s b) → observed step P (raise e) Q.
Proof. unfold observed, raise. simpl. eauto. Qed.

Lemma observed_gets {A} P (f : S → A) (Q : outcome A → S → B → Prop) :
  (∀ s b, P s b → Q (Ok (f s)) s b) → observed step P (gets f) Q.
Proof. unfold observed, gets. simpl. eauto. Qed.

Lemma observed_modify P (f : S → S) (Q : outcome unit → S → B → Prop) :
  (∀ s b, P s b → Q (Ok tt) (f s) b) → observed step P (modify f) Q.
Proof. unfold observed, modify. simpl. eauto. Qed.

Lemma observed_emit P (e : E) (Q : outcome unit → S → B → Prop) :
  (∀ s b, P s b → Q (Ok tt) s (step b e)) → observed step P (emit e) Q.
Proof. unfold observed, emit. simpl. eauto. Qed.

Lemma observed_extern {A} P (e : E) (o : outcome A)
    (Q : outcome A → S → B → Prop) :
  (∀ s b, P s b → Q o s (step b e)) → observed step P (extern e o) Q.
Proof. unfold observed, extern. simpl. eauto. Qed.

Lemma observed_bind {A C} P (R : A → S → B → Prop) (m : M E S A)
    (k : A → M E S C) (Q : outcome C → S → B → Prop) :
  observed step P m
    (λ r s b, match r with Ok a => R a s b | Raised e => Q (Raised e) s b end) →
  (∀ a, observed step (R a) (k a) Q) →
  observed step P (bind m k) Q.
Proof.
  unfold observed, bind, result, final, events. intros Hm Hk s b Hs.
  specialize (Hm s b Hs). destruct (m s) as [[[a|e] s1] t1]; simpl in *.
  - specialize (Hk a s1 _ Hm). destruct (k a s1) as [[r s2] t2]; simpl in *.
    by rewrite fold_left_app.
  - done.
Qed.

(** A step that keeps [J], inside a computation whose exceptional
    outcomes only need [J]. *)
Lemma observed_step {A C} (J : S → B → Prop) (m : M E S A)
    (k : A → M E S C) (Q : outcome C → S → B → Prop) :
  observed step J m (λ _, J) →
  (∀ e s b, J s b → Q (Raised e) s b) →
  (∀ a, observed step J (k a) Q) →
  observed step J (bind m k) Q.
Proof.
  intros Hm HQ Hk. apply (observed_bind J (λ _, J)); [ | done ].
  eapply observed_conseq; [ | | exact Hm ]; [ done | ].
  intros [a|e] s b H; [ done | by apply HQ ].
Qed.

Lemma observed_try {A} P (R : exn → S → B → Prop) (m : M E S A)
    (h : exn → M E S A) (Q : outcome A → S → B → Prop) :
  observed step P m
    (λ r s b, match r with Ok a => Q (Ok a) s b | Raised e => R e s b end) →
  (∀ e, observed step (R e) (h e) Q) →
  observed step P (try_except m h) Q.
Proof.
  unfold observed, try_except, result, final, events. intros Hm Hh s b Hs.
  specialize (Hm s b Hs). destruct (m s) as [[[a|e] s1] t1]; simpl in *.
  - done.
  - specialize (Hh e s1 _ Hm). destruct (h e s1) as [[r s2] t2]; simpl in *.
    by rewrite fold_left_app.
Qed.
End ObserverRules.

(* ===================================================================== *)
(** * The embedding at work *)
(* ===================================================================== *)

Section Runs.
Local Open Scope Z_scope.

(** The thresholds of the strategy with [chunk_size=10]: a short text
    waits, a long one or one with a sentence mark is translated, a final
    one always. *)
Example should_translate_thresholds :
  let st := Translator.new_strategy 10 3 in
  Translator.should_translate st [30701] false = false
  ∧ Translator.should_translate st
      [36825; 26159; 19968; 20010; 24456; 38271; 30340; 25991; 26412; 65292;
       36229; 36807; 20102; 22359; 22823; 23567; 38480; 21046] false = true
  ∧ Translator.should_translate st [30701; 21477; 12290] false = true
  ∧ Translator.should_translate st [30701] true = true.
Proof. repeat split. Qed.

(** With the default sizes a long text is cut at the last space before
    character 128, and the last 32 characters are kept as context. *)
Example prepare_text_cuts_at_space :
  let st := Translator.new_strategy 128 32 in
  let words := lit "translate " in
  let text := concat (replicate 17 words) in
  Py.len text = 170
  ∧ (Translator.prepare_text_for_translation st text false).1
    = Some (Py.slice_from text 119)
  ∧ Translator.previous_context
      (Translator.prepare_text_for_translation st text false).2
    = Py.slice_from text 138.
Proof. repeat split. Qed.

(** A final flush of buffered sound: the recogniser and the punctuation
    model are asked, the punctuated text goes to the callback and into
    the transcript, and buffer and cache end up empty. *)
Example final_flush_run :
  let r := AudioCapture.process_asr_buffer Samples.working_models true
             Samples.with_sound in
  events r
  = [ AudioCapture.AsrGenerate [3; 1; 4; 1; 5] true;
      AudioCapture.PuncGenerate (lit "ni hao");
      AudioCapture.TextCallback (lit "ni hao.") true ]
  ∧ AudioCapture.complete_transcript (final r) = lit "ni hao. "
  ∧ AudioCapture.speech_buffer (final r) = []
  ∧ AudioCapture.asr_cache (final r) = ∅.
Proof. repeat split. Qed.

(** A playback that goes well. *)
Example playback_run :
  let r := TTS.play_audio_from_memory Samples.working_player [82; 73]
             (lit "hello") Samples.tts_module in
  result r = Ok tt
  ∧ events r
    = [ TTS.MixerInit; TTS.PlaybackCallback (lit "hello") true;
        TTS.MusicLoad [82; 73]; TTS.MusicPlay;
        TTS.MusicGetBusy; TTS.Sleep; TTS.MusicGetBusy; TTS.Sleep;
        TTS.MusicGetBusy; TTS.MusicUnload;
        TTS.PlaybackCallback (lit "hello") false ]
  ∧ TTS.is_playing (final r) = false.
Proof. repeat split. Qed.

(** On a working machine [start_translation] starts the three services,
    and [stop_translation] afterwards stops the three of them. *)
Example start_then_stop_run :
  let started :=
    Pipeline.start_translation Samples.working_machine
      Samples.initialized_pipeline in
  let stopped := Pipeline.stop_translation Samples.working_machine (final started) in
  result started = Ok true
  ∧ Pipeline.is_running (final started) = true
  ∧ Pipeline.translator_running (final started) = true
  ∧ Pipeline.tts_running (final started) = true
  ∧ Pipeline.audio_running (final started) = true
  ∧ Pipeline.sessions_count (final started) = 1
  ∧ Pipeline.is_running (final stopped) = false
  ∧ Pipeline.translator_running (final stopped) = false
  ∧ Pipeline.tts_running (final stopped) = false
  ∧ Pipeline.audio_running (final stopped) = false
  ∧ Pipeline.current_session (final stopped) = None.
Proof. vm_compute. repeat split. Qed.
End Runs.

(* ===================================================================== *)
(** * Properties of the configuration store *)
(* ===================================================================== *)

Section SettingsFacts.
Import Settings Notions.

(** A key with one hyphen is the key of one pair only. *)
Lemma lang_pair_inj (a b s t : pystr) :
  45%Z ∉ a → 45%Z ∉ b →
  lang_pair s t = lang_pair a b → s = a ∧ t = b.
Proof.
  unfold lang_pair. change (lit "-") with [45%Z]. simpl.
  intros Ha Hb. revert s.
  induction a as [|y a IH]; intros [|x s] H; simpl in H.
  - by injection H as ->.
  - injection H as -> <-. exfalso. apply Hb.
    apply elem_of_app. right. apply list_elem_of_here.
  - injection H as <- _. exfalso. apply Ha. apply list_elem_of_here.
  - injection H as -> H. apply not_elem_of_cons in Ha as [_ Ha].
    by destruct (IH Ha s H) as [-> ->].
Qed.

Ltac split_key H :=
  let go a b :=
    apply (lang_pair_inj (lit a) (lit b)) in H as [-> ->];
    [ | compute_done .. ] in
  first [ go "zh" "en" | go "en" "zh" | go "zh" "ja" | go "ja" "zh"
        | go "en" "ja" | go "ja" "en" | go "zh" "ko" | go "ko" "zh" ].

Lemma default_table_lookup (s t v : pystr) :
  default_translation_models !! lang_pair s t = Some v →
  (s, t) ∈ declared_pairs ∧ v = templated_model s t.
Proof.
  intros H. apply elem_of_list_to_map_2 in H.
  repeat (apply elem_of_cons in H as [H | H]);
    [ .. | by apply elem_of_nil in H ];
    inversion H as [[Hk Hv]]; clear H; split_key Hk;
    (split; [ compute_done | reflexivity ]).
Qed.

(** C6.  [get_translation_model] is a total function to strings.  On the
    default table it returns, for each of the eight declared pairs, the
    declared identifier, and for every other pair (for example fr, ru)
    the identifier templated from the two codes. *)
Theorem get_translation_model_complete (cfg : SystemConfig) :
  translation_models (model cfg) = default_translation_models →
  (∀ s t, ∃ name : pystr, get_translation_model cfg s t = name) ∧
  get_translation_model cfg (lit "zh") (lit "en") = lit "Helsinki-NLP/opus-mt-zh-en" ∧
  get_translation_model cfg (lit "en") (lit "zh") = lit "Helsinki-NLP/opus-mt-en-zh" ∧
  get_translation_model cfg (lit "zh") (lit "ja") = lit "Helsinki-NLP/opus-mt-zh-ja" ∧
  get_translation_model cfg (lit "ja") (lit "zh") = lit "Helsinki-NLP/opus-mt-ja-zh" ∧
  get_translation_model cfg (lit "en") (lit "ja") = lit "Helsinki-NLP/opus-mt-en-ja" ∧
  get_translation_model cfg (lit "ja") (lit "en") = lit "Helsinki-NLP/opus-mt-ja-en" ∧
  get_translation_model cfg (lit "zh") (lit "ko") = lit "Helsinki-NLP/opus-mt-zh-ko" ∧
  get_translation_model cfg (lit "ko") (lit "zh") = lit "Helsinki-NLP/opus-mt-ko-zh" ∧
  (∀ s t, (s, t) ∉ declared_pairs →
          get_translation_model cfg s t
          = lit "Helsinki-NLP/opus-mt-" ++ s ++ lit "-" ++ t) ∧
  get_translation_model cfg (lit "fr") (lit "ru") = lit "Helsinki-NLP/opus-mt-fr-ru".
Proof.
  intros Htbl. unfold get_translation_model. rewrite Htbl.
  split; [ by eauto | ].
  repeat (split; [ by vm_compute | ]).
  split; [ | by vm_compute ].
  intros s t Hnot.
  destruct (default_translation_models !! lang_pair s t) as [v|] eqn:E;
    [ | reflexivity ].
  apply default_table_lookup in E as [Hin _]. contradiction.
Qed.

Lemma get_translation_model_complete_witness :
  get_translation_model init (lit "fr") (lit "ru")
  = lit "Helsinki-NLP/opus-mt-fr-ru".
Proof.
  apply (get_translation_model_complete init). reflexivity.
Defined.

(** On the default table every pair, declared or not, gets the
    templated identifier. *)
Lemma get_translation_model_templated (cfg : SystemConfig) (s t : pystr) :
  translation_models (model cfg) = default_translation_models →
  get_translation_model cfg s t = templated_model s t.
Proof.
  intros Htbl. unfold get_translation_model. rewrite Htbl.
  destruct (default_translation_models !! lang_pair s t) as [v|] eqn:E;
    [ | reflexivity ].
  by apply default_table_lookup in E as [_ ->].
Qed.

(** C2, as the specification states it, fails: configuring (en, en)
    stores the same-language identifier. *)
Lemma update_language_pair_same_language_counterexample :
  model_name (translation (update_language_pair init (lit "en") (lit "en")))
  = lit "Helsinki-NLP/opus-mt-en-en"
  ∧ model_name (translation (update_language_pair init (lit "en") (lit "en")))
    ≠ lit "Helsinki-NLP/opus-mt-zh-en".
Proof. split; [ by vm_compute | by vm_compute ]. Qed.

(** C2, amended.  [update_language_pair L L] stores the pair as given,
    with the templated identifier of L-L; the substitution of zh→en for
    a same-language choice is made by the interactive front end before
    the pair reaches the configuration, and there the stored identifier
    is the zh-en one. *)
Theorem update_language_pair_same_language (cfg : SystemConfig) (L : pystr) :
  translation_models (model cfg) = default_translation_models →
  let cfg' := update_language_pair cfg L L in
  source_language (translation cfg') = L ∧
  target_language (translation cfg') = L ∧
  model_name (translation cfg') = lit "Helsinki-NLP/opus-mt-" ++ L ++ lit "-" ++ L ∧
  model_name (translation (MainUI.initialize_system_config cfg L L))
  = lit "Helsinki-NLP/opus-mt-zh-en".
Proof.
  intros Htbl cfg'. repeat split; try reflexivity.
  - unfold cfg'. simpl. by rewrite get_translation_model_templated.
  - unfold MainUI.initialize_system_config, MainUI.choose_pair.
    rewrite decide_True by reflexivity. simpl.
    by rewrite get_translation_model_templated.
Qed.

Lemma update_language_pair_same_language_witness :
  model_name (translation (MainUI.initialize_system_config init (lit "ja") (lit "ja")))
  = lit "Helsinki-NLP/opus-mt-zh-en".
Proof.
  apply (update_language_pair_same_language init (lit "ja")). reflexivity.
Defined.

(** ** The supported languages *)

#[local] Instance str_le_trans : Transitive Py.str_le.
Proof.
  intros x y z [Hxy | ->] [Hyz | ->]; unfold Py.str_le; auto.
  left. by etrans.
Qed.

#[local] Instance str_le_total : Total Py.str_le.
Proof.
  intros x y. unfold Py.str_le.
  destruct (trichotomy (@lexico pystr _) x y) as [? | [? | ?]]; auto.
Qed.

Lemma add_pair_ok key acc :
  two_part key → ∃ acc', add_pair key acc = Ok acc'.
Proof. intros (s & t & E). unfold add_pair. rewrite E. eauto. Qed.

Lemma add_pair_elem key acc acc' x :
  add_pair key acc = Ok acc' →
  x ∈ acc' ↔ x ∈ acc ∨ ∃ source target,
               Py.split 45 key = [source; target] ∧ (x = source ∨ x = target).
Proof.
  unfold add_pair.
  destruct (Py.split 45 key) as [|s [|t [|? ?]]] eqn:E; try discriminate.
  intros [= <-]. split.
  - rewrite !elem_of_union, !elem_of_singleton. intros [[?|?]|?]; eauto 8.
  - rewrite !elem_of_union, !elem_of_singleton.
    intros [? | (s' & t' & Heq & Hx)]; [ by left; left | ].
    injection Heq as <- <-. destruct Hx; auto.
Qed.

Lemma add_pairs_ok keys acc :
  Forall two_part keys → ∃ acc', add_pairs keys acc = Ok acc'.
Proof.
  intros H. revert acc. induction H as [|key keys Hk _ IH]; intros acc; simpl.
  - eauto.
  - destruct (add_pair_ok key acc Hk) as [acc1 ->]. apply IH.
Qed.

Lemma add_pairs_elem keys acc acc' x :
  add_pairs keys acc = Ok acc' →
  x ∈ acc' ↔ x ∈ acc ∨ ∃ key source target,
               key ∈ keys ∧ Py.split 45 key = [source; target]
               ∧ (x = source ∨ x = target).
Proof.
  revert acc. induction keys as [|key keys IH]; intros acc; simpl.
  - intros [= <-]. split; [ by left | ].
    intros [? | (k & ? & ? & Hk & _)]; [ done | by apply elem_of_nil in Hk ].
  - destruct (add_pair key acc) as [acc1|] eqn:E; [ | discriminate ].
    intros H. rewrite (IH _ H), (add_pair_elem _ _ _ _ E). split.
    + intros [[? | (s & t & ? & ?)] | (k & s & t & ? & ? & ?)].
      * by left.
      * right. exists key, s, t. split; [ by left | done ].
      * right. exists k, s, t. split; [ by right | done ].
    + intros [? | (k & s & t & Hk & ? & ?)]; [ by left; left | ].
      apply elem_of_cons in Hk as [-> | Hk].
      * left; right. eauto.
      * right. eauto 8.
Qed.

Lemma elem_of_table_keys (tbl : gmap pystr pystr) (key : pystr) :
  key ∈ map fst (map_to_list tbl) ↔ is_Some (tbl !! key).
Proof.
  rewrite list_elem_of_In, in_map_iff. split.
  - intros ([k v] & <- & Hin). apply list_elem_of_In in Hin.
    apply elem_of_map_to_list in Hin. simpl. eauto.
  - intros [v Hv]. exists (key, v). split; [ done | ].
    apply list_elem_of_In. by apply elem_of_map_to_list.
Qed.

Lemma sorted_set_spec (langs : gset pystr) :
  StronglySorted Py.str_le (Py.sorted_set langs)
  ∧ NoDup (Py.sorted_set langs)
  ∧ ∀ x, x ∈ Py.sorted_set langs ↔ x ∈ langs.
Proof.
  unfold Py.sorted_set. split; [ | split ].
  - apply StronglySorted_merge_sort; apply _.
  - rewrite merge_sort_Permutation. apply NoDup_elements.
  - intros x. rewrite merge_sort_Permutation. apply elem_of_elements.
Qed.

(** C7, as the specification states it, fails: the default table
    mentions four languages only, and fr is not one of them. *)
Lemma get_supported_languages_counterexample :
  get_supported_languages init
  = Ok [lit "en"; lit "ja"; lit "ko"; lit "zh"]
  ∧ lit "fr" ∉ [lit "en"; lit "ja"; lit "ko"; lit "zh"].
Proof.
  split; [ by vm_compute | ].
  rewrite !elem_of_cons, elem_of_nil. by vm_compute; intuition discriminate.
Qed.

(** C7, amended.  When every key of the table has the form
    source-target, [get_supported_languages] returns the sorted list,
    without repetition, of the codes that are the source or the target
    of a key; for the default eight-pair table that list is
    en, ja, ko, zh. *)
Theorem get_supported_languages_spec (cfg : SystemConfig) :
  (∀ key, is_Some (translation_models (model cfg) !! key) → two_part key) →
  (∃ langs,
      get_supported_languages cfg = Ok langs
      ∧ StronglySorted Py.str_le langs
      ∧ NoDup langs
      ∧ ∀ x, x ∈ langs ↔ in_table (translation_models (model cfg)) x)
  ∧ get_supported_languages init = Ok [lit "en"; lit "ja"; lit "ko"; lit "zh"].
Proof.
  intros Hkeys. split; [ | by vm_compute ].
  unfold get_supported_languages.
  set (keys := map fst (map_to_list (translation_models (model cfg)))).
  assert (Forall two_part keys) as Hall.
  { apply list.Forall_forall. intros k Hk. apply Hkeys.
    by apply elem_of_table_keys. }
  destruct (add_pairs_ok keys ∅ Hall) as [langs E]. rewrite E.
  destruct (sorted_set_spec langs) as (Hsorted & Hnodup & Helem).
  eexists. split; [ reflexivity | ]. split; [ done | ]. split; [ done | ].
  intros x. rewrite Helem, (add_pairs_elem _ _ _ _ E). unfold in_table. split.
  - intros [Hx | (k & s & t & Hk & ? & ?)]; [ by apply elem_of_empty in Hx | ].
    exists k, s, t. split; [ by apply elem_of_table_keys | done ].
  - intros (k & s & t & Hk & ? & ?). right.
    exists k, s, t. split; [ by apply elem_of_table_keys | done ].
Qed.

Lemma default_keys_two_part (key : pystr) :
  is_Some (default_translation_models !! key) → two_part key.
Proof.
  intros [v H]. apply elem_of_list_to_map_2 in H.
  repeat (apply elem_of_cons in H as [H | H]);
    [ .. | by apply elem_of_nil in H ];
    inversion H; subst; eexists _, _; by vm_compute.
Qed.

Lemma get_supported_languages_spec_witness :
  ∃ langs,
    get_supported_languages init = Ok langs
    ∧ StronglySorted Py.str_le langs
    ∧ NoDup langs
    ∧ ∀ x, x ∈ langs ↔ in_table default_translation_models x.
Proof.
  apply (get_supported_languages_spec init). exact default_keys_two_part.
Defined.
End SettingsFacts.

(* ===================================================================== *)
(** * Properties of the incremental translation strategy *)
(* ===================================================================== *)

Section StrategyFacts.
Import Translator Notions.
Local Open Scope Z_scope.

(** ** What [rfind] returns *)

Lemma rfind_scan_spec (c lo hi : Z) (s : pystr) (i acc : Z) :
  let r := Py.rfind_scan c s i lo hi acc in
  (r = acc ∧ ∀ (k : nat) x, s !! k = Some x → hit c lo hi x (i + Z.of_nat k) = false)
  ∨ (∃ k : nat, s !! k = Some c ∧ r = i + Z.of_nat k ∧ lo ≤ r < hi
       ∧ ∀ (k' : nat) x, (k < k')%nat → s !! k' = Some x →
                         hit c lo hi x (i + Z.of_nat k') = false).
Proof.
  revert i acc. induction s as [|x s IH]; intros i acc; simpl.
  - left. split; [ done | ]. intros k y Hk. by destruct k.
  - fold (hit c lo hi x i).
    destruct (IH (i + 1) (if hit c lo hi x i then i else acc))
      as [[Hr Hno] | (k & Hk & Hr & Hin & Hno)].
    + destruct (hit c lo hi x i) eqn:Hx.
      * right. exists 0%nat. unfold hit in Hx.
        apply andb_prop in Hx as [Hx Hhi]. apply andb_prop in Hx as [Hx Hlo].
        apply Z.eqb_eq in Hx as ->. split; [ done | ].
        split; [ lia | ]. split; [ lia | ].
        intros [|k'] y Hlt Hy; [ lia | ]. simpl in Hy.
        replace (i + Z.of_nat (S k')) with (i + 1 + Z.of_nat k') by lia. eauto.
      * left. split; [ done | ].
        intros [|k] y Hy; simpl in Hy.
        -- injection Hy as <-. by rewrite Z.add_0_r.
        -- replace (i + Z.of_nat (S k)) with (i + 1 + Z.of_nat k) by lia. eauto.
    + right. exists (S k). split; [ done | ]. split; [ lia | ]. split; [ lia | ].
      intros [|k'] y Hlt Hy; [ lia | ]. simpl in Hy.
      replace (i + Z.of_nat (S k')) with (i + 1 + Z.of_nat k') by lia.
      apply (Hno k'); [ lia | done ].
Qed.

(** With a window [0 .. stop) inside the text, [rfind] is [-1] when the
    window holds no [c], and otherwise the last position holding one. *)
Lemma rfind_spec (c : Z) (s : pystr) (stop : Z) :
  0 ≤ stop ≤ Py.len s →
  (Py.rfind c s 0 stop = -1 ∧ ∀ q, 0 ≤ q < stop → s !! Z.to_nat q ≠ Some c)
  ∨ (0 ≤ Py.rfind c s 0 stop < stop
     ∧ s !! Z.to_nat (Py.rfind c s 0 stop) = Some c
     ∧ ∀ q, Py.rfind c s 0 stop < q < stop → s !! Z.to_nat q ≠ Some c).
Proof.
  intros Hstop. unfold Py.rfind.
  assert (Py.norm_index 0 (Py.len s) = 0) as ->.
  { unfold Py.norm_index. simpl. unfold Py.len. lia. }
  assert (Py.norm_index stop (Py.len s) = stop) as ->.
  { unfold Py.norm_index. destruct (stop <? 0) eqn:E; lia. }
  pose proof (rfind_scan_spec c 0 stop s 0 (-1)) as H. cbv zeta in H.
  set (r := Py.rfind_scan c s 0 0 stop (-1)) in *.
  destruct H as [[Hr Hno] | (k & Hk & Hr & Hin & Hno)].
  - left. split; [ done | ]. intros q Hq Hs.
    specialize (Hno (Z.to_nat q) c Hs). unfold hit in Hno.
    rewrite Z.eqb_refl in Hno. simpl in Hno.
    rewrite andb_false_iff, Z.leb_gt, Z.ltb_ge in Hno. lia.
  - right. split; [ lia | ].
    split; [ by rewrite Hr, Z.add_0_l, Nat2Z.id | ].
    intros q Hq Hs.
    specialize (Hno (Z.to_nat q) c ltac:(lia) Hs). unfold hit in Hno.
    rewrite Z.eqb_refl in Hno. simpl in Hno.
    rewrite andb_false_iff, Z.leb_gt, Z.ltb_ge in Hno. lia.
Qed.

(** ** What the backward search of the specification returns *)

Lemma scan_back_spec (text : pystr) (cut : Z) (n k : nat) :
  match scan_back text cut k n with
  | Some q =>
      ∃ j : nat, (k ≤ j < k + n)%nat ∧ q = cut - Z.of_nat j
                 ∧ is_space_at text q = true
                 ∧ ∀ j' : nat, (k ≤ j' < j)%nat →
                               is_space_at text (cut - Z.of_nat j') = false
  | None =>
      ∀ j : nat, (k ≤ j < k + n)%nat →
                 is_space_at text (cut - Z.of_nat j) = false
  end.
Proof.
  revert k. induction n as [|n IH]; intros k; simpl.
  - intros j Hj. lia.
  - destruct (is_space_at text (cut - Z.of_nat k)) eqn:E.
    + exists k. split; [ lia | ]. split; [ done | ]. split; [ done | ].
      intros j' Hj'. lia.
    + specialize (IH (S k)).
      destruct (scan_back text cut (S k) n) as [q|].
      * destruct IH as (j & Hj & Hq & Hsp & Hno).
        exists j. split; [ lia | ]. split; [ done | ]. split; [ done | ].
        intros j' Hj'. destruct (decide (j' = k)) as [-> | Hne]; [ done | ].
        apply Hno. lia.
      * intros j Hj. destruct (decide (j = k)) as [-> | Hne]; [ done | ].
        apply IH. lia.
Qed.

Lemma is_space_at_true (text : pystr) (q : Z) :
  is_space_at text q = true ↔ 0 ≤ q ∧ text !! Z.to_nat q = Some 32.
Proof.
  unfold is_space_at. rewrite andb_true_iff, Z.leb_le, bool_decide_eq_true.
  done.
Qed.

Lemma is_space_at_false (text : pystr) (q : Z) :
  is_space_at text q = false ↔ (q < 0 ∨ text !! Z.to_nat q ≠ Some 32).
Proof.
  unfold is_space_at. rewrite andb_false_iff, Z.leb_gt, bool_decide_eq_false.
  done.
Qed.

(** ** The cut of the code is the cut of the specification when the
    chunk size is at least 19 *)

Lemma cutoff_point_spec (st : SimulTransStrategy) (text : pystr) :
  19 ≤ chunk_size st → chunk_size st ≤ Py.len text →
  cutoff_point st text = spec_cut_point (chunk_size st) text.
Proof.
  intros Hcs Hlen. unfold cutoff_point, spec_cut_point, nearest_space_before.
  set (cs := chunk_size st) in *.
  pose proof (scan_back_spec text cs 19 1) as Hspec.
  destruct (rfind_spec 32 text cs ltac:(lia)) as [[Hr Hno] | (Hin & Hsp & Hno)].
  - rewrite Hr. replace (cs - 20 <? -1) with false by (symmetry; lia).
    destruct (scan_back text cs 1 19) as [q|]; [ | done ].
    destruct Hspec as (j & Hj & -> & Hq & _).
    apply is_space_at_true in Hq as [Hq0 Hq]. exfalso.
    apply (Hno (cs - Z.of_nat j)); [ lia | done ].
  - set (r := Py.rfind 32 text 0 cs) in *.
    destruct (cs - 20 <? r) eqn:E.
    + apply Z.ltb_lt in E.
      destruct (scan_back text cs 1 19) as [q|].
      * destruct Hspec as (j & Hj & -> & Hq & Hfirst). simpl.
        apply is_space_at_true in Hq as [Hq0 Hq].
        destruct (Z.lt_trichotomy r (cs - Z.of_nat j)) as [Hlt | [Heq | Hgt]];
          [ | done | ].
        -- exfalso. apply (Hno (cs - Z.of_nat j)); [ lia | done ].
        -- exfalso. specialize (Hfirst (Z.to_nat (cs - r)) ltac:(lia)).
           apply is_space_at_false in Hfirst as [Hneg | Hne].
           ++ lia.
           ++ apply Hne. by replace (cs - Z.of_nat (Z.to_nat (cs - r))) with r by lia.
      * exfalso. specialize (Hspec (Z.to_nat (cs - r)) ltac:(lia)).
        apply is_space_at_false in Hspec as [Hneg | Hne].
        -- lia.
        -- apply Hne. by replace (cs - Z.of_nat (Z.to_nat (cs - r))) with r by lia.
    + apply Z.ltb_ge in E.
      destruct (scan_back text cs 1 19) as [q|]; [ | done ].
      destruct Hspec as (j & Hj & -> & Hq & _).
      apply is_space_at_true in Hq as [Hq0 Hq]. exfalso.
      apply (Hno (cs - Z.of_nat j)); [ lia | done ].
Qed.

Lemma spec_cut_point_range (cs : Z) (text : pystr) :
  0 ≤ cs → 0 ≤ spec_cut_point cs text ≤ cs.
Proof.
  intros Hcs. unfold spec_cut_point, nearest_space_before.
  pose proof (scan_back_spec text cs 19 1) as Hspec.
  destruct (scan_back text cs 1 19) as [q|]; simpl; [ | lia ].
  destruct Hspec as (j & Hj & -> & Hq & _).
  apply is_space_at_true in Hq as [Hq0 _]. lia.
Qed.

(** For chunk sizes from 19 and overlaps from 1 the code does what the
    specification describes. *)
Lemma prepare_text_refines_spec (st : SimulTransStrategy)
    (new_text : pystr) (is_final : bool) :
  19 ≤ chunk_size st → 1 ≤ overlap st →
  prepare_text_for_translation st new_text is_final
  = spec_prepare st new_text is_final.
Proof.
  intros Hcs Hov. unfold prepare_text_for_translation, spec_prepare.
  destruct (negb (should_translate st new_text is_final)); [ done | ].
  destruct (is_final || Py.search_mark_at_end (Py.strip new_text)); [ done | ].
  set (combined := previous_context st ++ new_text).
  assert (∀ text : pystr,
            (if overlap st <? Py.len text
             then Py.slice_from text (- overlap st) else text)
            = last_chars (overlap st) text) as Hctx.
  { intros text. unfold last_chars, Py.slice_from, Py.norm_index.
    destruct (overlap st <? Py.len text) eqn:E1.
    - apply Z.ltb_lt in E1.
      replace (Py.len text <? overlap st) with false by (symmetry; lia).
      replace (- overlap st <? 0) with true by (symmetry; lia).
      f_equal. lia.
    - apply Z.ltb_ge in E1.
      destruct (Py.len text <? overlap st) eqn:E2; [ done | ].
      apply Z.ltb_ge in E2.
      replace (Py.len text - overlap st) with 0 by lia. done. }
  destruct (chunk_size st + overlap st <? Py.len combined) eqn:E.
  - apply Z.ltb_lt in E.
    rewrite cutoff_point_spec by lia.
    pose proof (spec_cut_point_range (chunk_size st) combined ltac:(lia)) as Hr.
    assert (Py.slice_from combined (spec_cut_point (chunk_size st) combined)
            = drop (Z.to_nat (spec_cut_point (chunk_size st) combined)) combined)
      as ->.
    { unfold Py.slice_from, Py.norm_index.
      replace (spec_cut_point (chunk_size st) combined <? 0) with false
        by (symmetry; lia).
      f_equal. lia. }
    by rewrite Hctx.
  - by rewrite Hctx.
Qed.

(** C5 holds of the code for chunk sizes from 19 on, but not below: with
    the chunk size 10 and overlap 3 of the repository's own tests, a
    14-character text without a space is cut down to its last
    character, where the specification asks for the text from character
    10 on.  [rfind] answers [-1] for "no space", and [-1] is above
    [cutoff_point - 20 = -10], so the code takes it for a position. *)
Theorem prepare_text_small_chunk_divergence :
  let st := new_strategy 10 3 in
  let text := lit "abcdefghijklmn" in
  should_translate st text false = true
  ∧ Py.search_mark_at_end (Py.strip text) = false
  ∧ Py.rfind 32 (previous_context st ++ text) 0 (chunk_size st) = -1
  ∧ prepare_text_for_translation st text false
    = (Some (lit "n"), set_context st (lit "n"))
  ∧ spec_prepare st text false
    = (Some (lit "klmn"), set_context st (lit "lmn")).
Proof. repeat split. Qed.
End StrategyFacts.

(* ===================================================================== *)
(** * Properties of the model manager *)
(* ===================================================================== *)

Section ModelManagerFacts.
Import ModelManager Notions.

Variable env : Env.

(** Keys of different kinds never coincide; keys of one kind coincide
    only for the same name. *)
Lemma key_inj (kind a b : pystr) : key kind a = key kind b → a = b.
Proof. unfold key. intros H. by do 2 apply app_inv_head in H. Qed.

Lemma funasr_key_not_transformers (a b : pystr) :
  key (lit "funasr") a ≠ key (lit "transformers") b.
Proof. unfold key. by vm_compute. Qed.

Lemma external_agree {A} (c : call) (answer : nat → outcome A) :
  preserves caches_agree (external c answer).
Proof. unfold external. keep; done. Qed.
Hint Resolve external_agree : keeps.

Lemma report_progress_agree name percent :
  preserves caches_agree (report_progress name percent).
Proof. unfold report_progress. keep. Qed.
Hint Resolve report_progress_agree : keeps.

Lemma download_funasr_agree name :
  preserves caches_agree (download_funasr_model env name).
Proof. unfold download_funasr_model. keep; done. Qed.
Hint Resolve download_funasr_agree : keeps.

Lemma download_translation_agree name :
  preserves caches_agree (download_translation_model env name).
Proof. unfold download_translation_model. keep; done. Qed.
Hint Resolve download_translation_agree : keeps.

(** A FunASR model goes under a [funasr:] key, which no translation
    model uses. *)
Lemma insert_funasr_agree (m : ModelManager) name (o : model_obj) :
  caches_agree m →
  caches_agree (with_model_cache (<[key (lit "funasr") name := o]>) m).
Proof.
  intros H n. simpl. rewrite lookup_insert_ne; [ apply H | ].
  apply funasr_key_not_transformers.
Qed.

Lemma load_funasr_agree name force :
  preserves caches_agree (load_funasr_model env name force).
Proof. unfold load_funasr_model. keep. by apply insert_funasr_agree. Qed.
Hint Resolve load_funasr_agree : keeps.

Lemma load_pair_agree name : preserves caches_agree (load_pair env name).
Proof. unfold load_pair. keep. Qed.
Hint Resolve load_pair_agree : keeps.

(** The two caches are written one after the other, with nothing in
    between that could fail. *)
Lemma insert_both_agree (m : ModelManager) name (o : model_obj) (t : tokenizer) :
  caches_agree m →
  caches_agree
    (with_tokenizer_cache (<[key (lit "tokenizer") name := t]>)
       (with_model_cache (<[key (lit "transformers") name := o]>) m)).
Proof.
  intros H n. simpl. destruct (decide (name = n)) as [-> | Hne].
  - rewrite !lookup_insert_eq. split; eauto.
  - rewrite !lookup_insert_ne; [ apply H | | ];
      intros Heq; by apply key_inj in Heq.
Qed.

Lemma load_translation_agree name force :
  preserves caches_agree (load_translation_model env name force).
Proof.
  unfold load_translation_model.
  apply preserves_bind; [ apply preserves_gets | intros cache ].
  destruct (if force then None else cache !! key (lit "transformers") name).
  { keep. }
  apply preserves_try; [ | intros ?; apply preserves_ret ].
  apply preserves_bind; [ apply preserves_gets | intros have ].
  apply preserves_bind; [ keep | intros _ ].
  apply preserves_bind; [ keep | intros p ].
  intros s Hs. by apply insert_both_agree.
Qed.
Hint Resolve load_translation_agree : keeps.

Lemma preload_one_agree cb total item n :
  preserves caches_agree (preload_one env cb total item n).
Proof. unfold preload_one. destruct item as [ty name]. keep. Qed.
Hint Resolve preload_one_agree : keeps.

Lemma preload_loop_agree cb total items n :
  preserves caches_agree (preload_loop env cb total items n).
Proof.
  revert n. induction items as [|item items IH]; intros n; simpl; keep.
Qed.
Hint Resolve preload_loop_agree : keeps.

Lemma preload_models_agree cfg cb :
  preserves caches_agree (preload_models env cfg cb).
Proof. unfold preload_models. keep; done. Qed.

Lemma clear_cache_agree : preserves caches_agree clear_cache.
Proof. intros s _ n. simpl. by rewrite !lookup_empty. Qed.

Lemma apply_op_agree (o : op) (m : ModelManager) :
  caches_agree m → caches_agree (apply_op env o m).
Proof.
  intros H. destruct o; simpl.
  - by apply load_translation_agree.
  - by apply load_funasr_agree.
  - by apply clear_cache_agree.
  - by apply preload_models_agree.
  - done.
Qed.

Lemma apply_ops_agree (ops : list op) (m : ModelManager) :
  caches_agree m → caches_agree (apply_ops env ops m).
Proof.
  revert m. induction ops as [|o ops IH]; intros m H; simpl; [ done | ].
  apply IH. by apply apply_op_agree.
Qed.

(** In a manager whose caches agree the cache-hit path finds its
    tokenizer. *)
Lemma load_translation_no_key_error (m : ModelManager) name force :
  caches_agree m →
  result (load_translation_model env name force m) ≠ Raised KeyError.
Proof.
  revert m.
  change (hoare caches_agree (load_translation_model env name force)
            (λ r _, r ≠ Raised KeyError)).
  unfold load_translation_model.
  apply (hoare_bind _ (λ cache s, caches_agree s ∧ cache = model_cache s)).
  { by apply hoare_gets. }
  intros cache.
  destruct (if force then None else cache !! key (lit "transformers") name)
    as [cached|] eqn:E.
  - destruct force; [ discriminate | ].
    apply (hoare_bind _ (λ tc s, caches_agree s ∧ cache = model_cache s
                                 ∧ tc = tokenizer_cache s)).
    { apply hoare_gets. by intros s [? ?]. }
    intros tc. destruct (tc !! key (lit "tokenizer") name) as [t|] eqn:Et.
    + by apply hoare_ret.
    + apply hoare_raise. intros s (Hs & -> & ->).
      destruct (Hs name) as [[t Ht] _]; [ eauto | ]. congruence.
  - apply (hoare_try _ (λ _ _, True)).
    + apply hoare_any. by intros [a|e] s.
    + intros e. by apply hoare_ret.
Qed.
End ModelManagerFacts.

(** C10.  Starting from a new manager, after any sequence of
    [load_translation_model], [load_funasr_model], [clear_cache],
    [preload_models] (and [set_progress_callback]) calls, in any outside
    world, the key [transformers:<name>] is in the model cache exactly
    when [tokenizer:<name>] is in the tokenizer cache; hence a further
    [load_translation_model] never raises [KeyError] on its cache-hit
    path. *)
Theorem model_manager_caches_agree :
  ∀ (env : ModelManager.Env) (dir : pystr)
    (status : gmap pystr ModelManager.status_entry)
    (ops : list ModelManager.op),
    let m := ModelManager.apply_ops env ops (ModelManager.new dir status) in
    Notions.caches_agree m
    ∧ ∀ name force,
        result (ModelManager.load_translation_model env name force m)
        ≠ Raised KeyError.
Proof.
  intros env dir status ops m.
  assert (Notions.caches_agree m) as H.
  { apply apply_ops_agree. intros n. simpl. by rewrite !lookup_empty. }
  split; [ done | ]. intros name force. by apply load_translation_no_key_error.
Qed.

(* ===================================================================== *)
(** * Properties of the text-to-speech module *)
(* ===================================================================== *)

Section TTSFacts.
Import TTS Notions.

Variable env : Env.

(** ** Playing implies an initialised mixer, in every reachable state *)

Lemma report_error_ready m : preserves mixer_ready (report_error m).
Proof. unfold report_error. keep. Qed.
Hint Resolve report_error_ready : keeps.

Lemma report_playback_ready text p :
  preserves mixer_ready (report_playback_status text p).
Proof. unfold report_playback_status. keep. Qed.
Hint Resolve report_playback_ready : keeps.

Lemma initialize_mixer_ready : preserves mixer_ready (initialize_mixer env).
Proof. unfold initialize_mixer. keep. by intros _. Qed.

Lemma stop_current_playback_ready :
  preserves mixer_ready (stop_current_playback env).
Proof. unfold stop_current_playback. keep; by intros ?. Qed.
Hint Resolve stop_current_playback_ready : keeps.

Lemma start_tts_service_ready : preserves mixer_ready (start_tts_service env).
Proof.
  unfold start_tts_service, initialize_mixer. keep; try done; by intros ?.
Qed.

Lemma stop_tts_service_ready : preserves mixer_ready (stop_tts_service env).
Proof. unfold stop_tts_service. keep; try done; by intros ?. Qed.

Lemma speak_ready text voice p : preserves mixer_ready (speak text voice p).
Proof. unfold speak. keep; done. Qed.

Lemma synthesize_speech_ready text voice :
  preserves mixer_ready (synthesize_speech env text voice).
Proof. unfold synthesize_speech. keep; done. Qed.
Hint Resolve synthesize_speech_ready : keeps.

(** ** The belief of an observer of playback *)

Section Belief.
Variable text : pystr.
Variable ecb : option (msg → outcome unit).
Variable pcb : option (pystr → bool → outcome unit).
Hypothesis ecb_quiet : ∀ f m, ecb = Some f → f m = Ok tt.

Abbreviation step := (playback_belief text).

Abbreviation wired := (Notions.wired ecb pcb).

Lemma report_error_wired m :
  observed step wired (report_error m)
    (λ r s b, r = Ok tt ∧ wired s b).
Proof.
  unfold report_error.
  apply (observed_bind step _ (λ cb s b, cb = ecb ∧ wired s b)).
  { apply observed_gets. by intros s b (? & ? & ?). }
  intros [f|].
  - apply observed_extern. intros s b [<- H]. simpl.
    split; [ by eapply ecb_quiet | done ].
  - apply observed_ret. by intros s b [_ H].
Qed.

Lemma report_playback_wired p :
  observed step wired (report_playback_status text p)
    (λ r s b, wired s b ∧ (p = false → b = false)).
Proof.
  unfold report_playback_status.
  apply (observed_bind step _ (λ cb s b, cb = pcb ∧ wired s b)).
  { apply observed_gets. by intros s b (? & ? & ?). }
  intros [f|].
  - apply observed_extern. intros s b [Hcb (He & Hp & _)]. simpl.
    rewrite decide_True by done. split; [ | done ].
    split; [ done | ]. split; [ done | ]. intros ?; congruence.
  - apply observed_ret. intros s b [Hcb (He & Hp & Hb)].
    split; [ done | ]. intros _. by apply Hb.
Qed.

Lemma modify_wired (f : TextToSpeechModule → TextToSpeechModule) :
  (∀ s, error_callback (f s) = error_callback s
        ∧ playback_callback (f s) = playback_callback s) →
  observed step wired (modify f) (λ _, wired).
Proof.
  intros Hf. apply observed_modify. intros s b (He & Hp & Hb).
  unfold Notions.wired. by rewrite (proj1 (Hf s)), (proj2 (Hf s)).
Qed.

Lemma silent_wired {A} (e : event) (o : outcome A) :
  (∀ b, step b e = b) →
  observed step wired (extern e o) (λ _, wired).
Proof. intros He. apply observed_extern. intros s b H. by rewrite He. Qed.

Lemma wait_while_busy_wired n :
  observed step wired (wait_while_busy env n) (λ _, wired).
Proof.
  induction n as [|n IH]; simpl.
  - by apply silent_wired.
  - apply observed_step; [ by apply observed_emit | done | intros _ ].
    apply observed_step; [ by apply observed_emit | done | intros _ ].
    exact IH.
Qed.

Lemma finish_settles :
  observed step wired
    (modify (set_playing false) ;;
     modify (set_current_text []) ;;
     report_playback_status text false)
    (λ _ s b, settled s b ∧ wired s b).
Proof.
  apply (observed_bind step _ (λ _ s b, wired s b ∧ is_playing s = false)).
  { apply observed_modify. by intros s b (? & ? & ?). }
  intros _.
  apply (observed_bind step _ (λ _ s b, wired s b ∧ is_playing s = false)).
  { apply observed_modify. by intros s b [(? & ? & ?) ?]. }
  intros _. unfold report_playback_status.
  apply (observed_bind step _
           (λ cb s b, cb = pcb ∧ wired s b ∧ is_playing s = false)).
  { apply observed_gets. by intros s b [(? & ? & ?) ?]. }
  intros [f|].
  - apply observed_extern. intros s b (Hcb & (He & Hp & _) & Hpl). simpl.
    rewrite decide_True by done. split; [ done | ].
    split; [ done | ]. split; [ done | ]. intros ?; congruence.
  - apply observed_ret. intros s b (Hcb & (He & Hp & Hb) & Hpl).
    split; [ split; [ done | by apply Hb ] | done ].
Qed.

Lemma initialize_mixer_wired :
  observed step (λ s b, wired s b ∧ mixer_ready s ∧ b = false)
    (initialize_mixer env)
    (λ r s b, match r with
              | Ok true => wired s b
              | Ok false => settled s b
              | Raised _ => False
              end).
Proof.
  unfold initialize_mixer.
  apply (observed_bind step _
           (λ init s b, wired s b ∧ b = false
                        ∧ (init = false → is_playing s = false))).
  { apply observed_gets. intros s b (Hw & Hr & Hb).
    split; [ done | ]. split; [ done | ]. intros Hinit.
    destruct (is_playing s) eqn:E; [ | done ].
    rewrite Hr in Hinit; done. }
  intros [|].
  - apply observed_ret. by intros s b (? & _).
  - apply (observed_try step _
             (λ _ s b, wired s b ∧ b = false ∧ is_playing s = false)).
    + apply (observed_bind step _ (λ _ s b, wired s b)).
      { apply observed_extern. intros s b (Hw & Hb & Hpl).
        destruct (mixer_init env); simpl; [ done | ]. auto. }
      intros _.
      apply (observed_bind step _ (λ _ s b, wired s b)).
      { apply observed_modify. by intros s b (? & ? & ?). }
      intros _. by apply observed_ret.
    + intros e.
      apply (observed_bind step _
               (λ _ s b, wired s b ∧ b = false ∧ is_playing s = false)).
      * unfold report_error.
        apply (observed_bind step _
                 (λ cb s b, cb = ecb ∧ wired s b ∧ b = false
                            ∧ is_playing s = false)).
        { apply observed_gets. by intros s b ((? & ? & ?) & ? & ?). }
        intros [f|].
        -- apply observed_extern. intros s b (<- & Hw & Hb & Hpl). simpl.
           by rewrite (ecb_quiet f _ eq_refl).
        -- apply observed_ret. by intros s b (_ & ? & ? & ?).
      * intros _. apply observed_ret. by intros s b (_ & ? & ?).
Qed.

Lemma play_audio_settles audio :
  observed step (λ s b, wired s b ∧ mixer_ready s ∧ b = false)
    (play_audio_from_memory env audio text)
    (λ _, settled).
Proof.
  unfold play_audio_from_memory.
  apply (observed_bind step _
           (λ ok s b, if ok : bool then wired s b else settled s b)).
  { eapply observed_conseq; [ | | apply initialize_mixer_wired ];
      [ done | ]. by intros [[|]|e] s b. }
  intros [|]; simpl; [ | by apply observed_ret ].
  apply (observed_try step _ (λ _, wired)).
  - apply observed_step; [ by apply modify_wired | done | intros _ ].
    apply observed_step; [ by apply modify_wired | done | intros _ ].
    apply observed_step; [ | done | intros _ ].
    { eapply observed_conseq; [ | | apply report_playback_wired ];
        [ done | by intros r s b [? _] ]. }
    apply observed_step; [ by apply silent_wired | done | intros _ ].
    apply observed_step; [ by apply silent_wired | done | intros _ ].
    apply observed_step; [ apply wait_while_busy_wired | done | intros _ ].
    apply observed_step; [ by apply silent_wired | done | intros _ ].
    eapply observed_conseq; [ | | apply finish_settles ]; [ done | ].
    by intros [a|e] s b [? ?].
  - intros e.
    apply (observed_bind step _ (λ _, wired)).
    { eapply observed_conseq; [ | | apply report_error_wired ]; [ done | ].
      by intros [a|e'] s b [? ?]. }
    intros _.
    eapply observed_conseq; [ | | apply finish_settles ]; [ done | ].
    by intros r s b [? _].
Qed.
End Belief.

Lemma belief_turns_false text post :
  fold_left (playback_belief text) post true = false →
  PlaybackCallback text false ∈ post.
Proof.
  induction post as [|e post IH]; simpl; [ discriminate | ].
  destruct (playback_belief text true e) eqn:E.
  - intros H. apply elem_of_cons. right. by apply IH.
  - intros _. apply elem_of_cons. left.
    destruct e as [text' playing| | | | | | | | | | | | | ];
      simpl in E; try discriminate.
    destruct (decide (text' = text)) as [-> | ?]; congruence.
Qed.

Lemma belief_answered text tr b :
  fold_left (playback_belief text) tr b = false → answered text tr.
Proof.
  intros H pre post ->. rewrite fold_left_app in H. simpl in H.
  rewrite decide_True in H by done. by apply belief_turns_false.
Qed.

(** C4.  Whatever the mixer does — also when loading, playing, polling
    or unloading raises — [_play_audio_from_memory] ends with
    [is_playing] false, and every "playing" status it reported for the
    text is followed by a "finished" status for the same text.  The
    module is in a reachable state ([is_playing] only after the mixer
    was initialised) and its error callback returns normally. *)
Theorem play_audio_never_left_playing
    (t : TextToSpeechModule) (audio : bytes) (text : pystr) :
  mixer_ready t → quiet_errors t →
  is_playing (final (play_audio_from_memory env audio text t)) = false
  ∧ answered text (events (play_audio_from_memory env audio text t)).
Proof.
  intros Hready Hquiet.
  destruct (play_audio_settles text (error_callback t) (playback_callback t)
              (λ f m, Hquiet f m) audio t false) as [Hpl Hb].
  { split; [ | done ]. unfold Notions.wired. done. }
  split; [ done | ]. by eapply belief_answered.
Qed.

(** ** The rest of the module keeps the mixer ready *)

Lemma initialize_mixer_ok :
  hoare mixer_ready (initialize_mixer env)
    (λ r s, mixer_ready s ∧ (r = Ok true → is_mixer_initialized s = true)).
Proof.
  unfold initialize_mixer.
  apply (hoare_bind _ (λ init s, mixer_ready s ∧ init = is_mixer_initialized s)).
  { by apply hoare_gets. }
  intros [|].
  - apply hoare_ret. by intros s [? ?].
  - apply (hoare_try _ (λ _, mixer_ready)).
    + apply (hoare_bind _ (λ _, mixer_ready)).
      { apply hoare_extern. intros s [? _]. by destruct (mixer_init env). }
      intros _. apply (hoare_bind _ (λ _ s, is_mixer_initialized s = true)).
      { by apply hoare_modify. }
      intros _. apply hoare_ret. intros s H. split; [ by intros _ | done ].
    + intros e. apply (hoare_bind _ (λ _, mixer_ready)).
      { eapply hoare_conseq; [ | | apply report_error_ready ]; [ done | ].
        by intros [a|e']. }
      intros _. apply hoare_ret. intros s H. split; [ done | discriminate ].
Qed.

Lemma play_audio_ready audio text :
  preserves mixer_ready (play_audio_from_memory env audio text).
Proof.
  unfold play_audio_from_memory.
  apply (hoare_bind _ (λ ok s, mixer_ready s ∧ (ok = true → initialized s))).
  { eapply hoare_conseq; [ | | apply initialize_mixer_ok ]; [ done | ].
    intros [a|e] s [H1 H2]; [ | done ]. split; [ done | ].
    intros ->. by apply H2. }
  intros [|]; simpl.
  - eapply (hoare_conseq initialized _ _ (λ _, initialized)).
    + intros s [_ H]. by apply H.
    + intros _ s H _. exact H.
    + assert (∀ m, preserves initialized (report_error m)) as Herr.
      { intros m. unfold report_error. keep. }
      assert (∀ p, preserves initialized (report_playback_status text p)) as Hpb.
      { intros p. unfold report_playback_status. keep. }
      assert (∀ n, preserves initialized (wait_while_busy env n)) as Hwait.
      { induction n; simpl; keep. }
      fold (preserves initialized
              (try_except
                 (modify (set_playing true) ;;
                  modify (set_current_text text) ;;
                  report_playback_status text true ;;
                  extern (MusicLoad audio) (music_load env audio) ;;
                  extern MusicPlay (music_play env) ;;
                  wait_while_busy env (busy_polls env) ;;
                  extern MusicUnload (music_unload env) ;;
                  modify (set_playing false) ;;
                  modify (set_current_text []) ;;
                  report_playback_status text false)
                 (λ e, report_error (PlaybackError e) ;;
                       modify (set_playing false) ;;
                       modify (set_current_text []) ;;
                       report_playback_status text false))).
      keep; done.
  - apply hoare_ret. by intros s [? _].
Qed.
Hint Resolve play_audio_ready : keeps.

Lemma speak_immediate_ready text voice :
  preserves mixer_ready (speak_immediate env text voice).
Proof. unfold speak_immediate. keep. Qed.

Lemma worker_task_ready tk : preserves mixer_ready (worker_task env tk).
Proof. unfold worker_task. destruct tk as [[text voice] p]. keep. Qed.
End TTSFacts.

(** C4, as the specification states it, fails: when loading the audio
    raises and the error callback raises in its turn, the operation ends
    with [is_playing] still set and without a "finished" status. *)
Lemma play_audio_left_playing_counterexample :
  Notions.mixer_ready Samples.tts_module_raising
  ∧ result (TTS.play_audio_from_memory Samples.broken_player [1%Z]
              (lit "hello") Samples.tts_module_raising)
    = Raised (RuntimeError 9)
  ∧ TTS.is_playing
      (final (TTS.play_audio_from_memory Samples.broken_player [1%Z]
                (lit "hello") Samples.tts_module_raising))
    = true
  ∧ events (TTS.play_audio_from_memory Samples.broken_player [1%Z]
              (lit "hello") Samples.tts_module_raising)
    = [ TTS.MixerInit;
        TTS.PlaybackCallback (lit "hello") true;
        TTS.MusicLoad [1%Z];
        TTS.ErrorCallback (TTS.PlaybackError (RuntimeError 7)) ]
  ∧ ¬ Notions.answered (lit "hello")
        (events (TTS.play_audio_from_memory Samples.broken_player [1%Z]
                   (lit "hello") Samples.tts_module_raising)).
Proof.
  split; [ by intros H | ]. split; [ by vm_compute | ].
  split; [ by vm_compute | ].
  assert (events (TTS.play_audio_from_memory Samples.broken_player [1%Z]
                    (lit "hello") Samples.tts_module_raising)
          = [ TTS.MixerInit;
              TTS.PlaybackCallback (lit "hello") true;
              TTS.MusicLoad [1%Z];
              TTS.ErrorCallback (TTS.PlaybackError (RuntimeError 7)) ]) as E
    by (by vm_compute).
  split; [ exact E | ]. rewrite E. intros H.
  specialize (H [TTS.MixerInit]
                [TTS.MusicLoad [1%Z];
                 TTS.ErrorCallback (TTS.PlaybackError (RuntimeError 7))]
                eq_refl).
  rewrite !elem_of_cons, elem_of_nil in H. by intuition discriminate.
Qed.

Lemma play_audio_never_left_playing_witness :
  TTS.is_playing
    (final (TTS.play_audio_from_memory Samples.broken_player [1%Z] (lit "hello")
              Samples.tts_module))
  = false
  ∧ Notions.answered (lit "hello")
      (events (TTS.play_audio_from_memory Samples.broken_player [1%Z]
                 (lit "hello") Samples.tts_module)).
Proof.
  apply (play_audio_never_left_playing Samples.broken_player Samples.tts_module).
  - intros H. vm_compute in H. discriminate.
  - intros f m H. vm_compute in H. injection H as <-. reflexivity.
Defined.

(** What [speak_immediate] does with a blank text: nothing, and the
    answer is [False]. *)
Lemma speak_immediate_blank (env : TTS.Env) (t : TTS.TextToSpeechModule)
    (text : pystr) (voice : option pystr) :
  Py.blank text = true →
  TTS.speak_immediate env (Some text) voice t = (Ok false, t, []).
Proof. intros H. unfold TTS.speak_immediate. by rewrite H. Qed.

(** C9 fails on the code in two places.  With no text ([None]) the call
    [text.strip()] raises [AttributeError] before the [try] is entered, so
    the exception leaves [speak_immediate], although the repository's
    test expects [False].  And when synthesis delivers audio the answer is
    [True] whatever became of the playback: here loading the audio
    fails, nothing is played, an error is reported, and the answer is
    still [True].  For the empty and the blank string the answer is
    [False] and nothing is attempted. *)
Theorem speak_immediate_absent_text_raises :
  (∀ env voice t,
      TTS.speak_immediate env None voice t = (Raised AttributeError, t, []))
  ∧ (∀ env voice t,
      TTS.speak_immediate env (Some []) voice t = (Ok false, t, [])
      ∧ TTS.speak_immediate env (Some (lit "  ")) voice t = (Ok false, t, []))
  ∧ result (TTS.speak_immediate Samples.broken_player (Some (lit "hello")) None
              Samples.tts_module) = Ok true
  ∧ events (TTS.speak_immediate Samples.broken_player (Some (lit "hello")) None
              Samples.tts_module)
    = [ TTS.NewEventLoop;
        TTS.Synthesize (lit "hello") (lit "en-US-AriaNeural");
        TTS.MixerInit;
        TTS.PlaybackCallback (lit "hello") true;
        TTS.MusicLoad [82; 73; 70; 70]%Z;
        TTS.ErrorCallback (TTS.PlaybackError (RuntimeError 7));
        TTS.PlaybackCallback (lit "hello") false;
        TTS.LoopClose ].
Proof.
  split; [ reflexivity | ]. split; [ | split; vm_compute; reflexivity ].
  intros env voice t. split; reflexivity.
Qed.

(* ===================================================================== *)
(** * Properties of the audio capture module *)
(* ===================================================================== *)

Section AudioCaptureFacts.
Import AudioCapture Notions.
Local Open Scope Z_scope.

Variable env : Env.
Hypothesis env_answers : models_answer env.

Lemma report_text_calm text fin :
  succeeds quiet_text_callback (report_text text fin).
Proof.
  unfold report_text.
  apply (hoare_bind _ (λ cb s, quiet_text_callback s ∧ cb = text_callback s)).
  { by apply hoare_gets. }
  intros [f|].
  - apply hoare_extern. intros s [H Hf]. split; [ | done ].
    by rewrite (H f text fin).
  - apply hoare_ret. by intros s [? _].
Qed.
Hint Resolve report_text_calm : calms.

Lemma call_asr_calm chunk fin : succeeds quiet_text_callback (call_asr env chunk fin).
Proof.
  unfold call_asr. apply succeeds_bind; [ calm | intros c ].
  pose proof (proj1 env_answers chunk c fin) as H.
  destruct (asr_generate env chunk c fin) as [r c']. calm; done.
Qed.
Hint Resolve call_asr_calm : calms.

Lemma call_punc_calm input : succeeds quiet_text_callback (call_punc env input).
Proof. unfold call_punc. apply succeeds_extern. apply env_answers. Qed.
Hint Resolve call_punc_calm : calms.

Lemma emit_final_calm text : succeeds quiet_text_callback (emit_final text).
Proof. unfold emit_final. calm; done. Qed.
Hint Resolve emit_final_calm : calms.

Lemma punctuated_sentence_calm :
  succeeds quiet_text_callback (punctuated_sentence env).
Proof. unfold punctuated_sentence. calm. Qed.
Hint Resolve punctuated_sentence_calm : calms.

(** A final recognition ends with an empty cache. *)
Lemma recognise_final_resets chunk :
  hoare quiet_text_callback (recognise env chunk true)
    (λ r s, is_ok r = true ∧ asr_cache s = ∅).
Proof.
  unfold recognise.
  apply hoare_after; [ calm | intros sentence ].
  apply hoare_after; [ calm; done | intros _ ].
  simpl. by apply hoare_modify.
Qed.

(** With something to flush, a final call ends with an empty cache. *)
Lemma final_flush_pending (a : AudioCaptureModule) :
  asr_model_loaded a = true →
  quiet_text_callback a →
  speech_buffer a ≠ [] ∨ current_sentence a ≠ [] →
  asr_cache (final (process_asr_buffer env true a)) = ∅.
Proof.
  intros Hloaded Hquiet Hpending.
  cut (hoare (λ s, s = a) (process_asr_buffer env true)
         (λ _ s, asr_cache s = ∅)).
  { intros H. by apply H. }
  unfold process_asr_buffer.
  apply (hoare_bind _ (λ loaded s, s = a ∧ loaded = true)).
  { apply hoare_gets. by intros s ->. }
  intros loaded. destruct loaded; simpl;
    [ | apply hoare_ret; by intros s [_ ?] ].
  apply (hoare_try _ (λ _ _, False)); [ | by intros e s [] ].
  apply (hoare_bind _ (λ buffer s, s = a ∧ buffer = speech_buffer a)).
  { apply hoare_gets. by intros s [-> _]. }
  intros buffer. rewrite andb_true_r. simpl.
  destruct (Py.len buffer =? 0) eqn:Elen.
  - apply (hoare_bind _ (λ sentence s, s = a ∧ buffer = speech_buffer a
                                       ∧ sentence = current_sentence a)).
    { apply hoare_gets. by intros s [-> ->]. }
    intros sentence.
    destruct (Py.truthy sentence) eqn:Etruthy; simpl.
    + eapply (hoare_conseq quiet_text_callback); [ by intros s [-> _] | | ].
      { intros r s H. exact H. }
      apply hoare_after; [ calm | intros final_text ].
      apply hoare_after; [ calm | intros _ ].
      by apply hoare_modify.
    + apply hoare_ret. intros s (-> & Hb & Hs). exfalso.
      apply Z.eqb_eq in Elen. unfold Py.len in Elen.
      destruct buffer; [ | simpl in Elen; lia ].
      destruct sentence; [ | discriminate ].
      destruct Hpending; congruence.
  - eapply (hoare_conseq quiet_text_callback); [ by intros s [-> _] | | ].
    { intros r s H. exact H. }
    apply hoare_after; [ calm; done | intros _ ].
    eapply hoare_conseq; [ | | apply recognise_final_resets ]; [ done | ].
    by intros [u|e] s [? ?].
Qed.

(** Without a model, or with nothing to flush, a final call does
    nothing. *)
Lemma final_flush_idle (a : AudioCaptureModule) :
  asr_model_loaded a = false
  ∨ (speech_buffer a = [] ∧ current_sentence a = []) →
  process_asr_buffer env true a = (Ok tt, a, []).
Proof.
  intros H. unfold process_asr_buffer, bind, gets, try_except, when, ret.
  destruct (asr_model_loaded a) eqn:E; simpl; [ | done ].
  destruct H as [H | [Hb Hs]]; [ discriminate | ].
  rewrite Hb. simpl. by rewrite Hs.
Qed.
End AudioCaptureFacts.

(** C3, amended.  When the recogniser, the punctuation model and the text
    callback answer without raising, [process_asr_buffer(is_final=True)]
    with the ASR model loaded and something to flush (sound in the buffer
    or a pending sentence) leaves the decoder's cache empty, in the
    empty-buffer branch as in the others; without a model, or with nothing
    buffered and nothing pending, the call returns at once and changes
    nothing, the cache included. *)
Theorem final_flush_resets_cache
    (env : AudioCapture.Env) (a : AudioCapture.AudioCaptureModule) :
  Notions.models_answer env →
  Notions.quiet_text_callback a →
  (AudioCapture.asr_model_loaded a = true →
   AudioCapture.speech_buffer a ≠ [] ∨ AudioCapture.current_sentence a ≠ [] →
   AudioCapture.asr_cache (final (AudioCapture.process_asr_buffer env true a)) = ∅)
  ∧ (AudioCapture.asr_model_loaded a = false
     ∨ (AudioCapture.speech_buffer a = [] ∧ AudioCapture.current_sentence a = []) →
     AudioCapture.process_asr_buffer env true a = (Ok tt, a, [])).
Proof.
  intros Henv Hquiet. split.
  - intros Hloaded Hpending. by apply final_flush_pending.
  - apply final_flush_idle.
Qed.

(** C3, as the specification states it, fails: a final flush with nothing
    buffered and nothing pending returns at once and leaves the cache as
    the recogniser filled it. *)
Lemma final_flush_idle_counterexample :
  AudioCapture.asr_model_loaded Samples.idle_with_cache = true
  ∧ AudioCapture.speech_buffer Samples.idle_with_cache = []
  ∧ AudioCapture.current_sentence Samples.idle_with_cache = []
  ∧ AudioCapture.asr_cache
      (final (AudioCapture.process_asr_buffer Samples.working_models true
                Samples.idle_with_cache))
    = {[ lit "frames" := 1%Z ]}
  ∧ AudioCapture.asr_cache
      (final (AudioCapture.process_asr_buffer Samples.working_models true
                Samples.idle_with_cache))
    ≠ ∅.
Proof.
  repeat split. simpl. apply insert_non_empty.
Qed.

Lemma final_flush_resets_cache_witness :
  AudioCapture.asr_cache
    (final (AudioCapture.process_asr_buffer Samples.working_models true
              Samples.with_sound))
  = ∅.
Proof.
  apply (final_flush_resets_cache Samples.working_models Samples.with_sound).
  - split; intros; reflexivity.
  - intros f text fin H. vm_compute in H. injection H as <-. reflexivity.
  - reflexivity.
  - left. discriminate.
Defined.

(* ===================================================================== *)
(** * Properties of the pipeline coordinator *)
(* ===================================================================== *)

Section PipelineFacts.
Import Pipeline Notions.
Local Open Scope Z_scope.

(** The observers are called one after the other; what they raise is
    caught, and the coordinator is as it was. *)
Lemma notify_run {A} (ev : event) (call : A → outcome unit) (cbs : list A)
    (p : Pipeline) :
  notify ev call cbs p = (Ok tt, p, replicate (length cbs) ev).
Proof.
  induction cbs as [|cb cbs IH]; simpl; [ done | ].
  unfold bind, try_except, extern, ret in *.
  destruct (call cb) as [[]|e]; simpl; by rewrite IH.
Qed.

Lemma notify_keeps {A} (P : Pipeline → Prop) (ev : event)
    (call : A → outcome unit) (cbs : list A) :
  preserves P (notify ev call cbs).
Proof. unfold preserves, hoare. intros p Hp. by rewrite notify_run. Qed.

Lemma report_status_run (st : status) (p : Pipeline) :
  report_status st p
  = (Ok tt, p,
     Status st :: replicate (length (status_callbacks p)) (StatusObserver st)).
Proof.
  unfold report_status, bind, emit, gets. simpl. by rewrite notify_run.
Qed.

Lemma report_error_run (m : msg) (p : Pipeline) :
  report_error m p
  = (Ok tt, set_error_count (error_count p + 1) p,
     Error m :: replicate (length (error_callbacks p)) (ErrorObserver m)).
Proof.
  unfold report_error, bind, emit, gets, modify. simpl. by rewrite notify_run.
Qed.

Lemma report_status_keeps (P : Pipeline → Prop) (st : status) :
  preserves P (report_status st).
Proof.
  unfold report_status. apply preserves_bind; [ apply preserves_emit | intros _ ].
  apply preserves_bind; [ apply preserves_gets | intros cbs ].
  apply notify_keeps.
Qed.

Lemma report_status_succeeds (P : Pipeline → Prop) (st : status) :
  succeeds P (report_status st).
Proof.
  unfold succeeds, hoare. intros p Hp.
  unfold report_status, bind, emit, gets, result, final. simpl.
  by rewrite notify_run.
Qed.




(** [stop_translation] does nothing at all unless [is_running] is set. *)
Lemma stop_translation_not_running (env : Env) (p : Pipeline) :
  is_running p = false → stop_translation env p = (Ok tt, p, []).
Proof. intros H. unfold stop_translation, bind, gets. by rewrite H. Qed.

(** Whenever the translation service starts and the mixer then cannot
    be initialised, the failed start leaves the translation service
    running. *)
Lemma start_translation_no_rollback (env : Env) (p : Pipeline)
    (tr : Translator.TranslationModule) (tts : TTS.TextToSpeechModule) (e : exn) :
  is_initialized p = true → is_running p = false →
  translation_module p = Some tr →
  Translator.running tr = false → Translator.model_loaded tr = true →
  translator_thread_start env = Ok tt →
  tts_module p = Some tts →
  TTS.running tts = false → TTS.is_mixer_initialized tts = false →
  TTS.mixer_init (tts_env env) = Raised e →
  result (start_translation env p) = Ok false
  ∧ is_running (final (start_translation env p)) = false
  ∧ translator_running (final (start_translation env p)) = true.
Proof.
  intros Hinit Hrun Htr Htrr Htrm Hth Htts Httsr Hmix Hraise.
  unfold start_translation, stop_translation, call_translator, call_tts, call_audio,
    call_module, Translator.start_translation_service, TTS.start_tts_service,
    TTS.initialize_mixer, TTS.report_error, Translator.report_error,
    on_tts_event, on_translator_event,
    try_except, bind, gets, modify, emit, extern, ret, raise, when,
    result, final, translator_running.
  repeat (progress (simpl; rewrite ?report_status_run, ?report_error_run,
                      ?Hinit, ?Hrun, ?Htr, ?Htrr, ?Htrm, ?Hth, ?Htts, ?Httsr,
                      ?Hmix, ?Hraise)).
  destruct (TTS.error_callback tts) as [f|] eqn:Ecb;
    repeat (progress (simpl; rewrite ?report_status_run, ?report_error_run,
                        ?Hrun, ?Ecb)); [ | done ].
  destruct (f (TTS.MixerInitFailed e)) as [[]|e1];
    repeat (progress (simpl; rewrite ?report_status_run, ?report_error_run,
                        ?Hrun, ?Ecb)); [ done | ].
  destruct (f (TTS.StartFailed e1)) as [[]|e2];
    repeat (progress (simpl; rewrite ?report_status_run, ?report_error_run,
                        ?Hrun, ?Ecb)); done.
Qed.


End PipelineFacts.

#[global] Hint Resolve notify_keeps report_status_keeps : keeps.


(** C1 fails on the code.  On a machine whose sound output cannot be
    opened, [start_translation] on an initialized, stopped coordinator
    starts the translation service, fails to start the text-to-speech
    service, reports the failure and calls [stop_translation] — which
    returns at once, because [is_running] has not been set yet.  The
    answer is [False], and the translation service is left running, with
    the session record still in place. *)
Theorem start_translation_leaves_translator_running :
  let p := Samples.initialized_pipeline in
  let r := Pipeline.start_translation Samples.no_sound_output p in
  Pipeline.is_initialized p = true
  ∧ Pipeline.is_running p = false
  ∧ Pipeline.translator_running p = false
  ∧ result r = Ok false
  ∧ Pipeline.is_running (final r) = false
  ∧ Pipeline.translator_running (final r) = true
  ∧ Pipeline.tts_running (final r) = false
  ∧ Pipeline.audio_running (final r) = false
  ∧ Pipeline.is_some (Pipeline.current_session (final r)) = true
  ∧ events r
    = [ Pipeline.Status Pipeline.Starting;
        Pipeline.OfTranslator Translator.ThreadStart;
        Pipeline.OfTts TTS.MixerInit;
        Pipeline.OfTts
          (TTS.ErrorCallback (TTS.MixerInitFailed (RuntimeError 8)));
        Pipeline.Error
          (Pipeline.TtsModuleError (TTS.MixerInitFailed (RuntimeError 8)));
        Pipeline.Error (Pipeline.StartFailed (RuntimeError 2)) ].
Proof. vm_compute. repeat split. Qed.



(* ===================================================================== *)
(** * Further properties of the configuration store *)
(* ===================================================================== *)

Section SettingsMore.
Import Settings Notions.

(** On the default table two different language pairs never share a
    translation model, as long as the codes of one of them are free of
    hyphens. *)
Theorem translation_models_distinct (cfg : SystemConfig) (a b s t : pystr) :
  translation_models (model cfg) = default_translation_models →
  45%Z ∉ a → 45%Z ∉ b →
  (s, t) ≠ (a, b) →
  get_translation_model cfg s t ≠ get_translation_model cfg a b.
Proof.
  intros Htbl Ha Hb Hne Heq.
  rewrite !get_translation_model_templated in Heq by done.
  unfold templated_model in Heq. apply app_inv_head in Heq.
  apply Hne. by destruct (lang_pair_inj a b s t Ha Hb Heq) as [-> ->].
Qed.

Lemma translation_models_distinct_witness :
  get_translation_model init (lit "en") (lit "zh")
  ≠ get_translation_model init (lit "zh") (lit "en").
Proof.
  apply (translation_models_distinct init (lit "zh") (lit "en"));
    [ reflexivity | compute_done | compute_done | discriminate ].
Defined.
End SettingsMore.

(* ===================================================================== *)
(** * Further properties of the incremental strategy *)
(* ===================================================================== *)

Section StrategyMore.
Import Translator Notions.
Local Open Scope Z_scope.

Lemma slice_from_suffix (s : pystr) (i : Z) : Py.slice_from s i `suffix_of` s.
Proof. unfold Py.slice_from. apply suffix_drop. Qed.

(** Whatever the sizes, [prepare_text_for_translation] answers [None]
    exactly when [should_translate] says no, and a text it returns is
    always a tail of the stored context followed by the new text: it
    cuts at the front, and adds or reorders nothing. *)
Theorem prepared_text_is_suffix (st : SimulTransStrategy)
    (new_text : pystr) (is_final : bool) :
  match (prepare_text_for_translation st new_text is_final).1 with
  | None => should_translate st new_text is_final = false
  | Some text =>
      should_translate st new_text is_final = true
      ∧ text `suffix_of` (previous_context st ++ new_text)
  end.
Proof.
  unfold prepare_text_for_translation.
  destruct (should_translate st new_text is_final); simpl; [ | done ].
  destruct (is_final || Py.search_mark_at_end (Py.strip new_text)); simpl.
  - split; [ done | ]. by apply suffix_app_r.
  - split; [ done | ].
    destruct (chunk_size st + overlap st <? Py.len (previous_context st ++ new_text));
      [ apply slice_from_suffix | done ].
Qed.

(** With an overlap of at least one character the context kept for the
    next call is a tail of the returned text and never longer than the
    overlap; a call that returns nothing keeps the context as it was. *)
Theorem stored_context_bounded (st : SimulTransStrategy)
    (new_text : pystr) (is_final : bool) :
  1 ≤ overlap st →
  Py.len (previous_context st) ≤ overlap st →
  let r := prepare_text_for_translation st new_text is_final in
  Py.len (previous_context r.2) ≤ overlap st
  ∧ chunk_size r.2 = chunk_size st ∧ overlap r.2 = overlap st
  ∧ match r.1 with
    | Some text => previous_context r.2 `suffix_of` text
    | None => previous_context r.2 = previous_context st
    end.
Proof.
  intros Hov Hctx. unfold prepare_text_for_translation.
  destruct (should_translate st new_text is_final); simpl; [ | done ].
  destruct (is_final || Py.search_mark_at_end (Py.strip new_text)); simpl.
  - split; [ unfold Py.len; simpl; lia | ]. repeat split. apply suffix_nil.
  - set (text := if chunk_size st + overlap st <? Py.len (previous_context st ++ new_text)
                 then _ else _).
    destruct (overlap st <? Py.len text) eqn:E.
    + apply Z.ltb_lt in E. split; [ | repeat split; apply slice_from_suffix ].
      unfold Py.slice_from, Py.norm_index, Py.len in *.
      replace (- overlap st <? 0) with true by (symmetry; lia).
      rewrite length_drop. lia.
    + apply Z.ltb_ge in E. split; [ lia | done ].
Qed.

Lemma stored_context_bounded_witness :
  Py.len (previous_context
            (prepare_text_for_translation (new_strategy 10 3)
               (lit "abcdefghijklmn") false).2) ≤ 3.
Proof.
  apply (stored_context_bounded (new_strategy 10 3) (lit "abcdefghijklmn") false);
    [ simpl; lia | unfold Py.len; simpl; lia ].
Defined.

Lemma prepare_text_refines_spec_witness :
  prepare_text_for_translation (new_strategy 128 32)
    (concat (replicate 17 (lit "translate "))) false
  = spec_prepare (new_strategy 128 32)
      (concat (replicate 17 (lit "translate "))) false.
Proof.
  apply (prepare_text_refines_spec (new_strategy 128 32)); simpl; lia.
Defined.
End StrategyMore.

(* ===================================================================== *)
(** * Properties of translating a text *)
(* ===================================================================== *)

Section TranslatorWorkFacts.
Import Translator TranslatorWork Notions MoreNotions.
Local Open Scope Z_scope.

(** ** Stripping *)

Lemma head_rev (s : pystr) : head (rev s) = list.last s.
Proof.
  induction s as [|x s _] using rev_ind; [ done | ].
  by rewrite rev_unit, last_snoc.
Qed.

Lemma last_rev (s : pystr) : list.last (rev s) = head s.
Proof. by rewrite <- head_rev, rev_involutive. Qed.

Lemma lstrip_head (s : pystr) (c : Z) :
  head (Py.lstrip s) = Some c → Py.is_space c = false.
Proof.
  induction s as [|x s IH]; simpl; [ done | ].
  destruct (Py.is_space x) eqn:E; [ done | ]. simpl. by intros [= <-].
Qed.

Lemma lstrip_fixed (s : pystr) :
  (∀ c, head s = Some c → Py.is_space c = false) → Py.lstrip s = s.
Proof. destruct s as [|c s]; simpl; [ done | ]. intros H. by rewrite (H c). Qed.

Lemma lstrip_suffix (s : pystr) : Py.lstrip s `suffix_of` s.
Proof.
  induction s as [|c s IH]; simpl; [ done | ].
  destruct (Py.is_space c); [ by apply suffix_cons_r | done ].
Qed.

Lemma suffix_last (l k : pystr) (c : Z) :
  l `suffix_of` k → list.last l = Some c → list.last k = Some c.
Proof.
  intros [p ->] H. apply last_Some in H as [l' ->].
  by rewrite app_assoc, last_snoc.
Qed.

Lemma strip_trimmed (s : pystr) : trimmed (Py.strip s).
Proof.
  unfold Py.strip, Py.rstrip, trimmed. split; intros c H.
  - rewrite <- last_rev, rev_involutive in H.
    apply (suffix_last _ _ _ (lstrip_suffix _)) in H.
    rewrite last_rev in H. by apply lstrip_head in H.
  - rewrite <- head_rev, rev_involutive in H. by apply lstrip_head in H.
Qed.

Lemma strip_fixed (s : pystr) : trimmed s → Py.strip s = s.
Proof.
  intros [H1 H2]. unfold Py.strip, Py.rstrip.
  rewrite (lstrip_fixed s H1), (lstrip_fixed (rev s)); [ apply rev_involutive | ].
  intros c. rewrite head_rev. apply H2.
Qed.

Lemma strip_idempotent (s : pystr) : Py.strip (Py.strip s) = Py.strip s.
Proof. apply strip_fixed, strip_trimmed. Qed.

Lemma blank_strip (s : pystr) : Py.blank (Py.strip s) = Py.blank s.
Proof. unfold Py.blank. by rewrite strip_idempotent. Qed.

(** ** Squeezing runs of marks *)

Lemma ascii_mark_sentence (c : Z) :
  ascii_mark c = true → Py.sentence_mark c = true.
Proof.
  unfold ascii_mark, Py.sentence_mark. intros H.
  rewrite !orb_true_iff in *. tauto.
Qed.

Lemma mark_not_space (c : Z) : Py.sentence_mark c = true → Py.is_space c = false.
Proof.
  unfold Py.sentence_mark, Py.is_space. rewrite !orb_true_iff, !Z.eqb_eq.
  intros H. repeat destruct H as [H | H]; subst; reflexivity.
Qed.

Lemma squeeze_last (s : pystr) : list.last (squeeze_marks s) = list.last s.
Proof.
  induction s as [|x s IH]; [ done | ]. destruct s as [|y rest].
  - simpl. by rewrite andb_false_r.
  - change (squeeze_marks (x :: y :: rest))
      with (if ascii_mark x && ascii_mark y
            then squeeze_marks (y :: rest)
            else x :: squeeze_marks (y :: rest)).
    rewrite last_cons_cons.
    destruct (ascii_mark x && ascii_mark y); [ exact IH | ].
    rewrite last_cons, IH.
    destruct (list.last (y :: rest)) eqn:E; [ done | ].
    by apply last_None in E.
Qed.

Lemma squeeze_nil (s : pystr) : squeeze_marks s = [] ↔ s = [].
Proof.
  split; [ | by intros -> ]. intros H.
  apply last_None. rewrite <- squeeze_last, H. done.
Qed.

(** The first character after squeezing is the old first character or a
    mark. *)
Lemma squeeze_head (s : pystr) (c : Z) :
  head (squeeze_marks s) = Some c →
  head s = Some c ∨ ascii_mark c = true.
Proof.
  induction s as [|x s IH]; [ done | ]. destruct s as [|y rest].
  - simpl. rewrite andb_false_r. simpl. auto.
  - change (squeeze_marks (x :: y :: rest))
      with (if ascii_mark x && ascii_mark y
            then squeeze_marks (y :: rest)
            else x :: squeeze_marks (y :: rest)).
    destruct (ascii_mark x && ascii_mark y) eqn:E; [ | simpl; auto ].
    intros H. apply IH in H as [H | H]; [ | auto ].
    injection H as <-. right. by apply andb_prop in E as [_ ?].
Qed.

Lemma squeeze_trimmed (s : pystr) : trimmed s → trimmed (squeeze_marks s).
Proof.
  intros [H1 H2]. split; intros c H.
  - apply squeeze_head in H as [H | H]; [ by apply H1 | ].
    by apply mark_not_space, ascii_mark_sentence.
  - rewrite squeeze_last in H. by apply H2.
Qed.

Lemma squeeze_squeezed (s : pystr) : squeezed (squeeze_marks s).
Proof.
  induction s as [|x s IH]; [ done | ]. destruct s as [|y rest].
  - simpl. rewrite andb_false_r. simpl. by rewrite andb_false_r.
  - change (squeeze_marks (x :: y :: rest))
      with (if ascii_mark x && ascii_mark y
            then squeeze_marks (y :: rest)
            else x :: squeeze_marks (y :: rest)).
    destruct (ascii_mark x && ascii_mark y) eqn:E; [ done | ].
    split; [ | done ].
    destruct (squeeze_marks (y :: rest)) as [|z r] eqn:Ez;
      [ by rewrite andb_false_r | ].
    assert (head (squeeze_marks (y :: rest)) = Some z) as Hz by by rewrite Ez.
    apply andb_false_iff in E as [E | E]; [ by rewrite E | ].
    apply squeeze_head in Hz as [[= <-] | Hz]; [ by rewrite E, andb_false_r | ].
    (* [z] is a mark that came forward: then [y] was a mark too *)
    exfalso. clear IH. revert Ez.
    change (squeeze_marks (y :: rest))
      with (if ascii_mark y
               && match rest with y' :: _ => ascii_mark y' | [] => false end
            then squeeze_marks rest else y :: squeeze_marks rest).
    rewrite E. simpl. intros [= -> _]. congruence.
Qed.

Lemma squeeze_fixed (s : pystr) : squeezed s → squeeze_marks s = s.
Proof.
  induction s as [|x rest IH]; [ done | ]. intros [H1 H2].
  simpl. rewrite H1. f_equal. by apply IH.
Qed.

Lemma squeezed_snoc (s : pystr) (d : Z) :
  squeezed s →
  (∀ c, list.last s = Some c → ascii_mark c = false) →
  squeezed (s ++ [d]).
Proof.
  induction s as [|x s IH]; intros Hs Hlast; [ simpl; by rewrite andb_false_r | ].
  destruct s as [|y rest].
  - simpl. rewrite (Hlast x eq_refl). simpl. by rewrite andb_false_r.
  - destruct Hs as [H1 H2]. split; [ exact H1 | ].
    apply IH; [ done | ]. intros c Hc. apply Hlast. by rewrite last_cons_cons.
Qed.

(** ** [_post_process_translation] *)

Lemma search_mark_at_end_last (s : pystr) (c : Z) :
  list.last s = Some c → Py.sentence_mark c = true → Py.search_mark_at_end s = true.
Proof.
  intros H Hc. unfold Py.search_mark_at_end.
  rewrite <- head_rev in H. destruct (rev s) as [|d r]; [ done | ].
  injection H as ->. by rewrite Hc.
Qed.

Lemma search_mark_at_end_false (s : pystr) (c : Z) :
  Py.search_mark_at_end s = false → list.last s = Some c → Py.sentence_mark c = false.
Proof.
  unfold Py.search_mark_at_end. intros H Hc.
  rewrite <- head_rev in Hc. destruct (rev s) as [|d r]; [ done | ].
  injection Hc as ->. by apply orb_false_iff in H as [? _].
Qed.

Lemma search_mark_at_end_trimmed (s : pystr) :
  trimmed s → Py.search_mark_at_end s = true → ends_sentence s.
Proof.
  intros [_ Ht] H. right. unfold Py.search_mark_at_end in H.
  destruct (rev s) as [|d r] eqn:E; [ done | ].
  assert (list.last s = Some d) as Hd by by rewrite <- head_rev, E.
  exists d. split; [ done | ].
  apply orb_true_iff in H as [H | H]; [ done | ].
  apply andb_prop in H as [H _]. apply Z.eqb_eq in H as ->.
  by specialize (Ht 10 Hd).
Qed.

Lemma post_process_shape (text : pystr) :
  trimmed (post_process_translation text)
  ∧ squeezed (post_process_translation text)
  ∧ ends_sentence (post_process_translation text).
Proof.
  unfold post_process_translation.
  set (t := squeeze_marks (Py.strip text)).
  assert (trimmed t) as Ht by apply squeeze_trimmed, strip_trimmed.
  assert (squeezed t) as Hs by apply squeeze_squeezed.
  clearbody t. destruct t as [|x t']; [ by repeat split; try left | ].
  set (t := x :: t') in *. change (Py.truthy t) with true.
  change (lit ".") with [46].
  destruct (Py.search_mark_at_end t) eqn:E; unfold negb, andb.
  - split; [ done | ]. split; [ done | ]. by apply search_mark_at_end_trimmed.
  - split; [ | split ].
    + destruct Ht as [H1 H2]. split; intros c Hc.
      * by apply H1.
      * rewrite last_snoc in Hc. by injection Hc as <-.
    + apply squeezed_snoc; [ done | ]. intros c Hc.
      apply (search_mark_at_end_false _ _ E) in Hc.
      destruct (ascii_mark c) eqn:Ec; [ | done ].
      apply ascii_mark_sentence in Ec. congruence.
    + right. exists 46. by rewrite last_snoc.
Qed.

(** Post-processing leaves a text that is empty or ends in a sentence
    mark, has no white space at its ends and no two marks of [.!?] in a
    row; and applying it a second time changes nothing. *)
Theorem post_process_idempotent (text : pystr) :
  ends_sentence (post_process_translation text)
  ∧ trimmed (post_process_translation text)
  ∧ squeezed (post_process_translation text)
  ∧ post_process_translation (post_process_translation text)
    = post_process_translation text.
Proof.
  destruct (post_process_shape text) as (Ht & Hs & He).
  split; [ done | ]. split; [ done | ]. split; [ done | ].
  set (r := post_process_translation text) in *.
  unfold post_process_translation at 1.
  rewrite (strip_fixed r Ht), (squeeze_fixed r Hs).
  destruct He as [-> | (c & Hc & Hm)]; [ done | ].
  by rewrite (search_mark_at_end_last r c Hc Hm), andb_false_r.
Qed.

(** The result is empty exactly for a blank text. *)
Theorem post_process_empty (text : pystr) :
  post_process_translation text = [] ↔ Py.blank text = true.
Proof.
  unfold post_process_translation, Py.blank.
  set (t := squeeze_marks (Py.strip text)).
  assert (t = [] ↔ Py.strip text = []) as Ht by apply squeeze_nil.
  destruct t as [|x t'] eqn:Et.
  - simpl. destruct (Py.strip text); [ done | ].
    destruct Ht as [Ht _]. by specialize (Ht eq_refl).
  - simpl. split.
    + destruct (negb _); [ intros H; by destruct t' | done ].
    + destruct (Py.strip text); [ | done ]. intros _.
      destruct Ht as [_ Ht]. by specialize (Ht eq_refl).
Qed.

(** ** [_translate_text] and its cache *)

Ltac run_translate :=
  unfold translate_text, report_work_error, try_except, bind, gets, modify,
    extern, ret, raise, result, final, events.

(** A call either delivers a translation or leaves the module exactly as
    it was: after an error nothing is cached. *)
Theorem translate_text_failure_changes_nothing
    (env : Env) (t : TranslationModule) (text : pystr) :
  (∃ out, result (translate_text env text t) = Ok (Some out))
  ∨ final (translate_text env text t) = t.
Proof.
  run_translate.
  destruct (Py.blank text); [ right; done | ]. simpl.
  destruct (translation_cache t !! text); [ right; done | ]. simpl.
  destruct (model_loaded t); simpl.
  - destruct (generate env (Py.strip text)); simpl; [ left; eauto | ].
    right. destruct (error_callback t); simpl; [ | done ].
    by destruct (on_error env (TranslateError e)).
  - right. destruct (error_callback t); simpl; [ | done ].
    by destruct (on_error env (TranslateError (RuntimeError 0))).
Qed.

(** Once a text has been translated, the stripped text is answered from
    the cache: the same translation, and the model is not asked again. *)
Theorem translate_text_cached
    (env : Env) (t : TranslationModule) (text out : pystr) :
  keys_trimmed t →
  result (translate_text env text t) = Ok (Some out) →
  keys_trimmed (final (translate_text env text t))
  ∧ translate_text env (Py.strip text) (final (translate_text env text t))
    = (Ok (Some out), final (translate_text env text t), []).
Proof.
  intros Hkeys. run_translate. rewrite blank_strip.
  destruct (Py.blank text) eqn:Eb; simpl.
  { intros [= <-]. done. }
  destruct (translation_cache t !! text) as [cached|] eqn:Ec; simpl.
  { intros [= <-]. split; [ done | ].
    destruct (Hkeys _ _ Ec) as [-> _]. by rewrite Ec. }
  destruct (model_loaded t); simpl.
  - destruct (generate env (Py.strip text)) as [decoded|e]; simpl.
    + intros [= <-]. split.
      * intros k v. simpl. destruct (decide (k = Py.strip text)) as [-> | Hne].
        -- intros _. by rewrite strip_idempotent, blank_strip.
        -- rewrite lookup_insert_ne by done. apply Hkeys.
      * simpl. by rewrite lookup_insert_eq.
    + destruct (error_callback t); simpl; [ | done ].
      by destruct (on_error env (TranslateError e)).
  - destruct (error_callback t); simpl; [ | done ].
    by destruct (on_error env (TranslateError (RuntimeError 0))).
Qed.

Lemma translate_text_cached_witness :
  translate_text MoreSamples.ok_model (lit "ni hao")
    (final (translate_text MoreSamples.ok_model (lit " ni hao ")
              MoreSamples.translator))
  = (Ok (Some (lit "ok.")),
     final (translate_text MoreSamples.ok_model (lit " ni hao ")
              MoreSamples.translator), []).
Proof.
  apply (translate_text_cached MoreSamples.ok_model MoreSamples.translator
           (lit " ni hao ") (lit "ok.")).
  - intros k v H. simpl in H. by rewrite lookup_empty in H.
  - reflexivity.
Defined.

(** The cache is asked with the text as given but filled under the
    stripped text: a text with white space at an end never finds its
    entry, and the model is asked every time. *)
Theorem translate_text_untrimmed_misses
    (env : Env) (t : TranslationModule) (text : pystr) :
  keys_trimmed t →
  model_loaded t = true →
  Py.blank text = false →
  Py.strip text ≠ text →
  head (events (translate_text env text t)) = Some (Generate (Py.strip text)).
Proof.
  intros Hkeys Hloaded Hb Hne. run_translate. rewrite Hb. simpl.
  destruct (translation_cache t !! text) as [cached|] eqn:Ec.
  { destruct (Hkeys _ _ Ec) as [? _]. done. }
  simpl. rewrite Hloaded. simpl.
  destruct (generate env (Py.strip text)); simpl; [ done | ].
  destruct (error_callback t); simpl; [ | done ].
  by destruct (on_error env (TranslateError e)).
Qed.

Lemma translate_text_untrimmed_misses_witness :
  head (events (translate_text MoreSamples.ok_model (lit " ni hao ")
                  MoreSamples.translator))
  = Some (Generate (lit "ni hao")).
Proof.
  apply (translate_text_untrimmed_misses MoreSamples.ok_model).
  - intros k v H. simpl in H. by rewrite lookup_empty in H.
  - reflexivity.
  - reflexivity.
  - by vm_compute.
Defined.
End TranslatorWorkFacts.

(* ===================================================================== *)
(** * Further properties of the model manager *)
(* ===================================================================== *)

Section ModelManagerMore.
Import ModelManager Notions MoreNotions.

Variable env : Env.

(** ** Steps that leave a property of the caches alone *)

Section Frame.
Variable P : ModelManager → Prop.
Hypothesis P_tick : ∀ m, P m → P (tick m).
Hypothesis P_status : ∀ f m, P m → P (with_status f m).

Lemma external_frame {A} (c : call) (answer : nat → outcome A) :
  preserves P (external c answer).
Proof. unfold external. keep; auto. Qed.
Hint Resolve external_frame : keeps.

Lemma report_progress_frame name percent :
  preserves P (report_progress name percent).
Proof. unfold report_progress. keep; auto. Qed.
Hint Resolve report_progress_frame : keeps.

Lemma download_funasr_frame name : preserves P (download_funasr_model env name).
Proof. unfold download_funasr_model. keep; auto. Qed.

Lemma download_translation_frame name :
  preserves P (download_translation_model env name).
Proof. unfold download_translation_model. keep; auto. Qed.

Lemma load_pair_frame name : preserves P (load_pair env name).
Proof. unfold load_pair. keep; auto. Qed.
End Frame.

Lemma preserves_hoare {A} (P : ModelManager → Prop) (m : M event ModelManager A)
    (Q : outcome A → ModelManager → Prop) :
  preserves P m → (∀ r s, P s → Q r s) → hoare P m Q.
Proof. intros Hm HQ. eapply hoare_conseq; [ | | exact Hm ]; eauto. Qed.

(** What a load that answers has put into the caches. *)
Lemma load_funasr_post name force :
  hoare (λ _, True) (load_funasr_model env name force)
    (λ r s, ∀ model, r = Ok (Some model) →
                     model_cache s !! key (lit "funasr") name = Some model).
Proof.
  unfold load_funasr_model.
  apply (hoare_bind _ (λ cache s, cache = model_cache s)).
  { by apply hoare_gets. }
  intros cache.
  destruct (if force then None else cache !! key (lit "funasr") name)
    as [cached|] eqn:E.
  - apply hoare_ret. intros s -> model [= <-]. by destruct force.
  - apply (hoare_try _ (λ _ _, True)).
    + apply (hoare_bind _ (λ _ _, True)).
      { apply hoare_any. by intros [a|e] s. }
      intros have. apply (hoare_bind _ (λ _ _, True)).
      { apply hoare_any. by intros [a|e] s. }
      intros _. apply (hoare_bind _ (λ _ _, True)).
      { apply hoare_any. by intros [a|e] s. }
      intros h.
      apply (hoare_bind _ (λ _ s, model_cache s !! key (lit "funasr") name
                                  = Some (FunasrModel h))).
      { apply hoare_modify. intros s _. simpl. by rewrite lookup_insert_eq. }
      intros _. apply hoare_ret. by intros s Hs model [= <-].
    + intros e. apply hoare_ret. by intros s _ model.
Qed.

(** A FunASR model that has been loaded is served from the cache from
    then on: the same object, without asking the loader. *)
Theorem load_funasr_model_cached (m : ModelManager) (name : pystr)
    (force : bool) (model : model_obj) :
  result (load_funasr_model env name force m) = Ok (Some model) →
  load_funasr_model env name false (final (load_funasr_model env name force m))
  = (Ok (Some model), final (load_funasr_model env name force m), []).
Proof.
  intros H. pose proof (load_funasr_post name force m I model H) as Hc.
  set (m' := final _) in *. clearbody m'.
  unfold load_funasr_model, bind, gets, ret. simpl. by rewrite Hc.
Qed.

Lemma load_translation_post name force :
  hoare (λ _, True) (load_translation_model env name force)
    (λ r s, ∀ model tok,
        r = Ok (Some model, Some tok) →
        model_cache s !! key (lit "transformers") name = Some model
        ∧ tokenizer_cache s !! key (lit "tokenizer") name = Some tok).
Proof.
  unfold load_translation_model.
  apply (hoare_bind _ (λ cache s, cache = model_cache s)).
  { by apply hoare_gets. }
  intros cache.
  destruct (if force then None else cache !! key (lit "transformers") name)
    as [cached|] eqn:E.
  - apply (hoare_bind _ (λ tc s, cache = model_cache s ∧ tc = tokenizer_cache s)).
    { by apply hoare_gets. }
    intros tc. destruct (tc !! key (lit "tokenizer") name) as [t|] eqn:Et.
    + apply hoare_ret. intros s [-> ->] model tok [= <- <-]. by destruct force.
    + apply hoare_raise. by intros s _ model tok.
  - apply (hoare_try _ (λ _ _, True)).
    + apply (hoare_bind _ (λ _ _, True)).
      { apply hoare_any. by intros [a|e] s. }
      intros have. apply (hoare_bind _ (λ _ _, True)).
      { apply hoare_any. by intros [a|e] s. }
      intros _. apply (hoare_bind _ (λ _ _, True)).
      { apply hoare_any. by intros [a|e] s. }
      intros p.
      apply (hoare_bind _ (λ _ s, model_cache s !! key (lit "transformers") name
                                  = Some (Seq2SeqModel p.2))).
      { apply hoare_modify. intros s _. simpl. by rewrite lookup_insert_eq. }
      intros _.
      apply (hoare_bind _ (λ _ s, model_cache s !! key (lit "transformers") name
                                  = Some (Seq2SeqModel p.2)
                                  ∧ tokenizer_cache s !! key (lit "tokenizer") name
                                    = Some p.1)).
      { apply hoare_modify. intros s Hs. simpl. by rewrite lookup_insert_eq. }
      intros _. apply hoare_ret. by intros s Hs model tok [= <- <-].
    + intros e. apply hoare_ret. by intros s _ model tok.
Qed.

(** A translation model that has been loaded is served from the caches
    from then on: the same model and tokenizer, without asking the
    loader. *)
Theorem load_translation_model_cached (m : ModelManager) (name : pystr)
    (force : bool) (model : model_obj) (tok : tokenizer) :
  result (load_translation_model env name force m) = Ok (Some model, Some tok) →
  load_translation_model env name false
    (final (load_translation_model env name force m))
  = (Ok (Some model, Some tok),
     final (load_translation_model env name force m), []).
Proof.
  intros H.
  destruct (load_translation_post name force m I model tok H) as [Hc Ht].
  set (m' := final _) in *. clearbody m'.
  unfold load_translation_model, bind, gets, ret. simpl. by rewrite Hc, Ht.
Qed.

(** ** A load that fails *)

(** A load that delivers nothing has not touched the caches: what was
    cached before stays cached; also under [force_reload], where the old
    entry survives a failed reload. *)
Theorem failed_load_keeps_caches (m : ModelManager) (name : pystr) (force : bool) :
  (result (load_translation_model env name force m) = Ok (None, None) →
   same_caches m (final (load_translation_model env name force m)))
  ∧ (result (load_funasr_model env name force m) = Ok None →
     same_caches m (final (load_funasr_model env name force m))).
Proof.
  assert (∀ s, same_caches m s → same_caches m (tick s)) as Htick by done.
  assert (∀ f s, same_caches m s → same_caches m (with_status f s)) as Hstatus
    by done.
  split.
  - cut (hoare (same_caches m) (load_translation_model env name force)
           (λ r s, r = Ok (None, None) → same_caches m s)).
    { intros H. by apply H. }
    unfold load_translation_model.
    apply (hoare_bind _ (λ _, same_caches m)); [ by apply hoare_gets | intros cache ].
    destruct (if force then None else cache !! key (lit "transformers") name).
    + apply (hoare_bind _ (λ _, same_caches m)); [ by apply hoare_gets | intros tc ].
      destruct (tc !! key (lit "tokenizer") name);
        [ by apply hoare_ret | by apply hoare_raise ].
    + apply (hoare_try _ (λ _, same_caches m)); [ | intros e; by apply hoare_ret ].
      apply (hoare_bind _ (λ _, same_caches m)).
      { apply preserves_hoare; [ apply preserves_gets | by intros [a|e] ]. }
      intros have. apply (hoare_bind _ (λ _, same_caches m)).
      { apply preserves_hoare; [ | by intros [a|e] ].
        destruct have; [ apply preserves_ret | ].
        apply preserves_bind; [ by apply download_translation_frame | intros ok ].
        destruct ok; [ apply preserves_ret | apply preserves_raise ]. }
      intros _. apply (hoare_bind _ (λ _, same_caches m)).
      { apply preserves_hoare; [ by apply load_pair_frame | by intros [a|e] ]. }
      intros p s Hs. by unfold bind, modify, ret, result, final.
  - cut (hoare (same_caches m) (load_funasr_model env name force)
           (λ r s, r = Ok None → same_caches m s)).
    { intros H. by apply H. }
    unfold load_funasr_model.
    apply (hoare_bind _ (λ _, same_caches m)); [ by apply hoare_gets | intros cache ].
    destruct (if force then None else cache !! key (lit "funasr") name).
    + by apply hoare_ret.
    + apply (hoare_try _ (λ _, same_caches m)); [ | intros e; by apply hoare_ret ].
      apply (hoare_bind _ (λ _, same_caches m)).
      { apply preserves_hoare; [ apply preserves_gets | by intros [a|e] ]. }
      intros have. apply (hoare_bind _ (λ _, same_caches m)).
      { apply preserves_hoare; [ | by intros [a|e] ].
        destruct have; [ apply preserves_ret | ].
        apply preserves_bind; [ by apply download_funasr_frame | intros ok ].
        destruct ok; [ apply preserves_ret | apply preserves_raise ]. }
      intros _. apply (hoare_bind _ (λ _, same_caches m)).
      { apply preserves_hoare; [ by apply external_frame | by intros [a|e] ]. }
      intros h s Hs. by unfold bind, modify, ret, result, final.
Qed.

(** ** Downloads *)

Lemma marked_insert model_type name e m :
  downloaded e = Some true →
  marked model_type name (with_status (<[key model_type name := e]>) m).
Proof.
  intros He. unfold marked, is_model_downloaded. simpl.
  by rewrite lookup_insert_eq, He.
Qed.

(** Neither download raises, whatever the libraries and the progress
    callback do; and when a download answers [True] the model is
    recorded as downloaded. *)
Theorem download_answers (m : ModelManager) (name : pystr) :
  (∃ b, result (download_funasr_model env name m) = Ok b
        ∧ (b = true →
           marked (lit "funasr") name (final (download_funasr_model env name m))))
  ∧ (∃ b, result (download_translation_model env name m) = Ok b
          ∧ (b = true →
             marked (lit "transformers") name
               (final (download_translation_model env name m)))).
Proof.
  split.
  - cut (hoare (λ _, True) (download_funasr_model env name)
           (λ r s, ∃ b, r = Ok b ∧ (b = true → marked (lit "funasr") name s))).
    { intros H. by apply H. }
    unfold download_funasr_model.
    apply (hoare_try _ (λ _ _, True));
      [ | intros e; apply hoare_ret; intros s _; by exists false ].
    apply (hoare_bind _ (λ _ _, True)); [ apply hoare_any; by intros [a|e] | intros _ ].
    apply (hoare_bind _ (λ _ _, True)); [ apply hoare_any; by intros [a|e] | intros _ ].
    apply (hoare_bind _ (λ _, marked (lit "funasr") name)).
    { apply hoare_modify. intros s _. by apply marked_insert. }
    intros _. apply (hoare_bind _ (λ _, marked (lit "funasr") name)).
    { apply preserves_hoare; [ by apply external_frame | by intros [a|e] ]. }
    intros _. apply (hoare_bind _ (λ _, marked (lit "funasr") name)).
    { apply preserves_hoare; [ by apply report_progress_frame | by intros [a|e] ]. }
    intros _. apply hoare_ret. intros s Hs. by exists true.
  - cut (hoare (λ _, True) (download_translation_model env name)
           (λ r s, ∃ b, r = Ok b
                        ∧ (b = true → marked (lit "transformers") name s))).
    { intros H. by apply H. }
    unfold download_translation_model.
    apply (hoare_try _ (λ _ _, True));
      [ | intros e; apply hoare_ret; intros s _; by exists false ].
    do 5 (apply (hoare_bind _ (λ _ _, True));
          [ apply hoare_any; by intros [a|e] | intros _ ]).
    apply (hoare_bind _ (λ _, marked (lit "transformers") name)).
    { apply hoare_modify. intros s _. by apply marked_insert. }
    intros _. apply (hoare_bind _ (λ _, marked (lit "transformers") name)).
    { apply preserves_hoare; [ by apply external_frame | by intros [a|e] ]. }
    intros _. apply (hoare_bind _ (λ _, marked (lit "transformers") name)).
    { apply preserves_hoare; [ by apply report_progress_frame | by intros [a|e] ]. }
    intros _. apply hoare_ret. intros s Hs. by exists true.
Qed.

(** ** Preloading *)

Lemma preload_one_succeeds cb total item n :
  succeeds (λ _, True) (preload_one env cb total item n).
Proof.
  unfold preload_one. destruct item as [model_type model_name].
  apply (hoare_try _ (λ _ _, True)).
  - apply hoare_any. by intros [a|e] s.
  - intros e. by apply hoare_ret.
Qed.

Lemma preload_loop_succeeds cb total items :
  ∀ n, succeeds (λ _, True) (preload_loop env cb total items n).
Proof.
  induction items as [|item items IH]; intros n; simpl.
  - apply succeeds_ret.
  - apply succeeds_bind; [ apply preload_one_succeeds | intros k; apply IH ].
Qed.

(** [preload_models] never raises: a loader, a download or the progress
    callback that raises costs the model at hand and nothing more. *)
Theorem preload_models_never_raises (m : ModelManager)
    (models_config : list (pystr * pystr)) (cb : option callback) :
  is_ok (result (preload_models env models_config cb m)) = true.
Proof.
  cut (succeeds (λ _, True) (preload_models env models_config cb)).
  { intros H. by apply H. }
  unfold preload_models.
  apply succeeds_bind.
  { destruct cb; [ by apply succeeds_modify | apply succeeds_ret ]. }
  intros _. apply succeeds_bind; [ apply preload_loop_succeeds | intros k ].
  apply succeeds_ret.
Qed.
End ModelManagerMore.

Lemma load_funasr_model_cached_witness :
  ModelManager.load_funasr_model MoreSamples.loaders (lit "paraformer-zh") false
    (final (ModelManager.load_funasr_model MoreSamples.loaders
              (lit "paraformer-zh") true MoreSamples.manager))
  = (Ok (Some (ModelManager.FunasrModel 2)),
     final (ModelManager.load_funasr_model MoreSamples.loaders
              (lit "paraformer-zh") true MoreSamples.manager), []).
Proof.
  apply (load_funasr_model_cached MoreSamples.loaders MoreSamples.manager
           (lit "paraformer-zh") true (ModelManager.FunasrModel 2)).
  vm_compute. reflexivity.
Defined.

Lemma load_translation_model_cached_witness :
  ModelManager.load_translation_model MoreSamples.loaders
    (lit "Helsinki-NLP/opus-mt-zh-en") false
    (final (ModelManager.load_translation_model MoreSamples.loaders
              (lit "Helsinki-NLP/opus-mt-zh-en") false MoreSamples.manager))
  = (Ok (Some (ModelManager.Seq2SeqModel 4), Some 3),
     final (ModelManager.load_translation_model MoreSamples.loaders
              (lit "Helsinki-NLP/opus-mt-zh-en") false MoreSamples.manager), []).
Proof.
  apply (load_translation_model_cached MoreSamples.loaders MoreSamples.manager
           (lit "Helsinki-NLP/opus-mt-zh-en") false
           (ModelManager.Seq2SeqModel 4) 3).
  vm_compute. reflexivity.
Defined.

Lemma failed_load_keeps_caches_witness :
  MoreNotions.same_caches MoreSamples.manager
    (final (ModelManager.load_translation_model MoreSamples.no_loaders
              (lit "Helsinki-NLP/opus-mt-zh-en") true MoreSamples.manager))
  ∧ MoreNotions.same_caches MoreSamples.manager
      (final (ModelManager.load_funasr_model MoreSamples.no_loaders
                (lit "paraformer-zh") true MoreSamples.manager)).
Proof.
  split.
  - apply (failed_load_keeps_caches MoreSamples.no_loaders MoreSamples.manager
             (lit "Helsinki-NLP/opus-mt-zh-en") true).
    vm_compute. reflexivity.
  - apply (failed_load_keeps_caches MoreSamples.no_loaders MoreSamples.manager
             (lit "paraformer-zh") true).
    vm_compute. reflexivity.
Defined.

(* ===================================================================== *)
(** * Further properties of the speech module *)
(* ===================================================================== *)

Section TTSMore.
Import TTS Notions.
Local Open Scope Z_scope.

Variable env : Env.

Ltac run_tts :=
  unfold stop_tts_service, start_tts_service, stop_current_playback,
    initialize_mixer, synthesize_speech, speak, report_playback_status,
    report_error, when, bind, modify, gets, try_except, extern, emit, ret,
    raise, result, final, events;
  simpl.

Lemma stop_tts_service_stops (t : TextToSpeechModule) :
  result (stop_tts_service env t) = Ok tt
  ∧ running (final (stop_tts_service env t)) = false.
Proof.
  run_tts.
  destruct (is_playing t); simpl;
    [ destruct (music_stop env) as [[]|e]; simpl;
      [ destruct (Py.truthy (current_text t)); simpl;
        [ destruct (playback_callback t) as [f|]; simpl;
          [ destruct (f (current_text t) false) as [[]|e]; simpl | ] | ] | ] | ];
    destruct (thread_alive t); done.
Qed.


Lemma start_tts_service_running (t : TextToSpeechModule) :
  result (start_tts_service env t) = Ok true →
  running (final (start_tts_service env t)) = true.
Proof.
  run_tts. destruct (running t) eqn:Hr; simpl; [ done | ].
  destruct (is_mixer_initialized t); simpl.
  - destruct (thread_start env) as [[]|e]; simpl; [ done | ].
    destruct (error_callback t) as [f|]; simpl; [ | done ].
    by destruct (f (StartFailed e)) as [[]|e'].
  - destruct (mixer_init env) as [[]|e]; simpl.
    + destruct (thread_start env) as [[]|e]; simpl; [ done | ].
      destruct (error_callback t) as [f|]; simpl; [ | done ].
      by destruct (f (StartFailed e)) as [[]|e'].
    + destruct (error_callback t) as [f|] eqn:Hcb; simpl; [ | done ].
      destruct (f (MixerInitFailed e)) as [[]|e']; simpl; [ done | ].
      rewrite Hcb. simpl. by destruct (f (StartFailed e')) as [[]|e''].
Qed.

Lemma speak_running (t : TextToSpeechModule) text voice p :
  running (final (speak text voice p t)) = running t.
Proof.
  run_tts. destruct (running t) eqn:Hr; simpl.
  - by destruct (Py.blank text).
  - destruct (error_callback t) as [f|]; simpl; [ | done ].
    by destruct (f NotStarted) as [[]|e].
Qed.

(** When the worker thread cannot be started, [start_tts_service] does
    not answer [True], yet the module is left marked as running: every
    later call answers [True] at once, without a thread, a mixer call or
    any other effect. *)
Theorem start_tts_service_thread_failure (t : TextToSpeechModule) (e : exn) :
  running t = false →
  (is_mixer_initialized t = true ∨ mixer_init env = Ok tt) →
  thread_start env = Raised e →
  result (start_tts_service env t) ≠ Ok true
  ∧ running (final (start_tts_service env t)) = true
  ∧ thread_alive (final (start_tts_service env t)) = thread_alive t
  ∧ ∀ env', start_tts_service env' (final (start_tts_service env t))
            = (Ok true, final (start_tts_service env t), []).
Proof.
  intros Hr Hm Ht. run_tts. rewrite Hr. simpl.
  destruct (is_mixer_initialized t) eqn:Hi; simpl.
  - rewrite Ht. simpl.
    destruct (error_callback t) as [f|]; simpl;
      [ destruct (f (StartFailed e)) as [[]|e']; simpl | ];
      (split; [ done | ]); (split; [ done | ]); (split; [ done | ]);
      intros env'; run_tts; done.
  - destruct Hm as [Hm|Hm]; [ done | ]. rewrite Hm. simpl. rewrite Ht. simpl.
    destruct (error_callback t) as [f|]; simpl;
      [ destruct (f (StartFailed e)) as [[]|e']; simpl | ];
      (split; [ done | ]); (split; [ done | ]); (split; [ done | ]);
      intros env'; run_tts; done.
Qed.

(** [_synthesize_speech] hands out audio only when the service delivered
    it for this text and the voice in use, never an empty byte string,
    and the synthesis counter goes up by one exactly then; in every other
    case the counter stays.  (The counter is never negative, so the
    average computed from it is defined.) *)
Theorem synthesize_speech_counts (t : TextToSpeechModule) (text : pystr)
    (voice : option pystr) :
  0 ≤ total_synthesis t →
  match result (synthesize_speech env text voice t) with
  | Ok (Some audio) =>
      audio ≠ [] ∧ Py.blank text = false
      ∧ synthesize env text (voice_to_use voice t) = Ok audio
      ∧ total_synthesis (final (synthesize_speech env text voice t))
        = total_synthesis t + 1
  | _ => total_synthesis (final (synthesize_speech env text voice t))
         = total_synthesis t
  end.
Proof.
  intros _.
  run_tts. destruct (Py.blank text) eqn:Hb; simpl; [ done | ].
  destruct (synthesize env text (voice_to_use voice t)) as [[|x audio]|e] eqn:Hs;
    simpl; [ | done | ].
  - destruct (error_callback t) as [f|] eqn:Hcb; simpl; [ | done ].
    destruct (f (NoAudioData text)) as [[]|e]; simpl; [ done | ].
    destruct e; simpl; rewrite Hcb; simpl;
      match goal with |- context [f ?m] => by destruct (f m) as [[]|e'] end.
  - destruct (error_callback t) as [f|] eqn:Hcb;
      destruct e; simpl; rewrite ?Hcb; simpl; try done;
      match goal with |- context [f ?m] => by destruct (f m) as [[]|e'] end.
Qed.
End TTSMore.

Lemma synthesize_speech_counts_witness :
  match result (TTS.synthesize_speech Samples.working_player (lit "hello") None
                  Samples.tts_module) with
  | Ok (Some audio) =>
      audio ≠ [] ∧ Py.blank (lit "hello") = false
      ∧ TTS.synthesize Samples.working_player (lit "hello")
          (TTS.voice_to_use None Samples.tts_module) = Ok audio
      ∧ TTS.total_synthesis
          (final (TTS.synthesize_speech Samples.working_player (lit "hello")
                    None Samples.tts_module))
        = (TTS.total_synthesis Samples.tts_module + 1)%Z
  | _ => TTS.total_synthesis
           (final (TTS.synthesize_speech Samples.working_player (lit "hello")
                     None Samples.tts_module))
         = TTS.total_synthesis Samples.tts_module
  end.
Proof.
  apply (synthesize_speech_counts Samples.working_player Samples.tts_module
           (lit "hello") None).
  simpl. lia.
Defined.

Lemma start_tts_service_thread_failure_witness :
  result (TTS.start_tts_service MoreSamples.no_threads Samples.tts_module)
  ≠ Ok true
  ∧ TTS.running
      (final (TTS.start_tts_service MoreSamples.no_threads Samples.tts_module))
    = true.
Proof.
  destruct (start_tts_service_thread_failure MoreSamples.no_threads
              Samples.tts_module (RuntimeError 5))
    as (H1 & H2 & _); [ reflexivity | by right | reflexivity | ].
  by split.
Defined.

(* ===================================================================== *)
(** * The catalogue of voices *)
(* ===================================================================== *)

Section VoicesFacts.
Import Voices MoreNotions.
Local Open Scope Z_scope.

Lemma add_voice_complete (v : service_voice) (s : VoiceStore) :
  complete v →
  result (add_voice v s) = Ok tt
  ∧ voices_loaded (final (add_voice v s)) = voices_loaded s
  ∧ ∀ l, get_voices_for_language (final (add_voice v s)) l
         = get_voices_for_language s l
           ++ (if decide (Locale v = Some l) then [entry_of v] else []).
Proof.
  destruct v as [[lc|] [sn|] [g|] fn]; intros (H1 & H2 & H3);
    try (by destruct H1); try (by destruct H2); try (by destruct H3).
  unfold add_voice, item, when, bind, gets, modify, ret, result, final,
    get_voices_for_language, entry_of.
  simpl.
  destruct (available_voices s !! lc) as [old|] eqn:E.
  - rewrite bool_decide_true by done. simpl.
    split; [ done | ]. split; [ done | ]. intros l.
    destruct (decide (Some lc = Some l)) as [[= <-]|Hne].
    + by rewrite lookup_alter_eq, E.
    + rewrite lookup_alter_ne by congruence. by rewrite app_nil_r.
  - rewrite bool_decide_false by (by intros [? ?]). simpl.
    split; [ done | ]. split; [ done | ]. intros l.
    destruct (decide (Some lc = Some l)) as [[= <-]|Hne].
    + by rewrite lookup_alter_eq, lookup_insert_eq, E.
    + rewrite lookup_alter_ne, lookup_insert_ne by congruence.
      by rewrite app_nil_r.
Qed.

Lemma add_voices_complete (vs : list service_voice) :
  ∀ s, Forall complete vs →
       result (add_voices vs s) = Ok tt
       ∧ voices_loaded (final (add_voices vs s)) = voices_loaded s
       ∧ ∀ l, get_voices_for_language (final (add_voices vs s)) l
              = get_voices_for_language s l ++ listed l vs.
Proof.
  induction vs as [|v vs IH]; intros s Hvs.
  - simpl. split; [ done | ]. split; [ done | ]. intros l.
    unfold listed. simpl. by rewrite app_nil_r.
  - pose proof (Forall_inv Hvs) as Hv. apply Forall_inv_tail in Hvs.
    destruct (add_voice_complete v s Hv) as (Hr & Hl & Hg).
    simpl. unfold bind, result, final in *.
    destruct (add_voice v s) as [[r s1] t1]; simpl in *. subst r.
    destruct (IH s1 Hvs) as (Hr' & Hl' & Hg').
    unfold result, final in *.
    destruct (add_voices vs s1) as [[r' s2] t2]; simpl in *.
    split; [ done | ]. split; [ congruence | ]. intros l.
    rewrite Hg', Hg, <- app_assoc. f_equal.
    unfold listed. rewrite filter_cons.
    by destruct (decide (Locale v = Some l)).
Qed.

Lemma load_available_voices_loaded (env : Env) (s : VoiceStore)
    (vs : list service_voice) :
  voices_loaded s = false →
  voices_manager_create env = Ok vs →
  Forall complete vs →
  voices_loaded (final (load_available_voices env s)) = true.
Proof.
  intros Hl He Hvs. destruct (add_voices_complete vs s Hvs) as (Hr & _ & _).
  unfold load_available_voices, bind, gets, try_except, extern, modify, ret,
    result, final in *.
  rewrite Hl, He. simpl.
  destruct (add_voices vs s) as [[r s1] t1]; simpl in *. by subst r.
Qed.

(** When the service lists its voices and every voice has its locale,
    short name and gender, a first [load_available_voices] marks the
    catalogue as loaded and files each voice under its locale: a
    language then has what it had before, followed by the service's
    voices of that locale in the service's order. *)
Theorem load_available_voices_groups (env : Env) (s : VoiceStore)
    (vs : list service_voice) :
  voices_loaded s = false →
  voices_manager_create env = Ok vs →
  Forall complete vs →
  result (load_available_voices env s) = Ok tt
  ∧ voices_loaded (final (load_available_voices env s)) = true
  ∧ ∀ l, get_voices_for_language (final (load_available_voices env s)) l
         = get_voices_for_language s l ++ listed l vs.
Proof.
  intros Hl He Hvs. destruct (add_voices_complete vs s Hvs) as (Hr & _ & Hg).
  unfold load_available_voices, bind, gets, try_except, extern, modify, ret,
    result, final in *.
  rewrite Hl, He. simpl.
  destruct (add_voices vs s) as [[r s1] t1]; simpl in *. subst r. simpl.
  split; [ done | ]. split; [ done | ]. exact Hg.
Qed.

Lemma add_voice_loaded (v : service_voice) :
  preserves (λ s, voices_loaded s = false) (add_voice v).
Proof. unfold add_voice, item. keep. Qed.

Lemma add_voices_loaded (vs : list service_voice) :
  preserves (λ s, voices_loaded s = false) (add_voices vs).
Proof.
  induction vs as [|v vs IH]; simpl; [ apply preserves_ret | ].
  apply preserves_bind; [ apply add_voice_loaded | done ].
Qed.

Lemma add_voices_incomplete (vs : list service_voice) :
  ∀ s, ¬ Forall complete vs → is_ok (result (add_voices vs s)) = false.
Proof.
  induction vs as [|v vs IH]; intros s Hvs; [ by destruct Hvs | ].
  simpl. unfold bind, result.
  destruct (decide (complete v)) as [Hv|Hv].
  - destruct (add_voice_complete v s Hv) as (Hr & _).
    unfold result in Hr. destruct (add_voice v s) as [[r s1] t1]; simpl in *.
    subst r. specialize (IH s1). unfold result in IH.
    destruct (add_voices vs s1) as [[r' s2] t2]; simpl in *.
    apply IH. intros H. apply Hvs. by constructor.
  - destruct v as [[lc|] [sn|] [g|] fn];
      try (exfalso; apply Hv; by repeat split);
      unfold add_voice, item, when, bind, gets, modify, ret, raise; simpl;
      try done;
      by destruct (negb _).
Qed.

(** The catalogue is marked as loaded only by a load that went through:
    when the service cannot list its voices, or lists one without
    locale, short name or gender, [voices_loaded] stays false (so that
    the next call asks the service again, on top of whatever entries the
    failed load has left). *)
Theorem load_available_voices_marks (env : Env) (s : VoiceStore) :
  voices_loaded s = false →
  (voices_loaded (final (load_available_voices env s)) = true
   ↔ ∃ vs, voices_manager_create env = Ok vs ∧ Forall complete vs).
Proof.
  intros Hl. split.
  - intros Hm. destruct (voices_manager_create env) as [vs|e] eqn:He.
    + exists vs. split; [ done | ].
      destruct (decide (Forall complete vs)) as [|Hvs]; [ done | exfalso ].
      pose proof (add_voices_incomplete vs s Hvs) as Hr.
      pose proof (add_voices_loaded vs s Hl) as Hk.
      revert Hm.
      unfold load_available_voices, bind, gets, try_except, extern, modify,
        ret, report_error, result, final in *.
      rewrite Hl, He. simpl.
      destruct (add_voices vs s) as [[[[]|e] s1] t1]; simpl in *; [ done | ].
      destruct (error_callback env) as [f|]; simpl; [ | congruence ].
      destruct (f e) as [[]|e']; simpl; congruence.
    + exfalso. revert Hm.
      unfold load_available_voices, bind, gets, try_except, extern, modify,
        ret, report_error, result, final in *.
      rewrite Hl, He. simpl.
      destruct (error_callback env) as [f|]; simpl; [ | congruence ].
      destruct (f e) as [[]|e']; simpl; congruence.
  - intros (vs & He & Hvs).
    by apply (load_available_voices_loaded env s vs).
Qed.

(** The voice chosen for a language: without catalogue entries for it,
    the configured voice; otherwise a voice of the catalogue for that
    language, and one of the wanted gender whenever the catalogue has
    one for the language. *)
Theorem best_voice_choice (config : Settings.SystemConfig) (s : VoiceStore)
    (language_code gender_wanted : pystr) :
  (get_voices_for_language s language_code = [] →
   get_best_voice_for_language config s language_code gender_wanted
   = Settings.get_tts_voice config language_code)
  ∧ (get_voices_for_language s language_code ≠ [] →
     ∃ v, v ∈ get_voices_for_language s language_code
          ∧ get_best_voice_for_language config s language_code gender_wanted
            = name v
          ∧ ((∃ w, w ∈ get_voices_for_language s language_code
                   ∧ gender w = gender_wanted) →
             gender v = gender_wanted)).
Proof.
  unfold get_best_voice_for_language.
  set (voices := get_voices_for_language s language_code).
  destruct voices as [|first rest] eqn:E; [ by split | ].
  split; [ done | intros _ ].
  destruct (filter (λ v, gender v = gender_wanted) (first :: rest))
    as [|preferred more] eqn:F.
  - exists first. split; [ apply list_elem_of_here | ]. split; [ done | ].
    intros (w & Hw & Hg). exfalso.
    assert (w ∈ filter (λ v, gender v = gender_wanted) (first :: rest)) as Hin
      by (by apply list_elem_of_filter).
    rewrite F in Hin. by apply not_elem_of_nil in Hin.
  - assert (preferred ∈ filter (λ v, gender v = gender_wanted) (first :: rest))
      as Hin by (rewrite F; apply list_elem_of_here).
    apply list_elem_of_filter in Hin as [Hg Hin].
    exists preferred. by repeat split.
Qed.
End VoicesFacts.

Lemma load_available_voices_groups_witness :
  Voices.get_voices_for_language
    (final (Voices.load_available_voices MoreSamples.voice_service
              MoreSamples.no_voices))
    (lit "en-US")
  = [MoreNotions.entry_of MoreSamples.guy; MoreNotions.entry_of MoreSamples.aria].
Proof.
  destruct (load_available_voices_groups MoreSamples.voice_service
              MoreSamples.no_voices
              [MoreSamples.guy; MoreSamples.xiaoxiao; MoreSamples.aria])
    as (_ & _ & H);
    [ reflexivity | reflexivity
    | repeat constructor; by eexists | ].
  rewrite H. vm_compute. reflexivity.
Defined.

Lemma load_available_voices_marks_witness :
  Voices.voices_loaded
    (final (Voices.load_available_voices MoreSamples.voice_service
              MoreSamples.no_voices)) = true
  ↔ ∃ vs, Voices.voices_manager_create MoreSamples.voice_service = Ok vs
          ∧ Forall MoreNotions.complete vs.
Proof.
  apply (load_available_voices_marks MoreSamples.voice_service
           MoreSamples.no_voices).
  reflexivity.
Defined.

(* ===================================================================== *)
(** * The translation worker *)
(* ===================================================================== *)

Section WorkerFacts.
Import Translator TranslatorWork MoreNotions.
Local Open Scope Z_scope.

Variable env : TranslatorWork.Env.

(** What [_translate_text] leaves alone: everything but the cache. *)
Lemma translate_text_frame (P : TranslationModule → Prop) (x : pystr) :
  (∀ c t, P t → P (with_cache c t)) → preserves P (translate_text env x).
Proof.
  intros HP. unfold translate_text, report_work_error. keep; auto.
Qed.

Lemma translate_text_same (x : pystr) (t : TranslationModule) :
  same_but_cache t (final (translate_text env x t)).
Proof.
  apply (translate_text_frame (same_but_cache t)); [ | done ].
  by intros c s (? & ? & ? & ?).
Qed.

Lemma prepare_final (st : SimulTransStrategy) (text : pystr) :
  prepare_text_for_translation st text true = (Some text, set_context st []).
Proof. done. Qed.

(** The worker outlives every task: as long as the error callback
    returns, a turn ends normally, whatever the model and the translation
    callback raise. *)
Theorem worker_turn_survives (t : TranslationModule) (task : pystr * bool) :
  (∀ m, on_error env m = Ok tt) →
  result (worker_turn env task t) = Ok tt.
Proof.
  intros Hq. destruct task as [text is_final].
  unfold worker_turn, try_except, result.
  match goal with |- context [bind ?m ?k t] => destruct (bind m k t) as [[[[]|e] s1] t1] end;
    simpl; [ done | ].
  unfold report_work_error, bind, gets, extern, ret. simpl.
  destruct (error_callback s1); simpl; [ by rewrite Hq | done ].
Qed.

(** A final text is translated whole, whatever the chunk size and the
    stored context: the worker hands [_translate_text] the text as it
    came, reports the translation as final, and leaves neither a context
    nor a last translation behind. *)
Theorem worker_turn_final (t : TranslationModule) (text tr : pystr) :
  result (translate_text env text
            (with_strategy (set_context (simul_strategy t) []) t))
  = Ok (Some tr) →
  on_translation env tr true = Ok tt →
  result (worker_turn env (text, true) t) = Ok tt
  ∧ events (worker_turn env (text, true) t)
    = events (translate_text env text
                (with_strategy (set_context (simul_strategy t) []) t))
      ++ match translation_callback t with
         | Some _ => [Report tr true]
         | None => []
         end
  ∧ last_translated_text (final (worker_turn env (text, true) t)) = []
  ∧ previous_context (simul_strategy (final (worker_turn env (text, true) t)))
    = [].
Proof.
  intros Htr Hcb.
  pose proof (translate_text_same text
                (with_strategy (set_context (simul_strategy t) []) t))
    as (Hc & _ & Hs & _).
  revert Htr Hc Hs.
  unfold worker_turn, try_except, bind, gets, modify, result, final, events.
  simpl.
  destruct (translate_text env text
              (with_strategy (set_context (simul_strategy t) []) t))
    as [[r s1] t1]; simpl.
  intros -> Hc Hs. simpl.
  unfold report_translation, bind, gets, extern, ret. simpl. rewrite Hc.
  destruct (translation_callback t) as [f|]; simpl.
  - rewrite Hcb. simpl. by rewrite Hs, ?app_nil_r.
  - by rewrite Hs, ?app_nil_r.
Qed.

(** Between final texts the worker reports increments: when the new
    translation continues the last one, only the stripped remainder goes
    to the translation callback, and nothing at all when the remainder
    is blank; the whole new translation is remembered as the last one. *)
Theorem worker_turn_increment (t : TranslationModule)
    (text x more : pystr) :
  Py.truthy (last_translated_text t) = true →
  (prepare_text_for_translation (simul_strategy t) text false).1 = Some x →
  result (translate_text env x
            (with_strategy
               (prepare_text_for_translation (simul_strategy t) text false).2 t))
  = Ok (Some (last_translated_text t ++ more)) →
  on_translation env (Py.strip more) false = Ok tt →
  result (worker_turn env (text, false) t) = Ok tt
  ∧ events (worker_turn env (text, false) t)
    = events (translate_text env x
                (with_strategy
                   (prepare_text_for_translation (simul_strategy t) text false).2
                   t))
      ++ match translation_callback t with
         | Some _ => if Py.blank more then [] else [Report (Py.strip more) false]
         | None => []
         end
  ∧ last_translated_text (final (worker_turn env (text, false) t))
    = last_translated_text t ++ more.
Proof.
  intros Hlast Hx Htr Hcb.
  set (st' := (prepare_text_for_translation (simul_strategy t) text false).2) in *.
  pose proof (translate_text_same x (with_strategy st' t)) as (Hc & _ & _ & Hl).
  revert Htr Hc Hl.
  unfold worker_turn, try_except, bind, gets, modify, result, final, events.
  simpl. fold st'. rewrite Hx.
  destruct (translate_text env x (with_strategy st' t)) as [[r s1] t1]; simpl.
  intros -> Hc Hl. simpl. rewrite Hl, Hlast. simpl.
  assert (startswith (last_translated_text t ++ more) (last_translated_text t)
          = true) as ->.
  { unfold startswith. apply bool_decide_eq_true.
    by rewrite take_app_length. }
  assert (Py.slice_from (last_translated_text t ++ more)
            (Py.len (last_translated_text t)) = more) as ->.
  { unfold Py.slice_from, Py.norm_index, Py.len.
    rewrite length_app, Nat2Z.inj_add.
    destruct (Z.of_nat (length (last_translated_text t)) <? 0) eqn:E;
      [ apply Z.ltb_lt in E; lia | ].
    rewrite Z.min_l by lia. rewrite Nat2Z.id. by rewrite drop_app_length. }
  unfold Py.blank.
  destruct (Py.truthy (Py.strip more)) eqn:Hm; simpl.
  - unfold report_translation, bind, gets, extern, ret. simpl. rewrite Hc.
    destruct (translation_callback t) as [f|]; simpl.
    + rewrite Hcb. simpl. by rewrite ?app_nil_r.
    + by rewrite ?app_nil_r.
  - unfold ret. simpl. destruct (translation_callback t); by rewrite ?app_nil_r.
Qed.
End WorkerFacts.

Lemma worker_turn_survives_witness :
  result (TranslatorWork.worker_turn MoreSamples.broken_model
            (lit "hello", true) MoreSamples.translator) = Ok tt.
Proof.
  apply (worker_turn_survives MoreSamples.broken_model MoreSamples.translator
           (lit "hello", true)).
  intros m. reflexivity.
Defined.

Lemma worker_turn_final_witness :
  events (TranslatorWork.worker_turn MoreSamples.ok_model (lit "hello", true)
            MoreSamples.translator)
  = [TranslatorWork.Generate (lit "hello");
     TranslatorWork.Report (lit "ok.") true].
Proof.
  destruct (worker_turn_final MoreSamples.ok_model MoreSamples.translator
              (lit "hello") (lit "ok."))
    as (_ & H & _); [ vm_compute; reflexivity | reflexivity | ].
  rewrite H. vm_compute. reflexivity.
Defined.

Lemma worker_turn_increment_witness :
  events (TranslatorWork.worker_turn MoreSamples.ok_model (lit "hi.", false)
            (TranslatorWork.with_last (lit "ok") MoreSamples.translator))
  = [TranslatorWork.Generate (lit "hi.");
     TranslatorWork.Report (lit ".") false].
Proof.
  destruct (worker_turn_increment MoreSamples.ok_model
              (TranslatorWork.with_last (lit "ok") MoreSamples.translator)
              (lit "hi.") (lit "hi.") (lit "."))
    as (_ & H & _);
    [ reflexivity | vm_compute; reflexivity | vm_compute; reflexivity
    | reflexivity | ].
  rewrite H. vm_compute. reflexivity.
Defined.

(* ===================================================================== *)
(** * Further properties of the audio capture module *)
(* ===================================================================== *)

Section AudioCaptureMore.
Import AudioCapture Notions MoreNotions.
Local Open Scope Z_scope.

Variable env : Env.

(** ** What recognition leaves alone *)

Section Frame.
Variable P : AudioCaptureModule → Prop.
Hypothesis P_cache : ∀ c a, P a → P (set_asr_cache c a).
Hypothesis P_transcript : ∀ x a, P a → P (set_complete_transcript x a).
Hypothesis P_sentence : ∀ x a, P a → P (set_current_sentence x a).
Hypothesis P_buffer : ∀ x a, P a → P (set_speech_buffer x a).

Lemma report_error_frame m : preserves P (report_error m).
Proof. unfold report_error. keep. Qed.

Lemma report_text_frame text fin : preserves P (report_text text fin).
Proof. unfold report_text. keep. Qed.
Hint Resolve report_error_frame report_text_frame : keeps.

Lemma call_asr_frame chunk fin : preserves P (call_asr env chunk fin).
Proof.
  unfold call_asr. apply preserves_bind; [ keep | intros c ].
  destruct (asr_generate env chunk c fin) as [r c']. keep; auto.
Qed.

Lemma call_punc_frame input : preserves P (call_punc env input).
Proof. unfold call_punc. keep. Qed.
Hint Resolve call_asr_frame call_punc_frame : keeps.

Lemma emit_final_frame text : preserves P (emit_final text).
Proof. unfold emit_final. keep; auto. Qed.
Hint Resolve emit_final_frame : keeps.

Lemma punctuated_sentence_frame : preserves P (punctuated_sentence env).
Proof. unfold punctuated_sentence. keep. Qed.
Hint Resolve punctuated_sentence_frame : keeps.

Lemma recognise_frame chunk fin : preserves P (recognise env chunk fin).
Proof. unfold recognise. keep; auto. Qed.
Hint Resolve recognise_frame : keeps.

Lemma process_asr_buffer_frame fin : preserves P (process_asr_buffer env fin).
Proof. unfold process_asr_buffer. keep; auto. Qed.
End Frame.

(** ** Stopping and starting *)

Lemma stop_capture_not_running (a : AudioCaptureModule) :
  running (final (stop_capture env a)) = false.
Proof.
  cut (hoare (λ _, True) (stop_capture env) (λ _ s, running s = false)).
  { intros H. by apply H. }
  assert (preserves (λ s, running s = false) (process_asr_buffer env true))
    as Hp by (by apply process_asr_buffer_frame).
  unfold stop_capture.
  apply (hoare_bind _ (λ _ s, running s = false));
    [ by apply hoare_modify | intros _ ].
  match goal with |- hoare ?P ?m _ => change (preserves P m) end.
  keep; auto.
Qed.

(** [stop_capture] leaves the module stopped — not running and the
    stream given up — whatever the sound device, the worker thread, the
    models and the callbacks do; and when it returns, both streaming
    caches are empty. *)
Theorem stop_capture_settles (a : AudioCaptureModule) :
  stopped (final (stop_capture env a))
  ∧ (is_ok (result (stop_capture env a)) = true →
     asr_cache (final (stop_capture env a)) = ∅
     ∧ vad_cache (final (stop_capture env a)) = ∅).
Proof.
  cut (hoare (λ _, True) (stop_capture env)
         (λ r s, stopped s
                 ∧ (is_ok r = true → asr_cache s = ∅ ∧ vad_cache s = ∅))).
  { intros H. by apply H. }
  unfold stop_capture.
  apply (hoare_bind _ (λ _ s, running s = false));
    [ by apply hoare_modify | intros _ ].
  apply (hoare_bind _ (λ open s, running s = false ∧ open = stream_open s));
    [ by apply hoare_gets | intros open ].
  apply (hoare_bind _ (λ _ s, running s = false ∧ stream_open s = false)).
  { destruct open; simpl; [ | apply hoare_ret; by intros s [? ?] ].
    apply (hoare_bind _ (λ _ s, running s = false)).
    - apply (hoare_try _ (λ _ s, running s = false));
        [ | intros e; by apply hoare_ret ].
      apply (hoare_conseq (λ s, running s = false) _ _ (λ _ s, running s = false));
        [ by intros s [? _] | by intros [[]|e] s | ].
      change (preserves (λ s, running s = false)
                (when (negb (stream_stopped env))
                   (extern StreamStop (stream_stop env)) ;;
                 extern StreamClose (stream_close env))).
      keep.
    - intros _. by apply hoare_modify. }
  intros _.
  apply (hoare_bind _ (λ _, stopped)); [ by apply hoare_gets | intros alive ].
  apply (hoare_bind _ (λ _, stopped)).
  { destruct alive; simpl; [ | by apply hoare_ret ].
    apply (hoare_bind _ (λ _, stopped)); [ by apply hoare_emit | intros _ ].
    by apply hoare_modify. }
  intros _.
  apply (hoare_bind _ (λ _, stopped)); [ by apply hoare_gets | intros pending ].
  apply (hoare_bind _ (λ _, stopped)).
  { destruct pending; simpl; [ | by apply hoare_ret ].
    eapply hoare_conseq; [ | | apply (process_asr_buffer_frame stopped) ];
      try done.
    by intros [[]|e] s. }
  intros _. apply (hoare_bind _ (λ _ s, stopped s ∧ vad_cache s = ∅)).
  { apply hoare_modify. by intros s (? & ?). }
  intros _. apply hoare_modify. by intros s [(? & ?) ?].
Qed.

Lemma process_asr_buffer_returns fin :
  succeeds quiet_error_callback (process_asr_buffer env fin).
Proof.
  unfold process_asr_buffer.
  apply succeeds_bind; [ apply succeeds_gets | intros loaded ].
  destruct (negb loaded); [ apply succeeds_ret | ].
  apply (hoare_try _ (λ _, quiet_error_callback)).
  - match goal with
    | |- hoare _ ?m _ =>
        apply (hoare_conseq quiet_error_callback _ m
                 (λ _, quiet_error_callback)); [ done | by intros [[]|e] s | ]
    end.
    pose proof (report_error_frame quiet_error_callback) as H1.
    pose proof (report_text_frame quiet_error_callback) as H2.
    pose proof (call_asr_frame quiet_error_callback
                  (λ c a H, H)) as H3.
    pose proof (call_punc_frame quiet_error_callback) as H4.
    pose proof (emit_final_frame quiet_error_callback
                  (λ x a H, H) (λ x a H, H)) as H5.
    pose proof (punctuated_sentence_frame quiet_error_callback) as H6.
    pose proof (recognise_frame quiet_error_callback
                  (λ c a H, H) (λ x a H, H) (λ x a H, H)) as H7.
    keep; auto.
  - intros e. unfold report_error.
    apply (hoare_bind _ (λ cb s, quiet_error_callback s
                                 ∧ cb = error_callback s));
      [ by apply hoare_gets | intros [f|] ].
    + apply hoare_extern. intros s [Hq Hf]. split; [ | done ].
      by rewrite (Hq f (AsrError e)).
    + apply hoare_ret. by intros s [? _].
Qed.

Lemma stop_capture_returns :
  succeeds quiet_error_callback (stop_capture env).
Proof.
  pose proof process_asr_buffer_returns as H.
  unfold stop_capture.
  apply succeeds_bind; [ by apply succeeds_modify | intros _ ].
  apply succeeds_bind; [ apply succeeds_gets | intros open ].
  apply succeeds_bind.
  { destruct open; simpl; [ | apply succeeds_ret ].
    apply succeeds_bind; [ | intros _; by apply succeeds_modify ].
    apply (hoare_try _ (λ _, quiet_error_callback));
      [ | intros e; by apply hoare_ret ].
    match goal with
    | |- hoare _ ?m _ =>
        apply (hoare_conseq quiet_error_callback _ m
                 (λ _, quiet_error_callback)); [ done | by intros [[]|e] s | ]
    end.
    change (preserves quiet_error_callback
              (when (negb (stream_stopped env))
                 (extern StreamStop (stream_stop env)) ;;
               extern StreamClose (stream_close env))).
    keep. }
  intros _. apply succeeds_bind; [ apply succeeds_gets | intros alive ].
  apply succeeds_bind.
  { apply succeeds_when. apply succeeds_bind; [ apply succeeds_emit | intros _ ].
    by apply succeeds_modify. }
  intros _. apply succeeds_bind; [ apply succeeds_gets | intros pending ].
  apply succeeds_bind; [ by apply succeeds_when | intros _ ].
  apply succeeds_bind; [ by apply succeeds_modify | intros _ ].
  by apply succeeds_modify.
Qed.

Lemma start_capture_true (a : AudioCaptureModule) :
  result (start_capture env a) = Ok true →
  running (final (start_capture env a)) = true.
Proof.
  unfold start_capture, report_error, bind, gets, modify, try_except, extern,
    ret, result, final.
  simpl. destruct (running a) eqn:Hr; simpl; [ done | ].
  destruct (thread_start env) as [[]|e1]; simpl;
    [ destruct (stream_create env) as [[]|e2]; simpl;
      [ destruct (stream_start env) as [[]|e3]; simpl | ] | ];
    try done;
    (destruct (error_callback a) as [f|]; simpl; [ | done ]);
    match goal with |- context [f ?m] => destruct (f m) as [[]|e'] end; done.
Qed.

(** The answer of [start_capture] tells whether the module is running:
    [True] with [running] set, [False] with [running] cleared again
    after a thread or a stream that could not be started. *)
Theorem start_capture_answer (a : AudioCaptureModule) (b : bool) :
  result (start_capture env a) = Ok b →
  running (final (start_capture env a)) = b.
Proof.
  unfold start_capture, report_error, bind, gets, modify, try_except, extern,
    ret, result, final.
  simpl. destruct (running a) eqn:Hr; simpl; [ by intros [= <-] | ].
  destruct (thread_start env) as [[]|e1]; simpl;
    [ destruct (stream_create env) as [[]|e2]; simpl;
      [ destruct (stream_start env) as [[]|e3]; simpl | ] | ];
    try (by intros [= <-]);
    (destruct (error_callback a) as [f|]; simpl; [ | by intros [= <-] ]);
    match goal with |- context [f ?m] => destruct (f m) as [[]|e'] end; simpl;
    try done; by intros [= <-].
Qed.

(** ** The transcript *)

Lemma hear_finals (tr : list event) :
  ∀ b, fold_left hear tr b = b ++ finals tr.
Proof.
  induction tr as [|e tr IH]; intros b; simpl.
  - by rewrite app_nil_r.
  - rewrite IH. unfold hear. by rewrite <- app_assoc.
Qed.

Section Transcript.
Variable f : pystr → bool → outcome unit.
Hypothesis f_returns : ∀ text fin, f text fin = Ok tt.

Local Abbreviation in_step := (MoreNotions.in_step f).

Lemma silent_in_step {A} (e : event) (o : outcome A) :
  heard_final e = [] → observed hear in_step (extern e o) (λ _, in_step).
Proof.
  intros He. apply observed_extern. intros s b [? ?]. unfold hear.
  rewrite He, app_nil_r. done.
Qed.

Lemma modify_in_step (g : AudioCaptureModule → AudioCaptureModule) :
  (∀ s, text_callback (g s) = text_callback s) →
  (∀ s, complete_transcript (g s) = complete_transcript s) →
  observed hear in_step (modify g) (λ _, in_step).
Proof.
  intros H1 H2. apply observed_modify. intros s b [? ?].
  split; [ by rewrite H1 | by rewrite H2 ].
Qed.

Lemma gets_in_step {A} (g : AudioCaptureModule → A) :
  observed hear in_step (gets g) (λ _, in_step).
Proof. by apply observed_gets. Qed.

Lemma ret_in_step {A} (x : A) :
  observed hear in_step (ret x) (λ _, in_step).
Proof. by apply observed_ret. Qed.

Lemma report_error_in_step m :
  observed hear in_step (report_error m) (λ _, in_step).
Proof.
  unfold report_error.
  apply observed_step; [ apply gets_in_step | done | intros [g|] ].
  - by apply silent_in_step.
  - apply ret_in_step.
Qed.

Lemma report_partial_in_step text :
  observed hear in_step (report_text text false) (λ _, in_step).
Proof.
  unfold report_text.
  apply observed_step; [ apply gets_in_step | done | intros [g|] ].
  - by apply silent_in_step.
  - apply ret_in_step.
Qed.

Lemma call_asr_in_step chunk fin :
  observed hear in_step (call_asr env chunk fin) (λ _, in_step).
Proof.
  unfold call_asr.
  apply observed_step; [ apply gets_in_step | done | intros c ].
  destruct (asr_generate env chunk c fin) as [r c'].
  apply observed_step; [ by apply modify_in_step | done | intros _ ].
  by apply silent_in_step.
Qed.

Lemma call_punc_in_step input :
  observed hear in_step (call_punc env input) (λ _, in_step).
Proof. unfold call_punc. by apply silent_in_step. Qed.

Lemma emit_final_in_step text :
  observed hear in_step (emit_final text) (λ _, in_step).
Proof.
  unfold emit_final, report_text.
  apply (observed_bind hear _
           (λ _ s b, text_callback s = Some f
                     ∧ complete_transcript s ++ text ++ lit " " = b)).
  { apply (observed_bind hear _ (λ cb s b, in_step s b ∧ cb = text_callback s)).
    { by apply observed_gets. }
    intros [g|].
    - apply observed_extern. intros s b [[Hf Hb] Hg].
      assert (g = f) as -> by congruence. rewrite f_returns.
      split; [ done | ]. unfold hear. simpl. by rewrite Hb.
    - apply observed_ret. intros s b [[Hf _] Hg]. congruence. }
  intros _.
  apply (observed_bind hear _
           (λ tr s b, text_callback s = Some f
                      ∧ tr = complete_transcript s
                      ∧ complete_transcript s ++ text ++ lit " " = b)).
  { apply observed_gets. by intros s b [? ?]. }
  intros tr.
  apply (observed_bind hear _ (λ _, in_step)).
  { apply observed_modify. intros s b (? & -> & ?). by split. }
  intros _. by apply modify_in_step.
Qed.

Lemma punctuated_sentence_in_step :
  observed hear in_step (punctuated_sentence env) (λ _, in_step).
Proof.
  unfold punctuated_sentence.
  apply observed_step; [ apply gets_in_step | done | intros sentence ].
  apply observed_step; [ apply gets_in_step | done | intros [|] ].
  - apply observed_step; [ apply call_punc_in_step | done | intros r ].
    apply ret_in_step.
  - apply ret_in_step.
Qed.

Lemma recognise_in_step chunk fin :
  observed hear in_step (recognise env chunk fin) (λ _, in_step).
Proof.
  unfold recognise.
  apply observed_step; [ apply gets_in_step | done | intros sentence ].
  apply observed_step; [ | done | intros _ ].
  - destruct (0 <? Py.len chunk).
    + apply observed_step; [ apply call_asr_in_step | done | intros res ].
      destruct (first_text res) as [segment|]; [ | apply ret_in_step ].
      apply observed_step; [ apply gets_in_step | done | intros punc ].
      apply observed_step; [ apply gets_in_step | done | intros sentence' ].
      destruct (punc && fin).
      * apply observed_step; [ apply call_punc_in_step | done | intros r ].
        apply emit_final_in_step.
      * destruct (negb fin).
        -- apply observed_step; [ by apply modify_in_step | done | intros _ ].
           apply report_partial_in_step.
        -- apply emit_final_in_step.
    + destruct (fin && Py.truthy sentence); [ | apply ret_in_step ].
      apply observed_step;
        [ apply punctuated_sentence_in_step | done | intros t ].
      apply emit_final_in_step.
  - destruct fin; simpl; [ by apply modify_in_step | apply ret_in_step ].
Qed.

Lemma process_asr_buffer_in_step fin :
  observed hear in_step (process_asr_buffer env fin) (λ _, in_step).
Proof.
  unfold process_asr_buffer.
  apply observed_step; [ apply gets_in_step | done | intros loaded ].
  destruct (negb loaded); [ apply ret_in_step | ].
  apply (observed_try hear _ (λ _, in_step));
    [ | intros e; apply report_error_in_step ].
  apply (observed_conseq hear in_step in_step _ (λ _, in_step));
    [ done | by intros [[]|e] s b | ].
  apply observed_step; [ apply gets_in_step | done | intros buffer ].
  destruct ((Py.len buffer =? 0) && fin).
  - apply observed_step; [ apply gets_in_step | done | intros sentence ].
    destruct (Py.truthy sentence); simpl; [ | apply ret_in_step ].
    apply observed_step;
      [ apply punctuated_sentence_in_step | done | intros t ].
    apply observed_step; [ apply emit_final_in_step | done | intros _ ].
    by apply modify_in_step.
  - destruct (negb fin).
    + apply observed_step; [ apply gets_in_step | done | intros n ].
      destruct (Py.len buffer <? n); [ apply ret_in_step | ].
      apply observed_step; [ by apply modify_in_step | done | intros _ ].
      apply recognise_in_step.
    + apply observed_step; [ by apply modify_in_step | done | intros _ ].
      apply recognise_in_step.
Qed.
End Transcript.

(** With a text callback that returns, the transcript grows by exactly
    what the callback was given as final: after [process_asr_buffer] it
    is the transcript before, followed by every final text of this call
    and a space after each. *)
Theorem transcript_is_what_was_heard (a : AudioCaptureModule) (fin : bool)
    (f : pystr → bool → outcome unit) :
  text_callback a = Some f →
  (∀ text b, f text b = Ok tt) →
  complete_transcript (final (process_asr_buffer env fin a))
  = complete_transcript a ++ finals (events (process_asr_buffer env fin a)).
Proof.
  intros Hf Hq.
  pose proof (process_asr_buffer_in_step f Hq fin a (complete_transcript a))
    as [_ H]; [ by split | ].
  by rewrite hear_finals in H.
Qed.

(** ** The flag of the text callback *)

Section Flag.
Variable fin : bool.

Local Abbreviation flag_ok := (MoreNotions.flag_ok fin).
Local Abbreviation check := (MoreNotions.check fin).

Lemma check_flagged (tr : list event) :
  fold_left check tr true = true → flagged fin tr.
Proof.
  assert (∀ b, fold_left check tr b = true → b = true ∧ flagged fin tr) as H.
  { induction tr as [|e tr IH]; intros b; simpl.
    - intros ->. split; [ done | ]. intros text b Hin.
      by apply not_elem_of_nil in Hin.
    - intros Hf. destruct (IH _ Hf) as [Hb Htr].
      unfold check in Hb. apply andb_true_iff in Hb as [-> He].
      split; [ done | ]. intros text b' Hin.
      apply elem_of_cons in Hin as [<-|Hin]; [ | by eapply Htr ].
      simpl in He. by apply bool_decide_eq_true in He. }
  intros Hf. by destruct (H true Hf).
Qed.

Lemma extern_fine {A} (e : event) (o : outcome A) :
  flag_ok e = true → observed check fine (extern e o) (λ _, fine).
Proof.
  intros He. apply observed_extern. intros s b ->. unfold fine, check.
  by rewrite He.
Qed.

Lemma modify_fine (g : AudioCaptureModule → AudioCaptureModule) :
  observed check fine (modify g) (λ _, fine).
Proof. by apply observed_modify. Qed.

Lemma gets_fine {A} (g : AudioCaptureModule → A) :
  observed check fine (gets g) (λ _, fine).
Proof. by apply observed_gets. Qed.

Lemma ret_fine {A} (x : A) : observed check fine (ret x) (λ _, fine).
Proof. by apply observed_ret. Qed.

Lemma report_error_fine m : observed check fine (report_error m) (λ _, fine).
Proof.
  unfold report_error.
  apply observed_step; [ apply gets_fine | done | intros [g|] ].
  - by apply extern_fine.
  - apply ret_fine.
Qed.

Lemma report_text_fine text :
  observed check fine (report_text text fin) (λ _, fine).
Proof.
  unfold report_text.
  apply observed_step; [ apply gets_fine | done | intros [g|] ].
  - apply extern_fine. simpl. by apply bool_decide_eq_true.
  - apply ret_fine.
Qed.

Lemma call_asr_fine chunk b :
  observed check fine (call_asr env chunk b) (λ _, fine).
Proof.
  unfold call_asr.
  apply observed_step; [ apply gets_fine | done | intros c ].
  destruct (asr_generate env chunk c b) as [r c'].
  apply observed_step; [ apply modify_fine | done | intros _ ].
  by apply extern_fine.
Qed.

Lemma call_punc_fine input :
  observed check fine (call_punc env input) (λ _, fine).
Proof. unfold call_punc. by apply extern_fine. Qed.

Lemma emit_final_fine text :
  fin = true → observed check fine (emit_final text) (λ _, fine).
Proof.
  intros Hfin. unfold emit_final.
  apply observed_step; [ | done | intros _ ].
  { rewrite <- Hfin. apply report_text_fine. }
  apply observed_step; [ apply gets_fine | done | intros tr ].
  apply observed_step; [ apply modify_fine | done | intros _ ].
  apply modify_fine.
Qed.

Lemma when_fine (b : bool) (m : M event AudioCaptureModule unit) :
  observed check fine m (λ _, fine) →
  observed check fine (when b m) (λ _, fine).
Proof. intros H. destruct b; [ done | apply ret_fine ]. Qed.

Lemma punctuated_sentence_fine :
  observed check fine (punctuated_sentence env) (λ _, fine).
Proof.
  unfold punctuated_sentence.
  apply observed_step; [ apply gets_fine | done | intros sentence ].
  apply observed_step; [ apply gets_fine | done | intros [|] ].
  - apply observed_step; [ apply call_punc_fine | done | intros r ].
    apply ret_fine.
  - apply ret_fine.
Qed.

Lemma recognise_fine chunk :
  observed check fine (recognise env chunk fin) (λ _, fine).
Proof.
  unfold recognise.
  apply observed_step; [ apply gets_fine | done | intros sentence ].
  apply observed_step; [ | done | intros _ ].
  - destruct (0 <? Py.len chunk).
    + apply observed_step; [ apply call_asr_fine | done | intros res ].
      destruct (first_text res) as [segment|]; [ | apply ret_fine ].
      apply observed_step; [ apply gets_fine | done | intros punc ].
      apply observed_step; [ apply gets_fine | done | intros sentence' ].
      destruct (punc && fin) eqn:Hp.
      * apply andb_true_iff in Hp as [_ Hfin].
        apply observed_step; [ apply call_punc_fine | done | intros r ].
        by apply emit_final_fine.
      * destruct (negb fin) eqn:Hn.
        -- apply negb_true_iff in Hn.
           apply observed_step; [ apply modify_fine | done | intros _ ].
           rewrite <- Hn. apply report_text_fine.
        -- apply negb_false_iff in Hn. by apply emit_final_fine.
    + destruct (fin && Py.truthy sentence) eqn:Hs; [ | apply ret_fine ].
      apply andb_true_iff in Hs as [Hfin _].
      apply observed_step;
        [ apply punctuated_sentence_fine | done | intros t ].
      by apply emit_final_fine.
  - apply when_fine, modify_fine.
Qed.

Lemma process_asr_buffer_fine :
  observed check fine (process_asr_buffer env fin) (λ _, fine).
Proof.
  unfold process_asr_buffer.
  apply observed_step; [ apply gets_fine | done | intros loaded ].
  destruct (negb loaded); [ apply ret_fine | ].
  apply (observed_try check _ (λ _, fine));
    [ | intros e; apply report_error_fine ].
  apply (observed_conseq check fine fine _ (λ _, fine));
    [ done | by intros [[]|e] s b | ].
  apply observed_step; [ apply gets_fine | done | intros buffer ].
  destruct ((Py.len buffer =? 0) && fin) eqn:Hb.
  - apply andb_true_iff in Hb as [_ Hfin].
    apply observed_step; [ apply gets_fine | done | intros sentence ].
    destruct (Py.truthy sentence); simpl; [ | apply ret_fine ].
    apply observed_step;
      [ apply punctuated_sentence_fine | done | intros t ].
    apply observed_step; [ by apply emit_final_fine | done | intros _ ].
    apply modify_fine.
  - destruct (negb fin).
    + apply observed_step; [ apply gets_fine | done | intros n ].
      destruct (Py.len buffer <? n); [ apply ret_fine | ].
      apply observed_step; [ apply modify_fine | done | intros _ ].
      apply recognise_fine.
    + apply observed_step; [ apply modify_fine | done | intros _ ].
      apply recognise_fine.
Qed.
End Flag.

(** The text callback is told the truth about finality: every text that
    [process_asr_buffer(is_final)] reports carries that same flag, so a
    partial result is never announced as final and a flushed sentence
    never as partial. *)
Theorem reported_flag_is_the_call_flag (a : AudioCaptureModule) (fin : bool) :
  flagged fin (events (process_asr_buffer env fin a)).
Proof.
  apply check_flagged. by apply (process_asr_buffer_fine fin a true).
Qed.
End AudioCaptureMore.

Lemma transcript_is_what_was_heard_witness :
  AudioCapture.complete_transcript
    (final (AudioCapture.process_asr_buffer Samples.working_models true
              Samples.with_sound))
  = lit "ni hao. ".
Proof.
  rewrite (transcript_is_what_was_heard Samples.working_models
             Samples.with_sound true (λ _ _, Ok tt));
    [ vm_compute; reflexivity | reflexivity | done ].
Defined.

Lemma start_capture_answer_witness :
  AudioCapture.running
    (final (AudioCapture.start_capture Samples.working_models
              Samples.audio_module)) = true.
Proof.
  apply (start_capture_answer Samples.working_models Samples.audio_module true).
  vm_compute. reflexivity.
Defined.

(* ===================================================================== *)
(** * Further properties of the coordinator *)
(* ===================================================================== *)

Section PipelineMore.
Import Pipeline Notions MoreNotions.
Local Open Scope Z_scope.


(** ** The three services *)

Lemma dispatch_keeps {E} (I : Pipeline → Prop) (inj : E → event)
    (handler : E → M event Pipeline unit) (evs : list E) :
  (∀ e, preserves I (handler e)) →
  ∀ p, I p → I (dispatch inj handler evs p).1.
Proof.
  intros Hh. induction evs as [|e evs IH]; intros p Hp; simpl; [ done | ].
  pose proof (Hh e p Hp) as H1. unfold result, final in H1.
  destruct (handler e p) as [[r p1] t1]; simpl in *.
  specialize (IH p1 H1). by destruct (dispatch inj handler evs p1) as [p2 t2].
Qed.

(** A call of a module's method: what holds of the coordinator with the
    module's new state in place, and is kept by the handlers of the
    module's callbacks, holds after the call. *)
Lemma call_module_rule {E S A} (inj : E → event) (proj : Pipeline → option S)
    (upd : option S → Pipeline → Pipeline) (handler : E → M event Pipeline unit)
    (m : M E S A) (P : Pipeline → Prop) (I : outcome A → Pipeline → Prop) :
  (∀ r e, preserves (I r) (handler e)) →
  (∀ p s, P p → proj p = Some s →
          I (result (m s)) (upd (Some (final (m s))) p)) →
  (∀ p, P p → proj p = None → I (Raised AttributeError) p) →
  hoare P (call_module inj proj upd handler m) I.
Proof.
  intros Hh Hs Hn p Hp. unfold call_module, result, final.
  destruct (proj p) as [s|] eqn:E'; [ | by apply Hn ].
  specialize (Hs p s Hp E'). unfold result, final in Hs.
  destruct (m s) as [[r s'] evs]; simpl in *.
  pose proof (dispatch_keeps (I r) inj handler evs (Hh r) _ Hs) as H.
  by destruct (dispatch inj handler evs (upd (Some s') p)) as [p' tr].
Qed.

Lemma report_error_flags x m : preserves (same_flags x) (report_error m).
Proof.
  unfold preserves, hoare. intros p Hp. by rewrite report_error_run.
Qed.

Lemma report_status_flags x st : preserves (same_flags x) (report_status st).
Proof. apply report_status_keeps. Qed.

Lemma on_tts_event_flags x e : preserves (same_flags x) (on_tts_event e).
Proof.
  destruct e; simpl; try apply preserves_ret;
    [ apply report_status_flags | apply report_error_flags ].
Qed.

Lemma add_translation_task_running (t : Translator.TranslationModule) text fin :
  Translator.running (final (Translator.add_translation_task text fin t))
  = Translator.running t.
Proof.
  unfold Translator.add_translation_task, when, bind, gets, modify, ret, final.
  simpl. by destruct (Translator.running t && negb (Py.blank text)).
Qed.

Lemma on_translation_result_flags x text fin :
  preserves (same_flags x) (on_translation_result text fin).
Proof.
  pose proof (report_error_flags x) as H1.
  assert (preserves (same_flags x)
            (call_tts (TTS.speak text None TTS.Normal))) as H2.
  { unfold call_tts. apply call_module_rule.
    - intros _ e. apply on_tts_event_flags.
    - intros p s Hp Hs. unfold same_flags, flags in *. rewrite <- Hp.
      unfold tts_running, translator_running, audio_running. simpl.
      rewrite Hs. by rewrite speak_running.
    - done. }
  unfold on_translation_result. keep; auto.
Qed.

Lemma on_translator_event_flags x e :
  preserves (same_flags x) (on_translator_event e).
Proof.
  destruct e; simpl; try apply preserves_ret;
    [ apply report_error_flags | apply on_translation_result_flags ].
Qed.

Lemma on_text_recognized_flags x text fin :
  preserves (same_flags x) (on_text_recognized text fin).
Proof.
  pose proof (report_error_flags x) as H1.
  assert (preserves (same_flags x)
            (call_translator (Translator.add_translation_task text fin)))
    as H2.
  { unfold call_translator. apply call_module_rule.
    - intros _ e. apply on_translator_event_flags.
    - intros p s Hp Hs. unfold same_flags, flags in *. rewrite <- Hp.
      unfold tts_running, translator_running, audio_running. simpl.
      rewrite Hs. by rewrite add_translation_task_running.
    - done. }
  unfold on_text_recognized. keep; auto.
Qed.

Lemma on_audio_event_flags x e : preserves (same_flags x) (on_audio_event e).
Proof.
  destruct e; simpl; try apply preserves_ret;
    [ apply on_text_recognized_flags | apply report_error_flags ].
Qed.

(** The handlers keep whatever is said about the flags alone. *)
Lemma flags_lift {A} (Φ : bool * bool * bool * bool → Prop)
    (m : M event Pipeline A) :
  (∀ x, preserves (same_flags x) m) → preserves (λ p, Φ (flags p)) m.
Proof.
  intros H p Hp. specialize (H (flags p) p eq_refl).
  unfold same_flags in H. by rewrite H.
Qed.

Lemma start_translation_service_running th (t : Translator.TranslationModule) :
  result (Translator.start_translation_service th t) = Ok true →
  Translator.running (final (Translator.start_translation_service th t)) = true.
Proof.
  unfold Translator.start_translation_service, Translator.report_error,
    try_except, bind, gets, modify, extern, ret, result, final.
  simpl. destruct (Translator.running t) eqn:Hr; simpl; [ done | ].
  destruct (Translator.model_loaded t); simpl.
  - destruct th as [[]|e]; simpl; [ done | ].
    destruct (Translator.error_callback t) as [f|]; simpl; [ | done ].
    by destruct (f (Translator.StartFailed e)) as [[]|e'].
  - destruct (Translator.error_callback t) as [f|]; simpl; [ | done ].
    by destruct (f Translator.ModelNotInitialised) as [[]|e'].
Qed.

Lemma stop_translation_service_post (j : bool)
    (t : Translator.TranslationModule) :
  result (Translator.stop_translation_service j t) = Ok tt
  ∧ Translator.running (final (Translator.stop_translation_service j t))
    = false.
Proof.
  unfold Translator.stop_translation_service, when, bind, gets, modify, emit,
    ret, result, final.
  simpl. by destruct (Translator.thread_alive t).
Qed.

Lemma not_true_bind {S A} (m : M event S A) (k : A → M event S bool) :
  (∀ a, not_true (k a)) → not_true (bind m k).
Proof.
  intros Hk s. unfold bind, result.
  destruct (m s) as [[[a|e] s1] t1]; simpl; [ | done ].
  specialize (Hk a s1). unfold result in Hk.
  by destruct (k a s1) as [[r s2] t2].
Qed.

Lemma not_true_false {S} : not_true (ret false : M event S bool).
Proof. by intros s. Qed.

(** When [start_translation] answers [True] on a coordinator that was
    not running, everything runs: the coordinator, the translation
    service, the text-to-speech service and the audio capture. *)
Theorem start_translation_true_all_running (env : Env) (p : Pipeline) :
  is_running p = false →
  result (start_translation env p) = Ok true →
  flags (final (start_translation env p)) = (true, true, true, true).
Proof.
  intros Hrun.
  cut (hoare (λ s, is_running s = false) (start_translation env)
         (λ r s, r = Ok true → flags s = (true, true, true, true))).
  { intros H. by apply H. }
  assert (∀ (m : M event Pipeline bool) P, not_true m →
            hoare P m (λ r s, r = Ok true → flags s = (true, true, true, true)))
    as Hnever.
  { intros m P Hm s _ Hr. by destruct (Hm s). }
  unfold start_translation.
  apply (hoare_bind _ (λ _ s, is_running s = false));
    [ by apply hoare_gets | intros init ].
  destruct (negb init).
  { apply Hnever. apply not_true_bind. intros _. apply not_true_false. }
  apply (hoare_bind _ (λ r s, r = false)); [ by apply hoare_gets | intros r ].
  destruct r.
  { intros s Hs. discriminate. }
  apply (hoare_try _ (λ _ _, True)).
  2:{ intros e. apply Hnever. apply not_true_bind. intros _.
      apply not_true_bind. intros _. apply not_true_false. }
  apply (hoare_bind _ (λ _ _, True)); [ apply hoare_any; by intros [a|e] | intros _ ].
  apply (hoare_bind _ (λ _ _, True)); [ apply hoare_any; by intros [a|e] | intros cfg ].
  apply (hoare_bind _ (λ _ _, True)); [ apply hoare_any; by intros [a|e] | intros _ ].
  (* the translation service *)
  apply (hoare_bind _ (λ ok s, ok = true → translator_running s = true)).
  { eapply hoare_conseq; [ | | apply (call_module_rule _ _ _ _ _ (λ _, True)
        (λ r s, r = Ok true → translator_running s = true)) ].
    - done.
    - by intros [b|e] s H; [ intros ->; by apply H | ].
    - intros r e.
      apply (flags_lift (λ x, r = Ok true → x.1.1.2 = true)).
      intros x. apply on_translator_event_flags.
    - intros q t _ Ht Hr. unfold translator_running. simpl.
      by apply start_translation_service_running.
    - done. }
  intros ok. apply (hoare_bind _ (λ _ s, translator_running s = true)).
  { destruct ok; [ apply hoare_ret; auto | by apply hoare_raise ]. }
  intros _.
  (* the text-to-speech service *)
  apply (hoare_bind _ (λ ok s, translator_running s = true
                               ∧ (ok = true → tts_running s = true))).
  { eapply hoare_conseq; [ | | apply (call_module_rule _ _ _ _ _
        (λ s, translator_running s = true)
        (λ r s, translator_running s = true
                ∧ (r = Ok true → tts_running s = true))) ].
    - done.
    - intros [b|e] s [H1 H2]; [ | done ].
      split; [ done | intros ->; by apply H2 ].
    - intros r e.
      apply (flags_lift (λ x, x.1.1.2 = true ∧ (r = Ok true → x.1.2 = true))).
      intros x. apply on_tts_event_flags.
    - intros q t Hq Ht. split; [ done | ]. intros Hr.
      unfold tts_running. simpl. by apply start_tts_service_running.
    - intros q Hq _. by split. }
  intros ok2. apply (hoare_bind _ (λ _ s, translator_running s = true
                                          ∧ tts_running s = true)).
  { destruct ok2; [ apply hoare_ret; intros s [? H]; auto
                 | by apply hoare_raise ]. }
  intros _.
  (* the audio capture *)
  apply (hoare_bind _ (λ ok s, translator_running s = true
                               ∧ tts_running s = true
                               ∧ (ok = true → audio_running s = true))).
  { eapply hoare_conseq; [ | | apply (call_module_rule _ _ _ _ _
        (λ s, translator_running s = true ∧ tts_running s = true)
        (λ r s, translator_running s = true ∧ tts_running s = true
                ∧ (r = Ok true → audio_running s = true))) ].
    - done.
    - intros [b|e] s (H1 & H2 & H3); [ | done ].
      split; [ done | ]. split; [ done | intros ->; by apply H3 ].
    - intros r e.
      apply (flags_lift (λ x, x.1.1.2 = true ∧ x.1.2 = true
                              ∧ (r = Ok true → x.2 = true))).
      intros x. apply on_audio_event_flags.
    - intros q a [Hq1 Hq2] Ha. split; [ done | ]. split; [ done | ].
      intros Hr. unfold audio_running. simpl.
      by apply start_capture_true.
    - intros q [? ?] _. by repeat split. }
  intros ok3. apply (hoare_bind _ (λ _ s, translator_running s = true
                                          ∧ tts_running s = true
                                          ∧ audio_running s = true)).
  { destruct ok3; [ apply hoare_ret; intros s (? & ? & H); auto
                 | by apply hoare_raise ]. }
  intros _.
  apply (hoare_bind _ (λ _ s, flags s = (true, true, true, true))).
  { apply hoare_modify. intros s (H1 & H2 & H3). unfold flags.
    change (translator_running (set_is_running true s))
      with (translator_running s).
    change (tts_running (set_is_running true s)) with (tts_running s).
    change (audio_running (set_is_running true s)) with (audio_running s).
    by rewrite H1, H2, H3. }
  intros _.
  apply (hoare_bind _ (λ _ s, flags s = (true, true, true, true)));
    [ by apply hoare_gets | intros n ].
  apply (hoare_bind _ (λ _ s, flags s = (true, true, true, true)));
    [ by apply hoare_modify | intros _ ].
  apply (hoare_bind _ (λ _ s, flags s = (true, true, true, true)));
    [ intros s Hs; by rewrite report_status_run | intros _ ].
  by apply hoare_ret.
Qed.

(** [stop_translation] on a running coordinator whose audio module has
    an error callback that returns: it ends normally with nothing left
    running — neither the coordinator nor any of the three services —
    and without a session. *)
Theorem stop_translation_stops_everything (env : Env) (p : Pipeline) :
  is_running p = true →
  audio_errors_quiet p →
  result (stop_translation env p) = Ok tt
  ∧ flags (final (stop_translation env p)) = (false, false, false, false)
  ∧ current_session (final (stop_translation env p)) = None.
Proof.
  intros Hrun Hquiet.
  cut (hoare (λ s, is_running s = true ∧ audio_errors_quiet s)
         (stop_translation env)
         (λ r s, r = Ok tt ∧ flags s = (false, false, false, false)
                 ∧ current_session s = None)).
  { intros H. by apply H. }
  unfold stop_translation.
  apply (hoare_bind _ (λ r s, r = true ∧ audio_errors_quiet s));
    [ apply hoare_gets; by intros s [-> ?] | intros r ].
  destruct r; simpl; [ | intros s [? _]; discriminate ].
  apply (hoare_try _ (λ _ _, False)); [ | by intros e s [] ].
  apply (hoare_bind _ (λ _, audio_errors_quiet));
    [ intros s [_ Hs]; by rewrite report_status_run | intros _ ].
  (* the audio capture *)
  apply (hoare_bind _ (λ a s, audio_errors_quiet s ∧ a = audio_module s));
    [ by apply hoare_gets | intros a ].
  apply (hoare_bind _ (λ _ s, audio_running s = false)).
  { destruct a as [a|]; simpl.
    - apply (hoare_conseq (λ s, audio_errors_quiet s ∧ audio_module s = Some a)
               _ _ (λ r s, is_ok r = true ∧ audio_running s = false)).
      + by intros s [? <-].
      + by intros [[]|e] s [? ?].
      + apply call_module_rule.
        * intros r e.
          apply (flags_lift (λ x, is_ok r = true ∧ x.2 = false)).
          intros x. apply on_audio_event_flags.
        * intros q a' [Hq Ha] Ha'. pose proof (Hq a' Ha') as Hqa.
          destruct (stop_capture_returns (audio_env env) a' Hqa) as [Hok _].
          split; [ done | ]. unfold audio_running. simpl.
          apply stop_capture_not_running.
        * intros q [_ Ha] Hn. congruence.
    - apply hoare_ret. intros s [_ Ha]. unfold audio_running. by rewrite <- Ha. }
  intros _.
  (* the translation service *)
  apply (hoare_bind _ (λ t s, audio_running s = false ∧ t = translation_module s));
    [ by apply hoare_gets | intros t ].
  apply (hoare_bind _ (λ _ s, audio_running s = false
                              ∧ translator_running s = false)).
  { destruct t as [t|]; simpl.
    - apply (hoare_conseq (λ s, audio_running s = false
                                ∧ translation_module s = Some t) _ _
               (λ r s, is_ok r = true ∧ audio_running s = false
                       ∧ translator_running s = false)).
      + by intros s [? <-].
      + by intros [[]|e] s (? & ? & ?).
      + apply call_module_rule.
        * intros r e.
          apply (flags_lift (λ x, is_ok r = true ∧ x.2 = false
                                  ∧ x.1.1.2 = false)).
          intros x. apply on_translator_event_flags.
        * intros q t' [Hq _] Ht'.
          destruct (stop_translation_service_post
                      (translator_thread_joins env) t') as [Hr Hf].
          rewrite Hr. split; [ done | ]. split; [ done | ].
          unfold translator_running. simpl. done.
        * intros q [_ Hq] Hn. congruence.
    - apply hoare_ret. intros s [? Ht]. split; [ done | ].
      unfold translator_running. by rewrite <- Ht. }
  intros _.
  (* the text-to-speech service *)
  apply (hoare_bind _ (λ t s, audio_running s = false
                              ∧ translator_running s = false
                              ∧ t = tts_module s));
    [ apply hoare_gets; by intros s [? ?] | intros ts ].
  apply (hoare_bind _ (λ _ s, audio_running s = false
                              ∧ translator_running s = false
                              ∧ tts_running s = false)).
  { destruct ts as [ts|]; simpl.
    - apply (hoare_conseq (λ s, audio_running s = false
                                ∧ translator_running s = false
                                ∧ tts_module s = Some ts) _ _
               (λ r s, is_ok r = true ∧ audio_running s = false
                       ∧ translator_running s = false
                       ∧ tts_running s = false)).
      + by intros s (? & ? & <-).
      + by intros [[]|e] s (? & ? & ? & ?).
      + apply call_module_rule.
        * intros r e.
          apply (flags_lift (λ x, is_ok r = true ∧ x.2 = false
                                  ∧ x.1.1.2 = false ∧ x.1.2 = false)).
          intros x. apply on_tts_event_flags.
        * intros q t' (Hq1 & Hq2 & _) Ht'.
          destruct (stop_tts_service_stops (tts_env env) t') as (Hr & Hf).
          rewrite Hr. split; [ done | ]. split; [ done | ]. split; [ done | ].
          unfold tts_running. simpl. done.
        * intros q (_ & _ & Hq) Hn. congruence.
    - apply hoare_ret. intros s (? & ? & Ht). split; [ done | ].
      split; [ done | ]. unfold tts_running. by rewrite <- Ht. }
  intros _.
  apply (hoare_bind _ (λ session s, audio_running s = false
                                    ∧ translator_running s = false
                                    ∧ tts_running s = false
                                    ∧ session = current_session s));
    [ apply hoare_gets; by intros s (? & ? & ?) | intros session ].
  apply (hoare_bind _ (λ _ s, audio_running s = false
                              ∧ translator_running s = false
                              ∧ tts_running s = false
                              ∧ current_session s = None)).
  { destruct session as [ses|].
    - apply (hoare_bind _ (λ _ s, audio_running s = false
                                  ∧ translator_running s = false
                                  ∧ tts_running s = false));
        [ apply hoare_gets; by intros s (? & ? & ? & _) | intros rt ].
      apply (hoare_bind _ (λ _ s, audio_running s = false
                                  ∧ translator_running s = false
                                  ∧ tts_running s = false));
        [ by apply hoare_modify | intros _ ].
      apply hoare_modify. by intros s (? & ? & ?).
    - apply hoare_ret. by intros s (? & ? & ? & <-). }
  intros _.
  apply (hoare_bind _ (λ _ s, flags s = (false, false, false, false)
                              ∧ current_session s = None)).
  { apply hoare_modify. intros s (H1 & H2 & H3 & H4). unfold flags.
    change (translator_running (set_is_running false s))
      with (translator_running s).
    change (tts_running (set_is_running false s)) with (tts_running s).
    change (audio_running (set_is_running false s)) with (audio_running s).
    by rewrite H1, H2, H3. }
  intros _ s Hs. by rewrite report_status_run.
Qed.
End PipelineMore.


Lemma start_translation_true_all_running_witness :
  MoreNotions.flags (final (Pipeline.start_translation Samples.working_machine
                  Samples.initialized_pipeline))
  = (true, true, true, true).
Proof.
  apply (start_translation_true_all_running Samples.working_machine
           Samples.initialized_pipeline);
    vm_compute; reflexivity.
Defined.

Lemma stop_translation_stops_everything_witness :
  MoreNotions.flags (final (Pipeline.stop_translation Samples.working_machine
                  (Pipeline.set_is_running true Samples.pipeline_in_session)))
  = (false, false, false, false).
Proof.
  destruct (stop_translation_stops_everything Samples.working_machine
              (Pipeline.set_is_running true Samples.pipeline_in_session))
    as (_ & H & _); [ reflexivity | | exact H ].
  intros a Ha f m Hf. vm_compute in Ha. injection Ha as <-.
  vm_compute in Hf. by injection Hf as <-.
Defined.

Lemma download_answers_witness :
  MoreNotions.marked (lit "funasr") (lit "paraformer-zh")
    (final (ModelManager.download_funasr_model MoreSamples.loaders
              (lit "paraformer-zh") MoreSamples.manager)).
Proof.
  destruct (download_answers MoreSamples.loaders MoreSamples.manager
              (lit "paraformer-zh")) as [(b & Hr & Hm) _].
  apply Hm. vm_compute in Hr. by injection Hr as <-.
Defined.

Lemma best_voice_choice_witness :
  ∃ v, v ∈ Voices.get_voices_for_language
             (final (Voices.load_available_voices MoreSamples.voice_service
                       MoreSamples.no_voices)) (lit "en-US")
       ∧ Voices.get_best_voice_for_language Settings.init
           (final (Voices.load_available_voices MoreSamples.voice_service
                     MoreSamples.no_voices)) (lit "en-US") (lit "Female")
         = Voices.name v
       ∧ ((∃ w, w ∈ Voices.get_voices_for_language
                      (final (Voices.load_available_voices
                                MoreSamples.voice_service MoreSamples.no_voices))
                      (lit "en-US")
                ∧ Voices.gender w = lit "Female") →
          Voices.gender v = lit "Female").
Proof.
  apply (best_voice_choice Settings.init
           (final (Voices.load_available_voices MoreSamples.voice_service
                     MoreSamples.no_voices)) (lit "en-US") (lit "Female")).
  by vm_compute.
Defined.

Lemma stop_capture_settles_witness :
  AudioCapture.asr_cache
    (final (AudioCapture.stop_capture Samples.working_models Samples.with_sound))
  = ∅
  ∧ AudioCapture.vad_cache
      (final (AudioCapture.stop_capture Samples.working_models
                Samples.with_sound)) = ∅.
Proof.
  apply (stop_capture_settles Samples.working_models Samples.with_sound).
  vm_compute. reflexivity.
Defined.
